(** * Kindle daily digest: the digest assembly pipeline

    A shallow embedding of the pure pipeline stages of the repository
    (interest scoring, diversity selection, fallback ranking, fallback
    summaries, URL canonicalisation, content fingerprinting) and of the
    cron runner's control flow, with the properties the specification
    states about them.

    Conventions.
    - A JavaScript string is a Rocq [string]; a character is a UTF-16 code
      unit in the range U+0000..U+00FF (Latin-1), which is what an [ascii]
      can hold.  Case mapping and the whitespace class are the ECMAScript
      ones restricted to that range.
    - A JavaScript number that can be fractional is a rational ([Q]) or
      [NaN] ([JS.number]); the rounding of binary floating point and the
      infinities are not modelled.  Counts, limits and array lengths are
      integers ([Z] or [nat]).
    - A [Date] is its time value in milliseconds or the invalid date that
      [new Date(string)] builds from a string it cannot read ([JS.Date]);
      [Date.now()] is an explicit argument.
    - An object whose identity matters is a location ([loc]) in a store. *)

From Stdlib Require Import ZArith QArith Qround Qminmax List String Ascii Bool Lia.
From Stdlib Require Import Permutation Sorted Lqa.
From stdpp Require Import gmap strings.
Import ListNotations.

Local Open Scope string_scope.
Local Open Scope list_scope.
Local Open Scope Z_scope.

(** ** JavaScript strings *)

Module JS.

Definition code (c : ascii) : N := N_of_ascii c.

Definition between (lo hi : N) (c : ascii) : bool :=
  ((lo <=? code c) && (code c <=? hi))%N.

(** [\s] and the characters [String.prototype.trim] strips: TAB, LF, VT,
    FF, CR, SPACE and NBSP (the members of WhiteSpace and LineTerminator
    below U+0100). *)
Definition isWhiteSpace (c : ascii) : bool :=
  between 9 13 c || (code c =? 32)%N || (code c =? 160)%N.

Definition isDigit (c : ascii) : bool := between 48 57 c.
Definition isLowerAZ (c : ascii) : bool := between 97 122 c.
Definition isUpperAZ (c : ascii) : bool := between 65 90 c.

(** Upper-case letters of Latin-1: A-Z and U+00C0..U+00DE except the
    multiplication sign U+00D7. *)
Definition isUpper (c : ascii) : bool :=
  isUpperAZ c || (between 192 222 c && negb (code c =? 215)%N).

(** Lower-case letters of Latin-1 whose upper case is again in Latin-1:
    a-z and U+00E0..U+00FE except the division sign U+00F7. *)
Definition isLower (c : ascii) : bool :=
  isLowerAZ c || (between 224 254 c && negb (code c =? 247)%N).

Definition toLowerCase_char (c : ascii) : ascii :=
  if isUpper c then ascii_of_N (code c + 32) else c.

Definition toUpperCase_char (c : ascii) : ascii :=
  if isLower c then ascii_of_N (code c - 32) else c.

Fixpoint map (f : ascii -> ascii) (s : string) : string :=
  match s with
  | EmptyString => EmptyString
  | String c r => String (f c) (map f r)
  end.

(** Every character of [s] satisfies [p]. *)
Fixpoint every (p : ascii -> bool) (s : string) : bool :=
  match s with
  | EmptyString => true
  | String c r => p c && every p r
  end.

(** [s.toLowerCase()] *)
Definition toLowerCase (s : string) : string := map toLowerCase_char s.

(** [s.slice(0, n)] for [0 <= n] *)
Fixpoint slice0 (n : nat) (s : string) : string :=
  match n, s with
  | S k, String c r => String c (slice0 k r)
  | _, _ => EmptyString
  end.

(** [s.slice(n)] for [0 <= n] *)
Fixpoint sliceFrom (n : nat) (s : string) : string :=
  match n, s with
  | S k, String _ r => sliceFrom k r
  | _, _ => s
  end.

(** [s.slice(0, -1)] *)
Fixpoint dropLast (s : string) : string :=
  match s with
  | EmptyString => EmptyString
  | String c EmptyString => EmptyString
  | String c r => String c (dropLast r)
  end.

(** [s.startsWith(p)] *)
Fixpoint startsWith (p s : string) : bool :=
  match p, s with
  | EmptyString, _ => true
  | String a p', String b s' => Ascii.eqb a b && startsWith p' s'
  | String _ _, EmptyString => false
  end.

(** [s.endsWith(c)] for a one-character string [c] *)
Fixpoint endsWithChar (c : ascii) (s : string) : bool :=
  match s with
  | EmptyString => false
  | String a EmptyString => Ascii.eqb a c
  | String _ r => endsWithChar c r
  end.

(** [s.replace(/\s+/g, ' ')]: every maximal run of whitespace becomes one
    space; [inRun] tells that the previous character was whitespace. *)
Fixpoint collapseWhiteSpace (inRun : bool) (s : string) : string :=
  match s with
  | EmptyString => EmptyString
  | String c r =>
      if isWhiteSpace c
      then if inRun then collapseWhiteSpace true r
           else String " " (collapseWhiteSpace true r)
      else String c (collapseWhiteSpace false r)
  end.

Fixpoint trimStart (s : string) : string :=
  match s with
  | String c r => if isWhiteSpace c then trimStart r else s
  | EmptyString => EmptyString
  end.

Fixpoint trimEnd (s : string) : string :=
  match s with
  | EmptyString => EmptyString
  | String c r =>
      match trimEnd r with
      | EmptyString => if isWhiteSpace c then EmptyString else String c EmptyString
      | r' => String c r'
      end
  end.

(** [s.trim()] *)
Definition trim (s : string) : string := trimEnd (trimStart s).

(** [parts.join(sep)] *)
Fixpoint join (sep : string) (parts : list string) : string :=
  match parts with
  | [] => ""
  | [p] => p
  | p :: rest => (p ++ sep ++ join sep rest)%string
  end.

(** [arr.includes(s)] on an array of strings *)
Definition includes (s : string) (arr : list string) : bool :=
  existsb (String.eqb s) arr.

(** Every character. *)
Definition allChars : list ascii := List.map ascii_of_nat (seq 0 256).

(** [Array.prototype.sort(compareFn)] for a consistent comparator: the
    stable sort, here by insertion.  [insert] puts [x], which preceded
    every element of [l] in the input, after the elements it compares
    greater than and before the first one it does not. *)
Fixpoint insert {A : Type} (compareFn : A -> A -> Q) (x : A) (l : list A) : list A :=
  match l with
  | [] => [x]
  | y :: l' =>
      if Qlt_le_dec 0 (compareFn x y)
      then y :: insert compareFn x l'
      else x :: y :: l'
  end.

Definition sort {A : Type} (compareFn : A -> A -> Q) (l : list A) : list A :=
  fold_right (insert compareFn) [] l.

(** [a] may stand before [b] in an array sorted by [compareFn]. *)
Definition inOrder {A : Type} (compareFn : A -> A -> Q) (a b : A) : Prop :=
  (compareFn a b <= 0)%Q.

(** *** Numbers and dates

    A number is a rational or [NaN].  Arithmetic with [NaN] gives [NaN]
    and every comparison with [NaN] is false. *)
Inductive number : Type :=
  | Num (q : Q)
  | NaN.

Definition lift2 (f : Q -> Q -> Q) (a b : number) : number :=
  match a, b with
  | Num x, Num y => Num (f x y)
  | _, _ => NaN
  end.

Definition add : number -> number -> number := lift2 Qplus.
Definition sub : number -> number -> number := lift2 Qminus.
Definition mul : number -> number -> number := lift2 Qmult.
Definition div : number -> number -> number := lift2 Qdiv.

(** [a <= b] *)
Definition le (a b : number) : bool :=
  match a, b with
  | Num x, Num y => Qle_bool x y
  | _, _ => false
  end.

(** [Math.max(a, b)] *)
Definition max : number -> number -> number := lift2 Qmax.

(** The same number: two rationals that are equal, or [NaN] twice. *)
Definition same (a b : number) : Prop :=
  match a, b with
  | Num x, Num y => x == y
  | NaN, NaN => True
  | _, _ => False
  end.


(** What [Array.prototype.sort] makes of the value a comparator returns:
    [NaN] counts as [+0]. *)
Definition sortOrder (v : number) : Q :=
  match v with
  | Num q => q
  | NaN => 0
  end.

(** A [Date] object: a time value in milliseconds, or the invalid date,
    whose time value is [NaN]. *)
Inductive Date : Type :=
  | Valid (time : Z)
  | Invalid.

(** [date.getTime()] *)
Definition getTime (date : Date) : number :=
  match date with
  | Valid time => Num (inject_Z time)
  | Invalid => NaN
  end.

(** [date.toISOString()], as far as it matters here: it returns a string
    for a valid date and throws a [RangeError] for the invalid date. *)
Definition canFormat (date : option Date) : bool :=
  match date with
  | Some Invalid => false
  | _ => true
  end.

End JS.

(** ** Regular expressions

    The fragment of ECMAScript regular expressions the scorer builds: a
    sequence of word-boundary assertions and (escaped or plain) literal
    characters, matched with the flags [g] and [i]. *)

Module RegExp.

Inductive atom : Type :=
| WordBoundary            (* \b *)
| Lit (c : ascii).        (* a pattern character or an identity escape *)

(** The syntax characters of the pattern grammar: ^ $ \ . * + ? ( ) [ ] { } | *)
Definition isSyntaxCharacter (c : ascii) : bool :=
  existsb (Ascii.eqb c)
    ["^"; "$"; "\"; "."; "*"; "+"; "?"; "("; ")"; "["; "]"; "{"; "}"; "|"]%char.

(** [new RegExp(source)]: [None] stands for a pattern outside the
    fragment (a syntax error or an operator that is not modelled). *)
Fixpoint parse (source : string) : option (list atom) :=
  match source with
  | EmptyString => Some []
  | String c r =>
      if Ascii.eqb c "\"
      then match r with
           | String e r' =>
               if Ascii.eqb e "b" then option_map (cons WordBoundary) (parse r')
               else if isSyntaxCharacter e then option_map (cons (Lit e)) (parse r')
               else None
           | EmptyString => None
           end
      else if isSyntaxCharacter c then None
      else option_map (cons (Lit c)) (parse r)
  end.

(** Canonicalize of the [i] flag (no [u] flag): the upper case of the
    character. *)
Definition canonicalize (c : ascii) : ascii := JS.toUpperCase_char c.

(** [\w] under the flags [gi]: the 63 basic word characters. *)
Definition isWordChar (c : ascii) : bool :=
  JS.isLowerAZ c || JS.isUpperAZ c || JS.isDigit c || Ascii.eqb c "_".

Definition isWordCharAt (c : option ascii) : bool :=
  match c with Some x => isWordChar x | None => false end.

(** Match the atoms at one position: [prev] is the character before the
    position, [rest] the input from the position on.  The result is the
    length of the match. *)
Fixpoint matchHere (atoms : list atom) (prev : option ascii) (rest : list ascii)
  : option nat :=
  match atoms with
  | [] => Some 0%nat
  | WordBoundary :: atoms' =>
      if xorb (isWordCharAt prev) (isWordCharAt (head rest))
      then matchHere atoms' prev rest
      else None
  | Lit c :: atoms' =>
      match rest with
      | x :: rest' =>
          if Ascii.eqb (canonicalize c) (canonicalize x)
          then option_map S (matchHere atoms' (Some x) rest')
          else None
      | [] => None
      end
  end.

(** The loop of [String.prototype.match] for a global pattern, from
    [lastIndex = 0]: find the first position at or after [lastIndex]
    where the pattern matches, record it, move [lastIndex] to the end of
    the match (one further after an empty match) and repeat.  [pos] is
    the current position, [skip] the number of positions still before
    [lastIndex].  The result lists the start index of every match. *)
Fixpoint scan (atoms : list atom) (prev : option ascii) (rest : list ascii)
    (pos skip : nat) : list nat :=
  match skip with
  | S k =>
      match rest with
      | [] => []
      | x :: rest' => scan atoms (Some x) rest' (S pos) k
      end
  | O =>
      match matchHere atoms prev rest with
      | Some len =>
          pos :: match rest with
                 | [] => []
                 | x :: rest' => scan atoms (Some x) rest' (S pos) (Nat.pred len)
                 end
      | None =>
          match rest with
          | [] => []
          | x :: rest' => scan atoms (Some x) rest' (S pos) 0%nat
          end
      end
  end.

(** [text.match(regex)]: [null] when nothing matches, else the matches
    (given by their start indices). *)
Definition matchAll (atoms : list atom) (text : string) : option (list nat) :=
  match scan atoms None (list_ascii_of_string text) 0 0 with
  | [] => None
  | ms => Some ms
  end.

(** The character before index [p] of [text], if any. *)
Definition charBefore (text : list ascii) (p : nat) : option ascii :=
  match p with
  | O => None
  | S q => nth_error text q
  end.

(** Index [p] of [text] is a word boundary: exactly one of the characters
    before and at [p] is a word character. *)
Definition isBoundary (text : list ascii) (p : nat) : bool :=
  xorb (isWordCharAt (charBefore text p)) (isWordCharAt (nth_error text p)).

(** The pattern matches [text] at index [p]. *)
Definition matchAt (atoms : list atom) (text : list ascii) (p : nat) : option nat :=
  matchHere atoms (charBefore text p) (skipn p text).

(** The scan as a function of the text read so far ([pre]) and the text
    still to read ([rest]). *)
Definition scanFrom (atoms : list atom) (pre rest : list ascii) (skip : nat)
  : list nat :=
  scan atoms (charBefore (pre ++ rest) (List.length pre)) rest (List.length pre) skip.

(** [rest] starts with [k], up to the case folding of the [i] flag. *)
Fixpoint foldedPrefix (k rest : list ascii) : bool :=
  match k, rest with
  | [], _ => true
  | c :: k', x :: rest' =>
      Ascii.eqb (canonicalize c) (canonicalize x) && foldedPrefix k' rest'
  | _ :: _, [] => false
  end.

End RegExp.

(** ** packages/core/src/rss: feed items *)

Module Rss.

Record FeedItem : Type := mkFeedItem {
  title : string;
  link : string;
  pubDate : option JS.Date;    (* Date | null *)
  content : string;
  contentSnippet : string;
  author : option string;
  feedTitle : string;
  feedUrl : string
}.

(** The publish date is [null] or a valid date. *)
Definition validDate (i : FeedItem) : Prop := pubDate i <> Some JS.Invalid.

End Rss.

(** ** packages/core/src/interests *)

Module Interests.
Import Rss.

Record InterestTopic : Type := mkTopic {
  keywords : list string;
  feeds : option (list string)
}.

(** The interest configuration in the order of [Object.entries]. *)
Definition DigestInterests : Type := list (string * InterestTopic).

Record ScoredFeedItem : Type := mkScored {
  item : FeedItem;
  score : JS.number;
  matchedTopics : list string;
  matchedKeywords : list string;
  recencyScore : JS.number
}.

(** [now] is the value [Date.now()] returns.  An invalid date is an
    object, so it passes the test [!pubDate]; its age is [NaN], both
    comparisons are false and the result is [Math.max(0, NaN)]. *)
Definition calculateRecencyScore (now : Z) (pubDate : option JS.Date) : JS.number :=
  match pubDate with
  | None => JS.Num 0
  | Some date =>
      let ageMs := JS.sub (JS.Num (inject_Z now)) (JS.getTime date) in
      let ageHours := JS.div ageMs (JS.Num (inject_Z (1000 * 60 * 60))) in
      if JS.le ageHours (JS.Num 6) then JS.Num 100
      else if JS.le (JS.Num 72) ageHours then JS.Num 0
      else JS.max (JS.Num 0)
             (JS.sub (JS.Num 100)
                (JS.mul (JS.sub ageHours (JS.Num 6)) (JS.div (JS.Num 100) (JS.Num 66))))
  end.

(** The characters outside the class [[^a-z0-9\s-]]: they are kept. *)
Definition isKept (c : ascii) : bool :=
  JS.isLowerAZ c || JS.isDigit c || JS.isWhiteSpace c || Ascii.eqb c "-".

Definition normalizeText (text : string) : string :=
  JS.map (fun c => if isKept c then c else " "%char) (JS.toLowerCase text).

(** What [normalizeText] does to one character. *)
Definition normalizeChar (c : ascii) : ascii :=
  let lower := JS.toLowerCase_char c in
  if isKept lower then lower else " "%char.

(** [str.replace(/[.*+?^${}()|[\]\\]/g, '\\$&')] *)
Fixpoint escapeRegex (str : string) : string :=
  match str with
  | EmptyString => EmptyString
  | String c r =>
      if RegExp.isSyntaxCharacter c
      then String "\" (String c (escapeRegex r))
      else String c (escapeRegex r)
  end.

(** The [RegExp] constructor accepts every pattern this function builds
    (see [parse_wordBoundaryRegex] below), so the [None] branch is never
    taken. *)
Definition scoreKeyword (keyword text : string) : Z :=
  let normalizedKeyword := normalizeText keyword in
  let normalizedText := normalizeText text in
  match RegExp.parse ("\b" ++ escapeRegex normalizedKeyword ++ "\b")%string with
  | None => 0
  | Some wordBoundaryRegex =>
      match RegExp.matchAll wordBoundaryRegex normalizedText with
      | None => 0
      | Some matches =>
          let matchCount := Z.of_nat (List.length matches) in
          Z.min 10 (matchCount * 2)
      end
  end.

(** Every character of [s] is one that [normalizeText] leaves alone. *)
Definition isNormalized (s : string) : Prop :=
  Forall (fun c => isKept c = true) (list_ascii_of_string s).

(** The pattern [scoreKeyword] compiles for a normalized keyword. *)
Definition wordBoundaryRegex (normalizedKeyword : string) : list RegExp.atom :=
  RegExp.WordBoundary
    :: List.map RegExp.Lit (list_ascii_of_string normalizedKeyword)
    ++ [RegExp.WordBoundary].

(** The start indices of the matches the global scan finds: the
    occurrences that [scoreKeyword] counts. *)
Definition occurrences (normalizedKeyword normalizedText : string) : list nat :=
  RegExp.scan (wordBoundaryRegex normalizedKeyword) None
    (list_ascii_of_string normalizedText) 0 0.

(** The keyword stands in the text at index [p], between two word
    boundaries. *)
Definition occursAt (normalizedKeyword normalizedText : string) (p : nat) : Prop :=
  let k := list_ascii_of_string normalizedKeyword in
  let t := list_ascii_of_string normalizedText in
  RegExp.isBoundary t p = true
  /\ firstn (List.length k) (skipn p t) = k
  /\ RegExp.isBoundary t (p + List.length k) = true.

(** [[strings].filter(Boolean)]: the empty string is falsy. *)
Definition truthy (s : string) : bool := negb (String.eqb s "").

(** The inner loop of [scoreFeedItem] over the keywords of one topic;
    the state is [(topicScore, matchedKeywords)]. *)
Definition scoreTopic (textToSearch : string) (topicKeywords : list string)
    (matchedKeywords : list string) : Z * list string :=
  fold_left
    (fun '(topicScore, matchedKeywords) keyword =>
       let keywordScore := scoreKeyword keyword textToSearch in
       if 0 <? keywordScore
       then (topicScore + keywordScore,
             if negb (JS.includes keyword matchedKeywords)
             then matchedKeywords ++ [keyword]
             else matchedKeywords)
       else (topicScore, matchedKeywords))
    topicKeywords (0, matchedKeywords).

(** The outer loop over [Object.entries(interests)]; the state is
    [(totalScore, matchedTopics, matchedKeywords)]. *)
Definition scoreTopics (textToSearch : string) (interests : DigestInterests)
  : Z * list string * list string :=
  fold_left
    (fun '(totalScore, matchedTopics, matchedKeywords) '(topicName, topic) =>
       let '(topicScore, matchedKeywords) :=
         scoreTopic textToSearch (keywords topic) matchedKeywords in
       if 0 <? topicScore
       then (totalScore + topicScore, matchedTopics ++ [topicName], matchedKeywords)
       else (totalScore, matchedTopics, matchedKeywords))
    interests (0, [], []).

Definition scoreFeedItem (now : Z) (item : FeedItem) (interests : DigestInterests)
  : ScoredFeedItem :=
  let textToSearch :=
    JS.join " " (List.filter truthy [title item; contentSnippet item; content item]) in
  let '(totalScore, matchedTopics, matchedKeywords) :=
    scoreTopics textToSearch interests in
  let recencyScore := calculateRecencyScore now (pubDate item) in
  let combinedScore :=
    JS.add (JS.Num (inject_Z totalScore)) (JS.mul recencyScore (JS.Num (2 # 10))) in
  {| item := item;
     score := combinedScore;
     matchedTopics := matchedTopics;
     matchedKeywords := matchedKeywords;
     recencyScore := recencyScore |}.

(** The vocabulary of the scoring rules: the age of an item in hours, the
    text that is searched, the score of one topic (the sum of the scores
    of its keywords), the total of the positive topic scores, and the
    names of the topics with a positive score. *)
Definition ageHours (now t : Z) : Q :=
  (inject_Z (now - t) / inject_Z (1000 * 60 * 60))%Q.

Definition searchText (item : FeedItem) : string :=
  JS.join " " (List.filter truthy [title item; contentSnippet item; content item]).

Definition sumZ (l : list Z) : Z := fold_right Z.add 0 l.

Definition topicScore (textToSearch : string) (topic : InterestTopic) : Z :=
  sumZ (List.map (fun keyword => scoreKeyword keyword textToSearch) (keywords topic)).

Definition totalKeywordScore (textToSearch : string) (interests : DigestInterests) : Z :=
  sumZ (List.map (fun '(_, topic) =>
                    let s := topicScore textToSearch topic in
                    if 0 <? s then s else 0) interests).

Definition matchedTopicNames (textToSearch : string) (interests : DigestInterests)
  : list string :=
  List.map fst
    (List.filter (fun '(_, topic) => 0 <? topicScore textToSearch topic) interests).

(** [items.map(f)] with the index of each element: [clock i] is what
    [Date.now()] returns while the [i]-th item is scored. *)
Fixpoint mapi {A B : Type} (f : nat -> A -> B) (i : nat) (l : list A) : list B :=
  match l with
  | [] => []
  | x :: r => f i x :: mapi f (S i) r
  end.

(** The comparator of the ranking, [(a, b) => b.score - a.score], as the
    sort reads it. *)
Definition byScoreDesc (a b : ScoredFeedItem) : Q :=
  JS.sortOrder (JS.sub (score b) (score a)).

Definition scoreAndRankFeedItems (clock : nat -> Z) (items : list FeedItem)
    (interests : DigestInterests) : list ScoredFeedItem :=
  let scoredItems := mapi (fun i item => scoreFeedItem (clock i) item interests) 0 items in
  let relevantItems :=
    List.filter (fun item => (0 <? List.length (matchedTopics item))%nat) scoredItems in
  JS.sort byScoreDesc relevantItems.




(** *** Diversity selection

    The scored items are objects: [selected.includes(item)] compares
    references.  An array of items is a list of locations, and [store]
    gives the object at a location. *)
Definition loc : Type := nat.

Section Select.
Variable store : loc -> ScoredFeedItem.

(** [item.matchedTopics[0]] used as a property key: [undefined]
    becomes the key "undefined". *)
Definition primaryTopic (item : loc) : string :=
  match matchedTopics (store item) with
  | t :: _ => t
  | [] => "undefined"
  end.

(** [selected.includes(item)] *)
Definition includes (item : loc) (selected : list loc) : bool :=
  existsb (Nat.eqb item) selected.

(** The counter record [topicCounts] is an object literal: the finite
    map holds its own properties, and it inherits the members of
    [Object.prototype], whose names are these. *)
Definition objectPrototypeMembers : list string :=
  ["constructor"; "__defineGetter__"; "__defineSetter__"; "hasOwnProperty";
   "__lookupGetter__"; "__lookupSetter__"; "isPrototypeOf";
   "propertyIsEnumerable"; "toString"; "valueOf"; "__proto__";
   "toLocaleString"].

Definition isInherited (topic : string) : bool :=
  JS.includes topic objectPrototypeMembers.

(** What [topicCounts[primaryTopic] || 0] is: a count, or an inherited
    member (a function, or the prototype object for [__proto__]). *)
Inductive Count : Type :=
  | Counted (n : Z)
  | Member.

Definition countOf (topicCounts : gmap string Z) (topic : string) : Count :=
  match topicCounts !! topic with
  | Some n => Counted n
  | None => if isInherited topic then Member else Counted 0
  end.

(** The first loop; the state is [(selected, topicCounts)].  For an
    inherited member the comparison [currentCount < maxPerTopic] converts
    it to [NaN] and is false. *)
Fixpoint diversityPass (maxItems maxPerTopic : Z) (scoredItems : list loc)
    (selected : list loc) (topicCounts : gmap string Z)
  : list loc * gmap string Z :=
  match scoredItems with
  | [] => (selected, topicCounts)
  | item :: rest =>
      if Z.of_nat (List.length selected) >=? maxItems then (selected, topicCounts)
      else
        match countOf topicCounts (primaryTopic item) with
        | Counted currentCount =>
            if currentCount <? maxPerTopic
            then diversityPass maxItems maxPerTopic rest (selected ++ [item])
                   (<[primaryTopic item := currentCount + 1]> topicCounts)
            else diversityPass maxItems maxPerTopic rest selected topicCounts
        | Member => diversityPass maxItems maxPerTopic rest selected topicCounts
        end
  end.

(** The second loop. *)
Fixpoint fillPass (maxItems : Z) (scoredItems : list loc) (selected : list loc)
  : list loc :=
  match scoredItems with
  | [] => selected
  | item :: rest =>
      if Z.of_nat (List.length selected) >=? maxItems then selected
      else if negb (includes item selected)
           then fillPass maxItems rest (selected ++ [item])
           else fillPass maxItems rest selected
  end.

Definition selectDiverseItems (scoredItems : list loc) (maxItems maxPerTopic : Z)
  : list loc :=
  let '(selected, topicCounts) :=
    diversityPass maxItems maxPerTopic scoredItems [] ∅ in
  if Z.of_nat (List.length selected) <? maxItems
  then fillPass maxItems scoredItems selected
  else selected.

(** The selection as the specification words it, without the counter
    record: [admittedCount topic selected] counts the selected items whose
    primary topic is [topic]. *)
Definition admittedCount (topic : string) (selected : list loc) : Z :=
  Z.of_nat (List.length
    (List.filter (fun i => String.eqb (primaryTopic i) topic) selected)).

Fixpoint specPass1 (maxItems maxPerTopic : Z) (scoredItems selected : list loc)
  : list loc :=
  match scoredItems with
  | [] => selected
  | item :: rest =>
      if Z.of_nat (List.length selected) >=? maxItems then selected
      else if admittedCount (primaryTopic item) selected <? maxPerTopic
           then specPass1 maxItems maxPerTopic rest (selected ++ [item])
           else specPass1 maxItems maxPerTopic rest selected
  end.

Fixpoint specPass2 (maxItems : Z) (scoredItems selected : list loc) : list loc :=
  match scoredItems with
  | [] => selected
  | item :: rest =>
      if Z.of_nat (List.length selected) >=? maxItems then selected
      else if in_dec Nat.eq_dec item selected
           then specPass2 maxItems rest selected
           else specPass2 maxItems rest (selected ++ [item])
  end.

Definition specSelect (scoredItems : list loc) (maxItems maxPerTopic : Z)
  : list loc :=
  let pass1 := specPass1 maxItems maxPerTopic scoredItems [] in
  if Z.of_nat (List.length pass1) <? maxItems
  then specPass2 maxItems scoredItems pass1
  else pass1.

(** No item of the list has the name of an inherited member as its
    primary topic. *)
Definition ownTopics (scoredItems : list loc) : Prop :=
  Forall (fun item => isInherited (primaryTopic item) = false) scoredItems.

(** The counter record holds, for every topic that is not the name of an
    inherited member, the number of selected items with that primary
    topic; it has no own property of an inherited name, and no selected
    item has such a primary topic. *)
Definition countsAgree (topicCounts : gmap string Z) (selected : list loc) : Prop :=
  forall topic,
    if isInherited topic
    then topicCounts !! topic = None /\ admittedCount topic selected = 0
    else countOf topicCounts topic = Counted (admittedCount topic selected).

End Select.

End Interests.

(** ** SHA-256 (FIPS 180-4), the digest of Node's [crypto.createHash('sha256')]

    Words are integers in [[0, 2^32)]; the message is a list of bytes. *)

Module Sha256.

Definition w32 (x : Z) : Z := x mod 2 ^ 32.

Definition add32 (x y : Z) : Z := w32 (x + y).

Definition rotr (n x : Z) : Z :=
  Z.lor (Z.shiftr x n) (w32 (Z.shiftl x (32 - n))).

Definition shr (n x : Z) : Z := Z.shiftr x n.

Definition not32 (x : Z) : Z := Z.lxor x 0xffffffff.

Definition Ch (x y z : Z) : Z := Z.lxor (Z.land x y) (Z.land (not32 x) z).

Definition Maj (x y z : Z) : Z :=
  Z.lxor (Z.lxor (Z.land x y) (Z.land x z)) (Z.land y z).

Definition bigSigma0 (x : Z) : Z := Z.lxor (Z.lxor (rotr 2 x) (rotr 13 x)) (rotr 22 x).
Definition bigSigma1 (x : Z) : Z := Z.lxor (Z.lxor (rotr 6 x) (rotr 11 x)) (rotr 25 x).
Definition sigma0 (x : Z) : Z := Z.lxor (Z.lxor (rotr 7 x) (rotr 18 x)) (shr 3 x).
Definition sigma1 (x : Z) : Z := Z.lxor (Z.lxor (rotr 17 x) (rotr 19 x)) (shr 10 x).

(** The first [n] primes, by trial division. *)
Definition isPrime (n : nat) : bool :=
  (2 <=? n)%nat && forallb (fun d => negb (n mod d =? 0)%nat) (seq 2 (n - 2)).

Definition primes (n : nat) : list Z :=
  List.map Z.of_nat (firstn n (List.filter isPrime (seq 0 320))).

(** The integer cube root of a number below [2 ^ 108], bit by bit. *)
Definition cubeRoot (x : Z) : Z :=
  fold_left
    (fun r bit =>
       let candidate := r + 2 ^ Z.of_nat bit in
       if candidate * candidate * candidate <=? x then candidate else r)
    (rev (seq 0 36)) 0.

(** The round constants: the first 32 bits of the fractional parts of the
    cube roots of the first 64 primes. *)
Definition K : list Z :=
  Eval vm_compute in List.map (fun p => w32 (cubeRoot (p * 2 ^ 96))) (primes 64).

(** The initial hash value: the first 32 bits of the fractional parts of
    the square roots of the first 8 primes. *)
Definition H0 : list Z :=
  Eval vm_compute in List.map (fun p => w32 (Z.sqrt (p * 2 ^ 64))) (primes 8).

(** The hash value: eight words. *)
Record state : Type := mkState { ha : Z; hb : Z; hc : Z; hd : Z;
                                 he : Z; hf : Z; hg : Z; hh : Z }.

Definition initial : state :=
  mkState (nth 0 H0 0) (nth 1 H0 0) (nth 2 H0 0) (nth 3 H0 0)
          (nth 4 H0 0) (nth 5 H0 0) (nth 6 H0 0) (nth 7 H0 0).

(** Padding: the byte 0x80, zero bytes up to 56 modulo 64, and the length
    of the message in bits as a big-endian 64-bit integer. *)
Definition bigEndian (width : nat) (x : Z) : list Z :=
  List.map (fun i => Z.land (Z.shiftr x (8 * Z.of_nat (width - 1 - i))) 0xff)
    (seq 0 width).

Definition pad (message : list Z) : list Z :=
  let len := Z.of_nat (List.length message) in
  let zeros := Z.to_nat ((55 - len) mod 64) in
  message ++ [0x80] ++ List.repeat 0 zeros ++ bigEndian 8 (8 * len).

(** Big-endian words of a block of bytes. *)
Fixpoint toWords (bytes : list Z) : list Z :=
  match bytes with
  | b0 :: b1 :: b2 :: b3 :: rest =>
      (Z.shiftl b0 24 + Z.shiftl b1 16 + Z.shiftl b2 8 + b3) :: toWords rest
  | _ => []
  end.

(** The message schedule: [w] holds the words computed so far, the most
    recent first. *)
Fixpoint extend (n : nat) (w : list Z) : list Z :=
  match n with
  | O => w
  | S k =>
      let next :=
        add32 (add32 (sigma1 (nth 1 w 0)) (nth 6 w 0))
              (add32 (sigma0 (nth 14 w 0)) (nth 15 w 0)) in
      extend k (next :: w)
  end.

Definition schedule (block : list Z) : list Z :=
  rev (extend 48 (rev (toWords block))).

Definition round (s : state) (kw : Z * Z) : state :=
  let '(k, w) := kw in
  let t1 := add32 (add32 (add32 (hh s) (bigSigma1 (he s))) (Ch (he s) (hf s) (hg s)))
                  (add32 k w) in
  let t2 := add32 (bigSigma0 (ha s)) (Maj (ha s) (hb s) (hc s)) in
  mkState (add32 t1 t2) (ha s) (hb s) (hc s) (add32 (hd s) t1) (he s) (hf s) (hg s).

Definition compress (s : state) (block : list Z) : state :=
  let r := fold_left round (combine K (schedule block)) s in
  mkState (add32 (ha s) (ha r)) (add32 (hb s) (hb r)) (add32 (hc s) (hc r))
          (add32 (hd s) (hd r)) (add32 (he s) (he r)) (add32 (hf s) (hf r))
          (add32 (hg s) (hg r)) (add32 (hh s) (hh r)).

(** The blocks of 64 bytes; [fuel] bounds their number. *)
Fixpoint blocks (fuel : nat) (bytes : list Z) : list (list Z) :=
  match fuel, bytes with
  | S k, _ :: _ => firstn 64 bytes :: blocks k (skipn 64 bytes)
  | _, _ => []
  end.

Definition digest (message : list Z) : state :=
  let padded := pad message in
  fold_left compress (blocks (List.length padded) padded) initial.

(** [digest('hex')]: lower-case hexadecimal, eight digits a word. *)
Definition hexDigit (n : Z) : ascii :=
  if n <? 10 then ascii_of_N (Z.to_N (48 + n)) else ascii_of_N (Z.to_N (87 + n)).

Definition hexWord (w : Z) (tail : string) : string :=
  fold_right (fun i acc => String (hexDigit (Z.land (Z.shiftr w (28 - 4 * i)) 15)) acc)
    tail [0; 1; 2; 3; 4; 5; 6; 7].

Definition hex (s : state) : string :=
  hexWord (ha s) (hexWord (hb s) (hexWord (hc s) (hexWord (hd s)
    (hexWord (he s) (hexWord (hf s) (hexWord (hg s) (hexWord (hh s) ""))))))).

(** The UTF-8 encoding of a string of characters below U+0100. *)
Fixpoint utf8 (s : string) : list Z :=
  match s with
  | EmptyString => []
  | String c r =>
      let n := Z.of_N (N_of_ascii c) in
      if n <? 128 then n :: utf8 r
      else Z.lor 0xc0 (Z.shiftr n 6) :: Z.lor 0x80 (Z.land n 0x3f) :: utf8 r
  end.

(** [createHash('sha256').update(s).digest('hex')] *)
Definition sha256Hex (s : string) : string := hex (digest (utf8 s)).

End Sha256.

(** ** The platform's URL class

    A model of the parser and serializer of the WHATWG URL standard, on
    the fragment of absolute URLs of the form

      [("http" | "https") "://" host [path] ["?" query] ["#" fragment]]

    where the host is a sequence of non-empty labels over [A-Za-z0-9-]
    separated by dots, no label starts with "xn--" and the last label
    starts with a letter (so the host is neither an IPv4 address nor an
    internationalized name); the path has no "." or ".." segment and only
    characters the parser leaves alone; the query is a sequence of
    [name=value], [name] or empty items separated by "&", with names and
    values over the characters the form-urlencoded serializer leaves
    alone; the fragment has only characters the parser leaves alone.  On
    this fragment the parser only lower-cases the host and supplies the
    path "/" when there is none.  A string without ":" has no scheme and is
    rejected with a [TypeError].  Every other string is outside the model
    ([Unmodelled]). *)

Module URL.

Definition isNot (c : ascii) : ascii -> bool := fun x => negb (Ascii.eqb x c).

(** Split at the first [c]: the part before it and, if [c] occurs, the
    part after it. *)
Fixpoint splitFirst (c : ascii) (s : string) : string * option string :=
  match s with
  | EmptyString => (EmptyString, None)
  | String x r =>
      if Ascii.eqb x c then (EmptyString, Some r)
      else let '(before, after) := splitFirst c r in (String x before, after)
  end.

(** [s.split(c)] *)
Fixpoint split (c : ascii) (s : string) : list string :=
  match s with
  | EmptyString => [EmptyString]
  | String x r =>
      if Ascii.eqb x c then EmptyString :: split c r
      else match split c r with
           | first :: others => String x first :: others
           | [] => [String x EmptyString]
           end
  end.

(** The character U+0022. *)
Definition doubleQuote : ascii := ascii_of_N 34.

Definition isAlpha (c : ascii) : bool := JS.isLowerAZ c || JS.isUpperAZ c.

(** Host characters after lower-casing. *)
Definition isHostChar (c : ascii) : bool :=
  JS.isLowerAZ c || JS.isDigit c || Ascii.eqb c "-".

Definition validLabel (label : string) : bool :=
  negb (String.eqb label "") && JS.every isHostChar label
  && negb (JS.startsWith "xn--" label).

Definition startsWithLetter (label : string) : bool :=
  match label with
  | String c _ => JS.isLowerAZ c
  | EmptyString => false
  end.

Definition validHost (host : string) : bool :=
  let labels := split "." host in
  forallb validLabel labels && startsWithLetter (List.last labels "").

(** Printable ASCII outside the path percent-encode set, without the
    backslash and the percent sign. *)
Definition isPathChar (c : ascii) : bool :=
  JS.between 33 126 c
  && negb (existsb (Ascii.eqb c) [doubleQuote; "#"; "<"; ">"; "?"; "`"; "{"; "}"; "\"; "%"]%char).

Definition isDotSegment (segment : string) : bool :=
  String.eqb segment "." || String.eqb segment "..".

Definition validPath (path : string) : bool :=
  JS.startsWith "/" path && JS.every isPathChar path
  && forallb (fun segment => negb (isDotSegment segment)) (split "/" path).

(** The characters the form-urlencoded serializer leaves alone. *)
Definition isFormChar (c : ascii) : bool :=
  JS.isLowerAZ c || JS.isUpperAZ c || JS.isDigit c
  || existsb (Ascii.eqb c) ["*"; "-"; "."; "_"]%char.

Definition validItem (item : string) : bool :=
  match splitFirst "=" item with
  | (name, None) => JS.every isFormChar name
  | (name, Some value) => JS.every isFormChar name && JS.every isFormChar value
  end.

Definition validQuery (query : string) : bool :=
  forallb validItem (split "&" query).

(** Printable ASCII outside the fragment percent-encode set. *)
Definition isFragmentChar (c : ascii) : bool :=
  JS.between 33 126 c
  && negb (existsb (Ascii.eqb c) [doubleQuote; "<"; ">"; "`"]%char).

(** The application/x-www-form-urlencoded parser and serializer. *)
Definition parseQuery (query : string) : list (string * string) :=
  List.map (fun item =>
              match splitFirst "=" item with
              | (name, Some value) => (name, value)
              | (name, None) => (name, "")
              end)
    (List.filter (fun item => negb (String.eqb item "")) (split "&" query)).

Fixpoint serializeQuery (params : list (string * string)) : string :=
  match params with
  | [] => ""
  | [(name, value)] => (name ++ "=" ++ value)%string
  | (name, value) :: rest => (name ++ "=" ++ value ++ "&" ++ serializeQuery rest)%string
  end.

(** A URL object: the URL record and the list of its [searchParams]. *)
Record t : Type := mkURL {
  protocol : string;                        (* the scheme and ":" *)
  hostname : string;
  pathname : string;
  search : option string;                   (* the query; [None] is null *)
  searchParams : list (string * string);
  hash : option string                      (* the fragment; [None] is null *)
}.

Inductive outcome : Type :=
| Parsed (url : t)
| TypeError
| Unmodelled.

(** The invariant of the URL objects of the fragment. *)
Definition safePair (p : string * string) : Prop :=
  JS.every isFormChar (fst p) = true /\ JS.every isFormChar (snd p) = true.

Definition wf (url : t) : Prop :=
  (protocol url = "https:" \/ protocol url = "http:")
  /\ validHost (hostname url) = true
  /\ validPath (pathname url) = true
  /\ validQuery (default "" (search url)) = true
  /\ searchParams url = parseQuery (default "" (search url))
  /\ Forall safePair (searchParams url)
  /\ JS.every isFragmentChar (default "" (hash url)) = true.

Definition contains (c : ascii) (s : string) : bool :=
  negb (JS.every (isNot c) s).

(** The states of the parser after the scheme and "//": the fragment is
    what follows the first "#", the query what follows the first "?"
    before it, the path starts at the first "/" before that, and the host
    is the rest. *)
Definition parseAfterScheme (protocol rest : string) : outcome :=
  let '(beforeHash, fragment) := splitFirst "#" rest in
  let '(beforeQuery, query) := splitFirst "?" beforeHash in
  let '(host, path) := splitFirst "/" beforeQuery in
  let hostname := JS.toLowerCase host in
  let pathname := String "/" (default "" path) in
  if validHost hostname && validPath pathname
     && validQuery (default "" query)
     && JS.every isFragmentChar (default "" fragment)
  then Parsed {| protocol := protocol;
                 hostname := hostname;
                 pathname := pathname;
                 search := query;
                 searchParams := parseQuery (default "" query);
                 hash := fragment |}
  else Unmodelled.

(** [new URL(input)] *)
Definition new (input : string) : outcome :=
  if negb (contains ":" input) then TypeError
  else if JS.startsWith "https://" input
       then parseAfterScheme "https:" (JS.sliceFrom 8 input)
  else if JS.startsWith "http://" input
       then parseAfterScheme "http:" (JS.sliceFrom 7 input)
  else Unmodelled.


(** [url.searchParams.delete(name)]: remove the pairs, then update the
    query of the URL from the list (null if the list serializes to the
    empty string). *)
Definition searchParams_delete (name : string) (url : t) : t :=
  let params :=
    List.filter (fun p => negb (String.eqb (fst p) name)) (searchParams url) in
  let serialized := serializeQuery params in
  {| protocol := protocol url;
     hostname := hostname url;
     pathname := pathname url;
     search := if String.eqb serialized "" then None else Some serialized;
     searchParams := params;
     hash := hash url |}.

(** [url.protocol = value], for a value "http:" or "https:". *)
Definition set_protocol (value : string) (url : t) : t :=
  {| protocol := value; hostname := hostname url; pathname := pathname url;
     search := search url; searchParams := searchParams url; hash := hash url |}.

(** [url.pathname = value]: the path is parsed again; a value outside the
    fragment leaves the model. *)
Definition set_pathname (value : string) (url : t) : option t :=
  if validPath value
  then Some {| protocol := protocol url; hostname := hostname url; pathname := value;
               search := search url; searchParams := searchParams url;
               hash := hash url |}
  else None.

(** [url.hostname = value]: the host is parsed again; the empty host is
    refused (the URL stays as it is); a value outside the fragment leaves
    the model. *)
Definition set_hostname (value : string) (url : t) : option t :=
  if String.eqb value "" then Some url
  else if validHost (JS.toLowerCase value)
  then Some {| protocol := protocol url; hostname := JS.toLowerCase value;
               pathname := pathname url; search := search url;
               searchParams := searchParams url; hash := hash url |}
  else None.

(** [url.toString()], the serialization of the URL. *)
Definition toString (url : t) : string :=
  (protocol url ++ "//" ++ hostname url ++ pathname url
   ++ match search url with Some q => String "?" q | None => "" end
   ++ match hash url with Some h => String "#" h | None => "" end)%string.

End URL.

(** ** packages/core/src/extraction: canonical URLs and content hashes *)

Module Extractor.

Definition trackingParams : list string :=
  [ "utm_source"; "utm_medium"; "utm_campaign"; "utm_term"; "utm_content";
    "ref"; "source"; "fbclid"; "gclid"; "mc_cid"; "mc_eid" ].

(** The body of the [try] block, on the parsed URL.  [None] means that a
    setter received a value outside the modelled fragment. *)
Definition canonicalizeParsed (parsed : URL.t) : option URL.t :=
  (* Remove common tracking parameters *)
  let parsed :=
    fold_left (fun parsed param => URL.searchParams_delete param parsed)
      trackingParams parsed in
  (* Normalize protocol to https *)
  let parsed := URL.set_protocol "https:" parsed in
  (* Remove trailing slash from pathname *)
  match
    (if JS.endsWithChar "/" (URL.pathname parsed)
        && (1 <? String.length (URL.pathname parsed))%nat
     then URL.set_pathname (JS.dropLast (URL.pathname parsed)) parsed
     else Some parsed)
  with
  | None => None
  | Some parsed =>
      (* Remove www prefix *)
      match
        (if JS.startsWith "www." (URL.hostname parsed)
         then URL.set_hostname (JS.sliceFrom 4 (URL.hostname parsed)) parsed
         else Some parsed)
      with
      | None => None
      | Some parsed =>
          (* Lowercase hostname *)
          URL.set_hostname (JS.toLowerCase (URL.hostname parsed)) parsed
      end
  end.

(** The pairs that survive the deletion of [names]. *)
Definition keepParam (names : list string) (p : string * string) : bool :=
  negb (existsb (String.eqb (fst p)) names).

(** The URL after [names] have been deleted from its [searchParams]. *)
Definition withoutParams (names : list string) (url : URL.t) : URL.t :=
  let params := List.filter (keepParam names) (URL.searchParams url) in
  {| URL.protocol := URL.protocol url;
     URL.hostname := URL.hostname url;
     URL.pathname := URL.pathname url;
     URL.search := if String.eqb (URL.serializeQuery params) ""
                   then None else Some (URL.serializeQuery params);
     URL.searchParams := params;
     URL.hash := URL.hash url |}.

(** The query of [url] is what the deletion of the tracking parameters
    leaves. *)
Definition queryCanonical (url : URL.t) : Prop :=
  List.filter (keepParam trackingParams) (URL.searchParams url) = URL.searchParams url
  /\ URL.search url
     = if String.eqb (URL.serializeQuery (URL.searchParams url)) ""
       then None else Some (URL.serializeQuery (URL.searchParams url)).

Definition canonical (url : URL.t) : Prop :=
  URL.wf url /\ URL.protocol url = "https:" /\ queryCanonical url.

(** [canonicalizeUrl(url)]; [None] when the input is outside the modelled
    fragment of URLs. *)
Definition canonicalizeUrl (url : string) : option string :=
  match URL.new url with
  | URL.Parsed parsed => option_map URL.toString (canonicalizeParsed parsed)
  | URL.TypeError => Some url               (* catch { return url; } *)
  | URL.Unmodelled => None
  end.



Definition normalizeContent (contentText : string) : string :=
  JS.slice0 (Z.to_nat 5000)
    (JS.trim (JS.collapseWhiteSpace false (JS.toLowerCase contentText))).

(** A character the normalisation keeps as it is: it is not whitespace
    and lower-casing does not change it. *)
Definition isStable (c : ascii) : bool :=
  negb (JS.isWhiteSpace c) && Ascii.eqb (JS.toLowerCase_char c) c.

Definition isLowerHex (c : ascii) : bool :=
  JS.isDigit c || JS.between 97 102 c.

Definition computeContentHash (contentText : string) : string :=
  (* Normalize whitespace and lowercase for consistent hashing *)
  let normalized := normalizeContent contentText in
  JS.slice0 32 (Sha256.sha256Hex normalized).

End Extractor.

(** ** packages/core/src/llm: fallback ranking and fallback summaries *)

Module Llm.

Inductive ArticleTier : Type := critical | notable | related.

Record ArticleForRanking : Type := mkArticle {
  id : string;
  title : string;
  source : string;
  pubDate : option JS.Date;
  excerpt : string;
  contentSnippet : string;
  url : string;
  isManualSave : bool;
  matchedTopics : option (list string)      (* matchedTopics?: string[] *)
}.

Record Ranking : Type := mkRanking {
  tier : ArticleTier;
  tierReason : string
}.

Record SummaryResponse : Type := mkSummary {
  summary : string;
  oneLiner : option string                  (* oneLiner?: string *)
}.

(** [a.matchedTopics?.length || 0] *)
Definition topicCount (a : ArticleForRanking) : Z :=
  match matchedTopics a with
  | Some topics => Z.of_nat (List.length topics)
  | None => 0
  end.

(** The comparator of the fallback ranking. *)
Definition compareArticles (a b : ArticleForRanking) : Q :=
  if negb (Bool.eqb (isManualSave a) (isManualSave b))
  then if isManualSave a then inject_Z (-1) else inject_Z 1
  else inject_Z (topicCount b - topicCount a).

(** [[...articles].sort(compare)] *)
Definition sortedArticles (articles : list ArticleForRanking) : list ArticleForRanking :=
  JS.sort compareArticles articles.

(** [arr.forEach((x, index) => ...)] over a state of type [St]. *)
Fixpoint forEach {A St : Type} (f : St -> A -> nat -> St) (arr : list A) (index : nat)
    (s : St) : St :=
  match arr with
  | [] => s
  | x :: rest => forEach f rest (S index) (f s x index)
  end.

(** The tier of the article at [index] of the sorted array. *)
Definition tierAt (criticalCount notableCount : Z) (index : nat) : ArticleTier :=
  if Z.of_nat index <? criticalCount then critical
  else if Z.of_nat index <? criticalCount + notableCount then notable
  else related.

Definition applyFallbackRanking (articles : list ArticleForRanking)
  : gmap string Ranking :=
  let results : gmap string Ranking := ∅ in
  if (List.length articles =? 0)%nat then results
  else
    let sorted := sortedArticles articles in
    let length := inject_Z (Z.of_nat (List.length sorted)) in
    let criticalCount := Z.max 1 (Qfloor (length * (2 # 10))) in
    let notableCount := Z.max 2 (Qfloor (length * (3 # 10))) in
    forEach
      (fun (results : gmap string Ranking) article index =>
         let tier := tierAt criticalCount notableCount index in
         <[id article := {| tier := tier;
                            tierReason := "Keyword-based fallback ranking" |}]> results)
      sorted 0%nat results.

(** [a] may precede [b] in the ranking order: a manual save precedes
    everything that is not one, and among articles with the same flag the
    one with more matched topics comes first. *)
Definition precedes (a b : ArticleForRanking) : Prop :=
  (isManualSave b = true -> isManualSave a = true)
  /\ (isManualSave a = isManualSave b -> topicCount b <= topicCount a).

(** The summary the fallback writes for one article. *)
Definition fallbackSummary (article : ArticleForRanking) (tier : ArticleTier)
  : SummaryResponse :=
  {| summary :=
       (JS.slice0 (match tier with critical => 400 | _ => 150 end)
          (excerpt article) ++ "...")%string;
     oneLiner := Some (title article) |}.

Definition generateFallbackSummaries (articles : list (ArticleForRanking * ArticleTier))
  : gmap string SummaryResponse :=
  fold_left
    (fun (results : gmap string SummaryResponse) '(article, tier) =>
       <[id article :=
           {| summary :=
                (JS.slice0 (match tier with critical => 400 | _ => 150 end)
                   (excerpt article) ++ "...")%string;
              oneLiner := Some (title article) |}]> results)
    articles ∅.

End Llm.

(** ** apps/cron: the digest run

    The runner talks to its collaborators (database, feed fetcher, content
    extractor, EPUB generator, mailer).  Their answers are the fields of a
    [World]; the calls that change something outside the process are
    recorded, in order, in the trace of the run, and the digest-run row of
    the database is part of the state.  Console logging is left out. *)

Module Cron.
Import Rss Interests.

(** The environment configuration ([parseInt] of the variables). *)
Record Config : Type := mkConfig {
  DIGEST_MAX_ARTICLES : Z;
  DIGEST_MAX_SAVED : Z;
  DIGEST_MAX_RSS : Z;
  DIGEST_MAX_PER_TOPIC : Z;
  DIGEST_SAVE_FEED_ITEMS : bool
}.

(** A row of the article table, with the columns the runner reads. *)
Record Article : Type := mkArticle {
  articleId : string;
  articleTitle : string;
  articleAuthor : option string;
  articleSiteName : option string;
  articleUrl : string;
  articleContentHtml : string;
  articleReadingMinutes : Z;
  articleContentHash : string;
  articleCanonicalUrl : string
}.

Record ExtractedArticle : Type := mkExtracted {
  extractedTitle : string;
  extractedAuthor : option string;
  extractedSiteName : option string;
  extractedExcerpt : option string;
  extractedContentHtml : string;
  extractedContentText : string;
  extractedWordCount : Z;
  extractedReadingMinutes : Z;
  extractedCanonicalUrl : string;
  extractedContentHash : string
}.

Record EpubArticle : Type := mkEpubArticle {
  epubTitle : string;
  epubAuthor : option string;
  epubSiteName : option string;
  epubUrl : string;
  epubContentHtml : string;
  epubReadingMinutes : Z
}.

Inductive DigestStatus : Type := SUCCESS | FAILED.

(** An element of the [feedItemsIncluded] column. *)
Record IncludedFeedItem : Type := mkIncluded {
  includedTitle : string;
  includedLink : string;
  includedScore : JS.number;
  includedTopics : list string
}.

(** The digest-run row. *)
Record DigestRun : Type := mkRun {
  runUserId : string;
  status : DigestStatus;
  finishedAt : option Z;
  includedArticleIds : list string;
  feedItemsIncluded : list IncludedFeedItem;
  epubFilename : option string;
  emailMessageId : option string;
  error : option string
}.

Inductive result (A : Type) : Type :=
| Ok (value : A)
| Throw (message : string).
Arguments Ok {A} value.
Arguments Throw {A} message.

Definition Buffer : Type := string.

Record World : Type := mkWorld {
  config : Config;
  interests : DigestInterests;              (* parseDigestInterests(env) *)
  baseFeeds : list string;                  (* parseRssFeeds(env) *)
  adminUser : option string;                (* db.user.findFirst(): the user id *)
  savedArticles : list Article;             (* findMany: unsent inbox articles *)
  allArticles : list Article;               (* findMany: every article of the user *)
  fetchMultipleFeeds : list string -> list FeedItem;
  scoreClock : nat -> Z;                    (* Date.now() while scoring *)
  canonicalizeUrl : string -> string;
  extractArticle : string -> result ExtractedArticle;
  generateEpub : list EpubArticle -> Z -> result Buffer;
  generateDigestFilename : Z -> string;
  sendDigestToKindle : Buffer -> string -> Z -> Z -> result string;
  epubDate : Z;                             (* new Date() before the EPUB is built *)
  finishDate : Z                            (* new Date() in the last update *)
}.

(** The calls with an effect outside the process. *)
Inductive Event : Type :=
| FetchFeeds (feedUrls : list string)
| Extract (link : string)
| DbArticleCreate (url : string)
| GenerateEpub (articles : list EpubArticle)
| SendDigestToKindle (filename : string) (articleCount : Z)
| DbArticleUpdateMany (ids : list string) (sentToKindleAt : Z)
| DbDigestRunCreate
| DbDigestRunUpdate
| DisconnectDb.

Record State : Type := mkState {
  digestRun : option DigestRun;
  trace : list Event
}.

(** Computations that read and change the state and may throw. *)
Definition M (A : Type) : Type := State -> result A * State.

Definition ret {A : Type} (a : A) : M A := fun s => (Ok a, s).

Definition bind {A B : Type} (m : M A) (k : A -> M B) : M B :=
  fun s => match m s with
           | (Ok a, s') => k a s'
           | (Throw message, s') => (Throw message, s')
           end.

Definition throw {A : Type} (message : string) : M A := fun s => (Throw message, s).

Definition emit (e : Event) : M unit :=
  fun s => (Ok tt, {| digestRun := digestRun s; trace := trace s ++ [e] |}).

(** [try { m } catch (error) { handler(error.message) }] *)
Definition tryCatch {A : Type} (m : M A) (handler : string -> M A) : M A :=
  fun s => match m s with
           | (Ok a, s') => (Ok a, s')
           | (Throw message, s') => handler message s'
           end.

(** [try { m } finally { cleanup }] *)
Definition tryFinally {A : Type} (m : M A) (cleanup : M unit) : M A :=
  fun s => match m s with
           | (r, s') =>
               match cleanup s' with
               | (Ok _, s'') => (r, s'')
               | (Throw message, s'') => (Throw message, s'')
               end
           end.

Notation "x <- m ;; k" := (bind m (fun x => k))
  (at level 100, m at next level, right associativity).
Notation "m ;;; k" := (bind m (fun _ => k))
  (at level 100, right associativity).

(** An awaited call of a collaborator. *)
Definition await {A : Type} (r : result A) : M A := fun s => (r, s).

(** [db.digestRun.create({ data: { userId, status: 'SUCCESS' } })] *)
Definition dbDigestRunCreate (userId : string) : M unit :=
  fun s => (Ok tt,
            {| digestRun := Some {| runUserId := userId; status := SUCCESS;
                                    finishedAt := None; includedArticleIds := [];
                                    feedItemsIncluded := []; epubFilename := None;
                                    emailMessageId := None; error := None |};
               trace := trace s ++ [DbDigestRunCreate] |}).

(** [db.digestRun.update({ where: { id }, data })]: [data] changes the
    columns it names. *)
Definition dbDigestRunUpdate (data : DigestRun -> DigestRun) : M unit :=
  fun s => (Ok tt, {| digestRun := option_map data (digestRun s);
                      trace := trace s ++ [DbDigestRunUpdate] |}).

(** [arr.slice(0, n)] *)
Definition slice0 {A : Type} (n : Z) (arr : list A) : list A :=
  if 0 <=? n then firstn (Z.to_nat n) arr
  else firstn (List.length arr - Z.to_nat (- n)) arr.

(** [[...new Set(arr)]]: the first occurrence of every element. *)
Fixpoint unique (seen arr : list string) : list string :=
  match arr with
  | [] => []
  | x :: rest =>
      if JS.includes x seen then unique seen rest
      else x :: unique (x :: seen) rest
  end.

Definition getAllFeedsFromInterests (interests : DigestInterests) : list string :=
  unique []
    (flat_map (fun '(_, topic) => match feeds topic with
                                  | Some fs => fs
                                  | None => []
                                  end) interests).

(** [value || fallback] on a nullable string. *)
Definition orElse (value : option string) (fallback : string) : string :=
  match value with
  | Some s => if String.eqb s "" then fallback else s
  | None => fallback
  end.

Section Run.
Variable w : World.

Definition existingHashes : list string :=
  flat_map (fun a => [articleContentHash a; articleCanonicalUrl a]) (allArticles w).

Definition allFeeds : list string :=
  unique [] (baseFeeds w ++ getAllFeedsFromInterests (interests w)).

(** Step 3: score, deduplicate, select.  The scored items are fresh
    objects; location [i] is the [i]-th of [newItems]. *)
Definition newItems : list ScoredFeedItem :=
  List.filter
    (fun scored =>
       let canonical := canonicalizeUrl w (link (item scored)) in
       negb (JS.includes canonical existingHashes))
    (scoreAndRankFeedItems (scoreClock w) (fetchMultipleFeeds w allFeeds) (interests w)).

Definition emptyScored : ScoredFeedItem :=
  {| item := {| title := ""; link := ""; pubDate := None; content := "";
                contentSnippet := ""; author := None; feedTitle := ""; feedUrl := "" |};
     score := JS.Num 0; matchedTopics := []; matchedKeywords := [];
     recencyScore := JS.Num 0 |}.

Definition itemAt (l : loc) : ScoredFeedItem := nth l newItems emptyScored.

Definition selectedFeedItems : list ScoredFeedItem :=
  List.map itemAt
    (selectDiverseItems itemAt (seq 0 (List.length newItems))
       (DIGEST_MAX_RSS (config w)) (DIGEST_MAX_PER_TOPIC (config w))).

(** Step 5: one turn of the extraction loop; the state of the loop is
    [(feedArticles, feedItemsIncluded)]. *)
Definition extractOne (acc : list EpubArticle * list ScoredFeedItem)
    (scored : ScoredFeedItem) : M (list EpubArticle * list ScoredFeedItem) :=
  let '(feedArticles, feedItemsIncluded) := acc in
  tryCatch
    (emit (Extract (link (item scored))) ;;;
     extracted <- await (extractArticle w (link (item scored))) ;;
     let feedArticles :=
       feedArticles ++
         [{| epubTitle := extractedTitle extracted;
             epubAuthor := extractedAuthor extracted;
             epubSiteName :=
               Some (orElse (extractedSiteName extracted) (feedTitle (item scored)));
             epubUrl := link (item scored);
             epubContentHtml := extractedContentHtml extracted;
             epubReadingMinutes := extractedReadingMinutes extracted |}] in
     let feedItemsIncluded := feedItemsIncluded ++ [scored] in
     (if DIGEST_SAVE_FEED_ITEMS (config w)
      then emit (DbArticleCreate (link (item scored)))
      else ret tt) ;;;
     ret (feedArticles, feedItemsIncluded))
    (fun _ => ret (feedArticles, feedItemsIncluded)).

Fixpoint extractAll (acc : list EpubArticle * list ScoredFeedItem)
    (items : list ScoredFeedItem) : M (list EpubArticle * list ScoredFeedItem) :=
  match items with
  | [] => ret acc
  | scored :: rest => acc' <- extractOne acc scored ;; extractAll acc' rest
  end.

(** The body of the [try] block of [main]. *)
Definition body : M unit :=
  (* 1. Load admin user *)
  match adminUser w with
  | None => throw "No admin user found. Run db:seed first."
  | Some userId =>
      dbDigestRunCreate userId ;;;
      (* 2. and 3. *)
      emit (FetchFeeds allFeeds) ;;;
      (* 4. Check if we have anything to send *)
      if ((List.length (savedArticles w) =? 0)%nat
          && (List.length selectedFeedItems =? 0)%nat)%bool
      then
        dbDigestRunUpdate
          (fun run => {| runUserId := runUserId run;
                         status := SUCCESS;
                         finishedAt := Some (finishDate w);
                         includedArticleIds := [];
                         feedItemsIncluded := [];
                         epubFilename := epubFilename run;
                         emailMessageId := emailMessageId run;
                         error := Some "No articles available" |})
      else
        (* 5. Extract full content for feed items *)
        extracted <- extractAll ([], []) selectedFeedItems ;;
        let '(feedArticles, feedItemsIncluded) := extracted in
        (* 6. Build EPUB *)
        let now := epubDate w in
        let allEpubArticles :=
          List.map (fun a => {| epubTitle := articleTitle a;
                                epubAuthor := articleAuthor a;
                                epubSiteName := articleSiteName a;
                                epubUrl := articleUrl a;
                                epubContentHtml := articleContentHtml a;
                                epubReadingMinutes := articleReadingMinutes a |})
            (savedArticles w)
          ++ feedArticles in
        let finalArticles := slice0 (DIGEST_MAX_ARTICLES (config w)) allEpubArticles in
        emit (GenerateEpub finalArticles) ;;;
        epub <- await (generateEpub w finalArticles now) ;;
        let filename := generateDigestFilename w now in
        (* 7. Send to Kindle *)
        emit (SendDigestToKindle filename (Z.of_nat (List.length finalArticles))) ;;;
        messageId <- await (sendDigestToKindle w epub filename
                              (Z.of_nat (List.length finalArticles)) now) ;;
        (* 8. Update records *)
        let includedArticleIds :=
          List.map articleId
            (slice0 (Z.of_nat (List.length finalArticles)) (savedArticles w)) in
        (if (0 <? List.length includedArticleIds)%nat
         then emit (DbArticleUpdateMany includedArticleIds now)
         else ret tt) ;;;
        dbDigestRunUpdate
          (fun run => {| runUserId := runUserId run;
                         status := SUCCESS;
                         finishedAt := Some (finishDate w);
                         includedArticleIds := includedArticleIds;
                         feedItemsIncluded :=
                           List.map (fun i => {| includedTitle := title (item i);
                                                 includedLink := link (item i);
                                                 includedScore := score i;
                                                 includedTopics := matchedTopics i |})
                             feedItemsIncluded;
                         epubFilename := Some filename;
                         emailMessageId := Some messageId;
                         error := error run |})
  end.

(** The [catch] block: record the failure on the run, if there is one,
    and throw again. *)
Definition onError (message : string) : M unit :=
  (fun s => match digestRun s with
            | Some _ =>
                dbDigestRunUpdate
                  (fun run => {| runUserId := runUserId run;
                                 status := FAILED;
                                 finishedAt := Some (finishDate w);
                                 includedArticleIds := includedArticleIds run;
                                 feedItemsIncluded := feedItemsIncluded run;
                                 epubFilename := epubFilename run;
                                 emailMessageId := emailMessageId run;
                                 error := Some message |}) s
            | None => (Ok tt, s)
            end) ;;;
  throw message.

Definition main : M unit :=
  tryFinally (tryCatch body onError) (emit DisconnectDb).

Definition initialState : State := {| digestRun := None; trace := [] |}.

Definition isDelivery (e : Event) : bool :=
  match e with
  | SendDigestToKindle _ _ => true
  | _ => false
  end.

End Run.

End Cron.

(** ** Concrete inputs

    The inputs of the repository's test suite and of the specification's
    examples. *)

Module Examples.
Import Rss Interests.

(** [createScoredItem(title, score, topic)] of the selection tests. *)
Definition createScoredItem (title : string) (score : Z) (topic : string)
  : ScoredFeedItem :=
  {| item := {| title := title;
                link := ("https://example.com/" ++ title)%string;
                pubDate := Some (JS.Valid 0);
                content := "";
                contentSnippet := "";
                author := None;
                feedTitle := "Test";
                feedUrl := "https://example.com/feed.rss" |};
     score := JS.Num (inject_Z score);
     matchedTopics := [topic];
     matchedKeywords := [];
     recencyScore := JS.Num 50 |}.

(** Four items of one topic followed by two of another. *)
Definition sixItems : list ScoredFeedItem :=
  [ createScoredItem "Apple 1" 100 "tech";
    createScoredItem "Apple 2" 90 "tech";
    createScoredItem "Apple 3" 80 "tech";
    createScoredItem "Apple 4" 70 "tech";
    createScoredItem "AI 1" 60 "ai";
    createScoredItem "AI 2" 50 "ai" ].

(** The store in which location [i] holds the [i]-th object of [objects]. *)
Definition storeOf (objects : list ScoredFeedItem) (l : loc) : ScoredFeedItem :=
  nth l objects (createScoredItem "" 0 "").

(** The array that holds every object of the store once, in order. *)
Definition arrayOf (objects : list ScoredFeedItem) : list loc :=
  seq 0 (List.length objects).

(** ['x'.repeat(n)] *)
Fixpoint repeatX (n : nat) : string :=
  match n with
  | O => ""
  | S k => String "x" (repeatX k)
  end.

(** [createArticle(id, excerpt)] of the summary tests. *)
Definition createArticle (id excerpt : string) : Llm.ArticleForRanking :=
  {| Llm.id := id;
     Llm.title := ("Article " ++ id)%string;
     Llm.source := "Feed";
     Llm.pubDate := None;
     Llm.excerpt := excerpt;
     Llm.contentSnippet := "Snippet";
     Llm.url := ("https://test.com/" ++ id)%string;
     Llm.isManualSave := false;
     Llm.matchedTopics := None |}.

Definition longArticles : list (Llm.ArticleForRanking * Llm.ArticleTier) :=
  [ (createArticle "1" (repeatX 500), Llm.critical);
    (createArticle "2" (repeatX 500), Llm.notable);
    (createArticle "3" (repeatX 500), Llm.related) ].

(** [createArticle(id, isManualSave, matchedTopics)] of the ranking tests. *)
Definition rankingArticle (id : string) (isManualSave : bool) (topics : list string)
  : Llm.ArticleForRanking :=
  {| Llm.id := id;
     Llm.title := ("Article " ++ id)%string;
     Llm.source := "Feed";
     Llm.pubDate := None;
     Llm.excerpt := "Test excerpt";
     Llm.contentSnippet := "Snippet";
     Llm.url := ("https://test.com/" ++ id)%string;
     Llm.isManualSave := isManualSave;
     Llm.matchedTopics := Some topics |}.

(** Ten articles, the first three with two topics. *)
Definition tenArticles : list Llm.ArticleForRanking :=
  List.map (fun '(id, topics) => rankingArticle id false topics)
    [ ("0", ["topic1"; "topic2"]); ("1", ["topic1"; "topic2"]);
      ("2", ["topic1"; "topic2"]); ("3", ["topic1"]); ("4", ["topic1"]);
      ("5", ["topic1"]); ("6", ["topic1"]); ("7", ["topic1"]); ("8", ["topic1"]);
      ("9", ["topic1"]) ]%string.

(** [createItem(title)] of the ranking tests of the interests module,
    published at time 0. *)
Definition createItem (title : string) : Rss.FeedItem :=
  {| Rss.title := title;
     Rss.link := ("https://example.com/" ++ title)%string;
     Rss.pubDate := Some (JS.Valid 0);
     Rss.content := "";
     Rss.contentSnippet := "";
     Rss.author := None;
     Rss.feedTitle := "Test Feed";
     Rss.feedUrl := "https://example.com/feed.rss" |}.

(** A feed item with a title and a publish date. *)
Definition datedItem (title : string) (pubDate : option JS.Date) : Rss.FeedItem :=
  {| Rss.title := title;
     Rss.link := ("https://example.com/" ++ title)%string;
     Rss.pubDate := pubDate;
     Rss.content := "";
     Rss.contentSnippet := "";
     Rss.author := None;
     Rss.feedTitle := "Test Feed";
     Rss.feedUrl := "https://example.com/feed.rss" |}.

(** Three items that name the keyword once, once and twice; the date of
    the second could not be read. *)
Definition appleInterests : DigestInterests :=
  [("tech", {| keywords := ["apple"]; feeds := None |})].

Definition appleItems : list Rss.FeedItem :=
  [ datedItem "Apple" None;
    datedItem "Apple event" (Some JS.Invalid);
    datedItem "Apple and apple" None ].

(** Two scored items, the first with a primary topic that is the name of
    a member of [Object.prototype]. *)
Definition inheritedItems : list ScoredFeedItem :=
  [ createScoredItem "A" 100 "constructor";
    createScoredItem "B" 90 "ai" ].

(** A world without saved articles and without feeds, and the same world
    with one saved article. *)
Definition quietWorld : Cron.World :=
  {| Cron.config := Cron.mkConfig 15 5 10 3 false;
     Cron.interests := [];
     Cron.baseFeeds := [];
     Cron.adminUser := Some "admin";
     Cron.savedArticles := [];
     Cron.allArticles := [];
     Cron.fetchMultipleFeeds := fun _ => [];
     Cron.scoreClock := fun _ => 0;
     Cron.canonicalizeUrl := fun url => url;
     Cron.extractArticle := fun _ => Cron.Throw "offline";
     Cron.generateEpub := fun _ _ => Cron.Ok "epub";
     Cron.generateDigestFilename := fun _ => "kindle-digest-2024-01-15.epub";
     Cron.sendDigestToKindle := fun _ _ _ _ => Cron.Ok "message-1";
     Cron.epubDate := 0;
     Cron.finishDate := 1 |}.

Definition savedArticle : Cron.Article :=
  Cron.mkArticle "a1" "Saved" None None "https://example.com/saved" "<p>text</p>" 1
    "hash" "https://example.com/saved".

Definition busyWorld : Cron.World :=
  {| Cron.config := Cron.config quietWorld;
     Cron.interests := [];
     Cron.baseFeeds := [];
     Cron.adminUser := Some "admin";
     Cron.savedArticles := [savedArticle];
     Cron.allArticles := [savedArticle];
     Cron.fetchMultipleFeeds := fun _ => [];
     Cron.scoreClock := fun _ => 0;
     Cron.canonicalizeUrl := fun url => url;
     Cron.extractArticle := fun _ => Cron.Throw "offline";
     Cron.generateEpub := fun _ _ => Cron.Ok "epub";
     Cron.generateDigestFilename := fun _ => "kindle-digest-2024-01-15.epub";
     Cron.sendDigestToKindle := fun _ _ _ _ => Cron.Ok "message-1";
     Cron.epubDate := 0;
     Cron.finishDate := 1 |}.

End Examples.


(** ** apps/cron: what a run extracts and delivers

    The values the loop of step 5 and the lines of step 6 compute, as
    functions of the world: the EPUB entry of a feed item, the events of
    one turn of the loop, and the articles that go into the EPUB. *)

Module Delivery.
Import Rss Interests Cron.

Section Delivery.
Variable w : World.

(** [extractArticle(item.link)] returned. *)
Definition extracts (scored : ScoredFeedItem) : bool :=
  match extractArticle w (link (item scored)) with
  | Ok _ => true
  | Throw _ => false
  end.

(** The entry pushed on [feedArticles] for an extracted item. *)
Definition feedArticle (scored : ScoredFeedItem) : option EpubArticle :=
  match extractArticle w (link (item scored)) with
  | Ok extracted =>
      Some {| epubTitle := extractedTitle extracted;
              epubAuthor := extractedAuthor extracted;
              epubSiteName :=
                Some (orElse (extractedSiteName extracted) (feedTitle (item scored)));
              epubUrl := link (item scored);
              epubContentHtml := extractedContentHtml extracted;
              epubReadingMinutes := extractedReadingMinutes extracted |}
  | Throw _ => None
  end.

(** The events of one turn of the extraction loop. *)
Definition extractionEvents (scored : ScoredFeedItem) : list Event :=
  Extract (link (item scored))
  :: (if extracts scored && DIGEST_SAVE_FEED_ITEMS (config w)
      then [DbArticleCreate (link (item scored))]
      else []).

Definition feedArticles : list EpubArticle :=
  omap feedArticle (selectedFeedItems w).

Definition extractedItems : list ScoredFeedItem :=
  List.filter extracts (selectedFeedItems w).

Definition savedEpubArticles : list EpubArticle :=
  List.map (fun a => {| epubTitle := articleTitle a;
                        epubAuthor := articleAuthor a;
                        epubSiteName := articleSiteName a;
                        epubUrl := articleUrl a;
                        epubContentHtml := articleContentHtml a;
                        epubReadingMinutes := articleReadingMinutes a |})
    (savedArticles w).

(** [allEpubArticles.slice(0, DIGEST_MAX_ARTICLES)] *)
Definition finalArticles : list EpubArticle :=
  slice0 (DIGEST_MAX_ARTICLES (config w)) (savedEpubArticles ++ feedArticles).

(** The condition of step 4. *)
Definition nothingToSend : bool :=
  (List.length (savedArticles w) =? 0)%nat
  && (List.length (selectedFeedItems w) =? 0)%nat.

(** The two awaited calls of steps 6 and 7. *)
Definition epubResult : result Buffer :=
  generateEpub w finalArticles (epubDate w).

Definition sendResult (epub : Buffer) : result string :=
  sendDigestToKindle w epub (generateDigestFilename w (epubDate w))
    (Z.of_nat (List.length finalArticles)) (epubDate w).

Definition isMarkSent (e : Event) : bool :=
  match e with
  | DbArticleUpdateMany _ _ => true
  | _ => false
  end.

Definition isDisconnect (e : Event) : bool :=
  match e with
  | DisconnectDb => true
  | _ => false
  end.

End Delivery.

End Delivery.

(** A world for the runner: one topic, one feed with one matching item,
    and a site that cannot be reached. *)
Module MoreExamples.

Definition appleItem : Rss.FeedItem :=
  {| Rss.title := "Apple news";
     Rss.link := "https://example.com/apple";
     Rss.pubDate := None;
     Rss.content := "";
     Rss.contentSnippet := "";
     Rss.author := None;
     Rss.feedTitle := "Test";
     Rss.feedUrl := "https://example.com/feed.rss" |}.

Definition offlineWorld : Cron.World :=
  {| Cron.config := Cron.mkConfig 15 5 10 3 false;
     Cron.interests := [("tech", Interests.mkTopic ["apple"] None)];
     Cron.baseFeeds := ["https://example.com/feed.rss"];
     Cron.adminUser := Some "admin";
     Cron.savedArticles := [];
     Cron.allArticles := [];
     Cron.fetchMultipleFeeds := fun _ => [appleItem];
     Cron.scoreClock := fun _ => 0;
     Cron.canonicalizeUrl := fun url => url;
     Cron.extractArticle := fun _ => Cron.Throw "offline";
     Cron.generateEpub := fun _ _ => Cron.Ok "epub";
     Cron.generateDigestFilename := fun _ => "kindle-digest-2024-01-15.epub";
     Cron.sendDigestToKindle := fun _ _ _ _ => Cron.Ok "message-1";
     Cron.epubDate := 0;
     Cron.finishDate := 1 |}.

End MoreExamples.

(** ** packages/core/src/rss: fetching feeds *)

Module Feeds.
Import Rss.

(** [feedsEnv.split(',').map((url) => url.trim()).filter((url) => url.length > 0)];
    [undefined] and the empty string are falsy.  The recipients of the
    email module are parsed by the same lines. *)
Definition parseList (value : option string) : list string :=
  match value with
  | None => []
  | Some s =>
      if String.eqb s "" then []
      else List.filter (fun url => (0 <? String.length url)%nat)
             (List.map JS.trim (URL.split "," s))
  end.

Definition parseRssFeeds (feedsEnv : option string) : list string :=
  parseList feedsEnv.

(** An item and a feed as the RSS parser delivers them: every field may
    be missing. *)
Record ParsedItem : Type := mkParsedItem {
  itemTitle : option string;
  itemLink : option string;
  itemPubDate : option string;
  itemContent : option string;
  itemContentEncoded : option string;
  itemContentSnippet : option string;
  itemCreator : option string;
  itemAuthor : option string
}.

Record ParsedFeed : Type := mkParsedFeed {
  parsedTitle : option string;
  parsedItems : option (list ParsedItem)
}.

(** The truthy strings: [Some s] with [s] not empty. *)
Definition truthy (value : option string) : option string :=
  match value with
  | Some s => if String.eqb s "" then None else Some s
  | None => None
  end.

(** [a || b] on nullable strings, as a nullable truthy string. *)
Definition or (a b : option string) : option string :=
  match truthy a with
  | Some s => Some s
  | None => truthy b
  end.

Section Fetch.
(** [parser.parseURL(url)] and [new Date(text)]; the date is invalid
    when the text cannot be read as a date. *)
Variable parseURL : string -> Cron.result ParsedFeed.
Variable dateOf : string -> JS.Date.

Definition feedItemOf (feed : ParsedFeed) (feedUrl : string) (item : ParsedItem)
  : FeedItem :=
  {| title := default "Untitled" (truthy (itemTitle item));
     link := default "" (truthy (itemLink item));
     pubDate := option_map dateOf (truthy (itemPubDate item));
     content := default "" (or (itemContent item) (itemContentEncoded item));
     contentSnippet :=
       default ""
         (or (itemContentSnippet item)
             (option_map (JS.slice0 300) (itemContent item)));
     author := or (itemCreator item) (itemAuthor item);
     feedTitle := default "Unknown Feed" (truthy (parsedTitle feed));
     feedUrl := feedUrl |}.

(** [fetchFeed]: a failure of the parser gives the empty list. *)
Definition fetchFeed (feedUrl : string) : list FeedItem :=
  match parseURL feedUrl with
  | Cron.Ok feed =>
      List.map (feedItemOf feed feedUrl) (default [] (parsedItems feed))
  | Cron.Throw _ => []
  end.

(** The comparator of [fetchMultipleFeeds], as the sort reads it. *)
Definition byPubDateDesc (a b : FeedItem) : Q :=
  match pubDate a, pubDate b with
  | None, None => 0
  | None, Some _ => 1
  | Some _, None => inject_Z (-1)
  | Some da, Some db => JS.sortOrder (JS.sub (JS.getTime db) (JS.getTime da))
  end.

(** [fetchFeed] never rejects, so every result of [Promise.allSettled]
    is fulfilled and its items are pushed. *)
Definition fetchMultipleFeeds (feedUrls : list string) : list FeedItem :=
  JS.sort byPubDateDesc (flat_map fetchFeed feedUrls).

End Fetch.



(** What the parser of the list leaves of an entry: not empty, nothing to
    trim, no comma. *)
Definition cleanEntry (entry : string) : Prop :=
  entry <> "" /\ JS.trim entry = entry /\ JS.every (URL.isNot ",") entry = true.

End Feeds.

(** ** packages/core/src/email: delivery *)

Module Email.

Definition parseKindleEmails (KINDLE_EMAIL_TO : option string) : list string :=
  Feeds.parseList KINDLE_EMAIL_TO.

Record Env : Type := mkEnv {
  KINDLE_EMAIL_TO : option string;
  RESEND_API_KEY : option string;
  EMAIL_FROM : option string
}.

Record Attachment : Type := mkAttachment {
  filename : string;
  content : Cron.Buffer
}.

(** The argument of [resend.emails.send]. *)
Record Request : Type := mkRequest {
  from : string;
  to : list string;
  subject : string;
  text : string;
  attachments : list Attachment
}.

(** Its result: [{ data, error }]. *)
Record Reply : Type := mkReply {
  replyError : option string;               (* result.error?.message *)
  replyId : option string                   (* result.data?.id *)
}.

Section Send.
Variable env : Env.
(** No client has been created yet. *)
Variable send : Request -> Cron.result Reply.

Definition getResendClient : Cron.result unit :=
  match Feeds.truthy (RESEND_API_KEY env) with
  | Some _ => Cron.Ok tt
  | None => Cron.Throw "RESEND_API_KEY environment variable is not set"
  end.

Definition getEmailFrom : Cron.result string :=
  match Feeds.truthy (EMAIL_FROM env) with
  | Some sender => Cron.Ok sender
  | None => Cron.Throw "EMAIL_FROM environment variable is not set"
  end.

Definition sendEmail (recipients : list string) (subject text : string)
    (attachments : list Attachment) : Cron.result string :=
  match getResendClient with
  | Cron.Throw message => Cron.Throw message
  | Cron.Ok _ =>
      match getEmailFrom with
      | Cron.Throw message => Cron.Throw message
      | Cron.Ok sender =>
          match send {| from := sender; to := recipients; subject := subject;
                        text := text; attachments := attachments |} with
          | Cron.Throw message => Cron.Throw message
          | Cron.Ok result =>
              match replyError result with
              | Some message => Cron.Throw ("Failed to send email: " ++ message)
              | None => Cron.Ok (default "unknown" (Feeds.truthy (replyId result)))
              end
          end
      end
  end.

(** [subject] and [text] are the strings the function formats from the
    date and the article count. *)
Definition sendDigestToKindle (epubBuffer : Cron.Buffer) (filename subject text : string)
  : Cron.result string :=
  let kindleEmails := parseKindleEmails (KINDLE_EMAIL_TO env) in
  if (List.length kindleEmails =? 0)%nat
  then Cron.Throw "No Kindle email addresses configured (KINDLE_EMAIL_TO)"
  else sendEmail kindleEmails subject text
         [{| filename := filename; content := epubBuffer |}].

End Send.

End Email.

(** A world whose delivery is the email module, without recipients. *)
Module DeliveryExamples.

Definition noRecipients : Email.Env :=
  {| Email.KINDLE_EMAIL_TO := Some " , ";
     Email.RESEND_API_KEY := Some "key";
     Email.EMAIL_FROM := Some "digest@example.com" |}.

Definition accept (request : Email.Request) : Cron.result Email.Reply :=
  Cron.Ok {| Email.replyError := None; Email.replyId := Some "message-1" |}.

Definition unconfiguredWorld : Cron.World :=
  {| Cron.config := Cron.config Examples.busyWorld;
     Cron.interests := [];
     Cron.baseFeeds := [];
     Cron.adminUser := Some "admin";
     Cron.savedArticles := [Examples.savedArticle];
     Cron.allArticles := [Examples.savedArticle];
     Cron.fetchMultipleFeeds := fun _ => [];
     Cron.scoreClock := fun _ => 0;
     Cron.canonicalizeUrl := fun url => url;
     Cron.extractArticle := fun _ => Cron.Throw "offline";
     Cron.generateEpub := fun _ _ => Cron.Ok "epub";
     Cron.generateDigestFilename := fun _ => "kindle-digest-2024-01-15.epub";
     Cron.sendDigestToKindle :=
       fun buffer filename _ _ =>
         Email.sendDigestToKindle noRecipients accept buffer filename
           "Kindle Digest" "Your daily digest is attached.";
     Cron.epubDate := 0;
     Cron.finishDate := 1 |}.

End DeliveryExamples.

(** ** packages/core/src/extraction: word count and reading time *)

Module Extraction.

Definition WORDS_PER_MINUTE : Z := 200.

(** [s.split(/\s+/)]: every maximal run of whitespace separates two
    pieces; [inRun] tells that the previous character was whitespace. *)
Fixpoint splitWhiteSpace (inRun : bool) (s : string) : list string :=
  match s with
  | EmptyString => [EmptyString]
  | String c r =>
      if JS.isWhiteSpace c
      then if inRun then splitWhiteSpace true r
           else EmptyString :: splitWhiteSpace true r
      else match splitWhiteSpace false r with
           | first :: others => String c first :: others
           | [] => [String c EmptyString]
           end
  end.

Definition countWords (text : string) : Z :=
  Z.of_nat
    (List.length
       (List.filter (fun word => (0 <? String.length word)%nat)
          (splitWhiteSpace false (JS.trim text)))).

Definition calculateReadingMinutes (wordCount : Z) : Z :=
  Z.max 1 (Qceiling (inject_Z wordCount / inject_Z WORDS_PER_MINUTE)).

(** The number of places of [s] where a word starts: a character that is
    not whitespace and does not follow one ([inWord] tells that the
    previous character was not whitespace). *)
Fixpoint wordStarts (inWord : bool) (s : string) : nat :=
  match s with
  | EmptyString => 0
  | String c r =>
      if JS.isWhiteSpace c then wordStarts false r
      else ((if inWord then 0 else 1) + wordStarts true r)%nat
  end.

Definition isNotWhiteSpace (c : ascii) : bool := negb (JS.isWhiteSpace c).

End Extraction.

(** ** packages/core/src/llm: ranking and summaries with the model *)

Module Batches.

(** [for (let i = 0; i < arr.length; i += size) body(arr.slice(i, i + size))]
    over a state of type [St]; the loop makes at most [arr.length] turns,
    which is the fuel its callers give it. *)
Fixpoint batchLoop {A St : Type} (size : nat) (body : St -> list A -> St)
    (fuel i : nat) (arr : list A) (s : St) : St :=
  match fuel with
  | O => s
  | S fuel' =>
      if (i <? List.length arr)%nat
      then batchLoop size body fuel' (i + size) arr
             (body s (firstn size (skipn i arr)))
      else s
  end.

(** The batches of the loop: consecutive pieces of [size] elements. *)
Fixpoint chunks {A : Type} (size fuel : nat) (arr : list A) : list (list A) :=
  match fuel with
  | O => []
  | S fuel' =>
      match arr with
      | [] => []
      | _ :: _ => firstn size arr :: chunks size fuel' (skipn size arr)
      end
  end.

End Batches.

Module Ranking.
Import Llm.

Definition BATCH_SIZE : nat := 15.

Definition validateTier (tier : string) : ArticleTier :=
  let normalized := JS.trim (JS.toLowerCase tier) in
  if String.eqb normalized "critical" then critical
  else if String.eqb normalized "notable" then notable
  else if String.eqb normalized "related" then related
  else notable.

(** The name of a tier. *)
Definition tierName (tier : ArticleTier) : string :=
  match tier with
  | critical => "critical"
  | notable => "notable"
  | related => "related"
  end.

(** An element of [parsed.rankings]; [Malformed] is an element on which
    the loop throws (its tier is not a string). *)
Inductive RankingEntry : Type :=
| Entry (id tier tierReason : string)
| Malformed.

(** What the completion call for one batch gives: it throws (or its
    content is not JSON with a list of rankings), it returns no content,
    or it returns rankings. *)
Inductive Completion : Type :=
| Failed
| NoContent
| Content (rankings : list RankingEntry).

Definition fallbackRanking : Ranking :=
  {| tier := notable; tierReason := "Fallback: LLM ranking failed" |}.

(** The [catch] block: mark the batch. *)
Definition markBatch (batch : list ArticleForRanking) (results : gmap string Ranking)
  : gmap string Ranking :=
  fold_left (fun results article => <[id article := fallbackRanking]> results)
    batch results.

(** The loop over [parsed.rankings]; the flag tells that it threw. *)
Fixpoint setRankings (rankings : list RankingEntry) (results : gmap string Ranking)
  : gmap string Ranking * bool :=
  match rankings with
  | [] => (results, false)
  | Entry rankingId tier tierReason :: rest =>
      setRankings rest
        (<[rankingId := {| Llm.tier := validateTier tier;
                           Llm.tierReason := tierReason |}]> results)
  | Malformed :: _ => (results, true)
  end.

(** The message of the [RangeError] that [toISOString] throws for an
    invalid date. *)
Definition invalidTime : string := "Invalid time value".

(** [buildRankingPrompt(batch, interests)], as far as its outcome goes:
    it formats the publish date of every article that has one, which
    throws for an invalid date; the text it returns goes into the
    completion call only. *)
Definition buildRankingPrompt (batch : list ArticleForRanking) : Cron.result unit :=
  if forallb (fun a => JS.canFormat (pubDate a)) batch
  then Cron.Ok tt
  else Cron.Throw invalidTime.

Section Rank.
(** The result of [getOpenAIClient()] and of the completion call for a
    batch (its prompt is built from the batch and the interests). *)
Variable client : Cron.result unit.
Variable complete : list ArticleForRanking -> Completion.

(** The [try] statement of one batch. *)
Definition rankBatch (results : gmap string Ranking) (batch : list ArticleForRanking)
  : gmap string Ranking :=
  match complete batch with
  | Failed => markBatch batch results
  | NoContent => results
  | Content rankings =>
      let '(results, threw) := setRankings rankings results in
      if threw then markBatch batch results else results
  end.

(** One turn of the loop: the prompt is built before the [try], so an
    error of [buildRankingPrompt] leaves the function; once that has
    happened no later turn runs. *)
Definition rankTurn (state : Cron.result (gmap string Ranking))
    (batch : list ArticleForRanking) : Cron.result (gmap string Ranking) :=
  match state with
  | Cron.Throw message => Cron.Throw message
  | Cron.Ok results =>
      match buildRankingPrompt batch with
      | Cron.Throw message => Cron.Throw message
      | Cron.Ok _ => Cron.Ok (rankBatch results batch)
      end
  end.

Definition rankArticlesBatch (articles : list ArticleForRanking)
  : Cron.result (gmap string Ranking) :=
  match client with
  | Cron.Throw message => Cron.Throw message
  | Cron.Ok _ =>
      Batches.batchLoop BATCH_SIZE rankTurn (List.length articles) 0
        articles (Cron.Ok ∅)
  end.

End Rank.

End Ranking.

Module Summarization.
Import Llm.

Definition CONCURRENCY : nat := 5.

(** What the completion call for one article gives: it throws (or its
    content is not a JSON object), it returns no content, or it returns an
    object with the two optional fields. *)
Inductive Completion : Type :=
| Failed
| NoContent
| Content (summary oneLiner : option string).

(** One element of the input of [generateSummariesBatch]. *)
Record SummaryInput : Type := mkInput {
  article : ArticleForRanking;
  fullContent : string;
  tier : ArticleTier
}.

Section Summarize.
Variable client : Cron.result unit.
Variable complete : ArticleForRanking -> string -> ArticleTier -> Completion.

(** The [try] block and the fallback after it: no error leaves them. *)
Definition summarize (article : ArticleForRanking) (fullContent : string)
    (tier : ArticleTier) : SummaryResponse :=
  match complete article fullContent tier with
  | Content parsedSummary parsedOneLiner =>
      {| summary :=
           default (JS.slice0 200 (excerpt article) ++ "...")%string
             (Feeds.truthy parsedSummary);
         oneLiner := parsedOneLiner |}
  | _ =>
      (* Fallback: use excerpt *)
      {| summary :=
           (JS.slice0 (match tier with critical => 400 | _ => 150 end)
              (excerpt article) ++ "...")%string;
         oneLiner := match tier with
                     | related => Some (title article)
                     | _ => None
                     end |}
  end.

(** [buildSummaryPrompt(article, fullContent, tier)], as far as its
    outcome goes: it formats the publish date, which throws for an invalid
    date. *)
Definition buildSummaryPrompt (article : ArticleForRanking) : Cron.result unit :=
  if JS.canFormat (pubDate article)
  then Cron.Ok tt
  else Cron.Throw Ranking.invalidTime.

(** The client and the prompt come before the [try]. *)
Definition generateSummary (article : ArticleForRanking) (fullContent : string)
    (tier : ArticleTier) : Cron.result SummaryResponse :=
  match client with
  | Cron.Throw message => Cron.Throw message
  | Cron.Ok _ =>
      match buildSummaryPrompt article with
      | Cron.Throw message => Cron.Throw message
      | Cron.Ok _ => Cron.Ok (summarize article fullContent tier)
      end
  end.

(** One batch: the summaries are generated together and the fulfilled
    ones are stored in the order of the batch. *)
Definition summarizeBatch (results : gmap string SummaryResponse)
    (batch : list SummaryInput) : gmap string SummaryResponse :=
  fold_left
    (fun results input =>
       match generateSummary (article input) (fullContent input) (tier input) with
       | Cron.Ok summary => <[id (article input) := summary]> results
       | Cron.Throw _ => results
       end)
    batch results.

Definition generateSummariesBatch (articles : list SummaryInput)
  : gmap string SummaryResponse :=
  Batches.batchLoop CONCURRENCY summarizeBatch (List.length articles) 0 articles ∅.

End Summarize.

End Summarization.

(** ** The tiered runner: steps 5 to 12 of its [main]

    The steps between the selection of the feed items and the delivery:
    the content map, the articles for ranking, the tiers, the summaries,
    the tiered articles, the three sections, the full articles and the
    ids that are marked as sent. *)

Module Tiered.
Import Rss Interests.

(** A row of the article table, with the columns these steps read. *)
Record SavedArticle : Type := mkSaved {
  savedId : string;
  savedTitle : string;
  savedAuthor : option string;
  savedSiteName : option string;
  savedUrl : string;
  savedPublishedAt : option JS.Date;
  savedExcerpt : option string;
  savedContentHtml : string;
  savedContentText : string;
  savedReadingMinutes : Z
}.

Record ExtractedContent : Type := mkContent {
  html : string;
  text : string;
  readingMinutes : Z;
  author : option string
}.

(** An article with its tier ([articlesWithTiers]). *)
Record RankedArticle : Type := mkRanked {
  ranked : Llm.ArticleForRanking;
  rankedTier : Llm.ArticleTier;
  rankedReason : string
}.

Record TieredDigestArticle : Type := mkTiered {
  tieredId : string;
  tieredTitle : string;
  tieredAuthor : option string;
  tieredSiteName : string;
  tieredUrl : string;
  tieredTier : Llm.ArticleTier;
  tieredSummary : string;
  tieredOneLiner : string;
  tieredContentHtml : option string;        (* content?.html *)
  tieredReadingMinutes : option Z           (* content?.readingMinutes *)
}.

Section Steps.
Variable llmEnabled : bool.
Variable extractArticle : string -> Cron.result Cron.ExtractedArticle.
(** [rankArticlesBatch(articlesForRanking, interestTopics)] and
    [generateSummariesBatch(summaryInputs)]; the second never rejects (see
    [Summarization.generateSummariesBatch]), so the [catch] around it is
    not taken. *)
Variable rankArticlesBatch :
  list Llm.ArticleForRanking -> Cron.result (gmap string Llm.Ranking).
Variable generateSummariesBatch :
  list Summarization.SummaryInput -> gmap string Llm.SummaryResponse.
Variable savedArticles : list SavedArticle.
Variable selectedFeedItems : list ScoredFeedItem.

(** Step 5.  The saved articles are entered under their ids, then the
    feed items that could be extracted under their links. *)
Definition extractedContent : gmap string ExtractedContent :=
  fold_left
    (fun content scored =>
       match extractArticle (link (item scored)) with
       | Cron.Ok extracted =>
           <[link (item scored) :=
               {| html := Cron.extractedContentHtml extracted;
                  text := Cron.extractedContentText extracted;
                  readingMinutes := Cron.extractedReadingMinutes extracted;
                  author := Cron.extractedAuthor extracted |}]> content
       | Cron.Throw _ => content
       end)
    selectedFeedItems
    (fold_left
       (fun content article =>
          <[savedId article :=
              {| html := savedContentHtml article;
                 text := savedContentText article;
                 readingMinutes := savedReadingMinutes article;
                 author := savedAuthor article |}]> content)
       savedArticles ∅).

(** [extractedContent.has(key)] *)
Definition has (key : string) : bool :=
  match extractedContent !! key with
  | Some _ => true
  | None => false
  end.

(** Step 6. *)
Definition articlesForRanking : list Llm.ArticleForRanking :=
  List.map
    (fun a =>
       {| Llm.id := savedId a;
          Llm.title := savedTitle a;
          Llm.source := Cron.orElse (savedSiteName a) "Unknown";
          Llm.pubDate := savedPublishedAt a;
          Llm.excerpt :=
            Cron.orElse (savedExcerpt a) (JS.slice0 500 (savedContentText a));
          Llm.contentSnippet := Cron.orElse (savedExcerpt a) "";
          Llm.url := savedUrl a;
          Llm.isManualSave := true;
          Llm.matchedTopics := Some [] |})
    savedArticles
  ++ List.map
       (fun scored =>
          {| Llm.id := link (item scored);
             Llm.title := title (item scored);
             Llm.source := feedTitle (item scored);
             Llm.pubDate := pubDate (item scored);
             Llm.excerpt :=
               default ""
                 (Feeds.or (Some (contentSnippet (item scored)))
                    (Some (JS.slice0 500 (content (item scored)))));
             Llm.contentSnippet := contentSnippet (item scored);
             Llm.url := link (item scored);
             Llm.isManualSave := false;
             Llm.matchedTopics := Some (matchedTopics scored) |})
       (List.filter (fun scored => has (link (item scored))) selectedFeedItems).

(** Step 7. *)
Definition rankings : gmap string Llm.Ranking :=
  if llmEnabled
  then match rankArticlesBatch articlesForRanking with
       | Cron.Ok ranked => ranked
       | Cron.Throw _ => Llm.applyFallbackRanking articlesForRanking
       end
  else Llm.applyFallbackRanking articlesForRanking.

(** Step 8. *)
Definition articlesWithTiers : list RankedArticle :=
  List.map
    (fun article =>
       {| ranked := article;
          rankedTier :=
            match rankings !! Llm.id article with
            | Some ranking => Llm.tier ranking
            | None => Llm.related
            end;
          rankedReason :=
            Cron.orElse (option_map Llm.tierReason (rankings !! Llm.id article))
              "Default" |})
    articlesForRanking.

Definition summaryInputs : list Summarization.SummaryInput :=
  List.map
    (fun article =>
       {| Summarization.article := ranked article;
          Summarization.fullContent :=
            Cron.orElse (option_map text (extractedContent !! Llm.id (ranked article)))
              (Llm.excerpt (ranked article));
          Summarization.tier := rankedTier article |})
    articlesWithTiers.

Definition summaries : gmap string Llm.SummaryResponse :=
  if llmEnabled
  then generateSummariesBatch summaryInputs
  else Llm.generateFallbackSummaries
         (List.map (fun input => (Summarization.article input, Summarization.tier input))
            summaryInputs).

(** Step 9. *)
Definition tieredArticles : list TieredDigestArticle :=
  List.map
    (fun article =>
       let content := extractedContent !! Llm.id (ranked article) in
       let summaryData := summaries !! Llm.id (ranked article) in
       {| tieredId := Llm.id (ranked article);
          tieredTitle := Llm.title (ranked article);
          tieredAuthor :=
            Feeds.truthy (match content with
                          | Some c => author c
                          | None => None
                          end);
          tieredSiteName := Llm.source (ranked article);
          tieredUrl := Llm.url (ranked article);
          tieredTier := rankedTier article;
          tieredSummary :=
            Cron.orElse (option_map Llm.summary summaryData)
              (JS.slice0 200 (Llm.excerpt (ranked article)) ++ "...")%string;
          tieredOneLiner :=
            Cron.orElse (match summaryData with
                         | Some s => Llm.oneLiner s
                         | None => None
                         end)
              (Llm.title (ranked article));
          tieredContentHtml := option_map html content;
          tieredReadingMinutes := option_map readingMinutes content |})
    articlesWithTiers.

Definition hasTier (tier : Llm.ArticleTier) (article : TieredDigestArticle) : bool :=
  match tier, tieredTier article with
  | Llm.critical, Llm.critical => true
  | Llm.notable, Llm.notable => true
  | Llm.related, Llm.related => true
  | _, _ => false
  end.

Definition criticalArticles : list TieredDigestArticle :=
  List.filter (hasTier Llm.critical) tieredArticles.
Definition notableArticles : list TieredDigestArticle :=
  List.filter (hasTier Llm.notable) tieredArticles.
Definition relatedArticles : list TieredDigestArticle :=
  List.filter (hasTier Llm.related) tieredArticles.

(** Step 10: the articles of the second EPUB. *)
Definition fullArticlesForEpub : list Cron.EpubArticle :=
  omap
    (fun a =>
       match Feeds.truthy (tieredContentHtml a) with
       | Some contentHtml =>
           Some {| Cron.epubTitle := tieredTitle a;
                   Cron.epubAuthor := tieredAuthor a;
                   Cron.epubSiteName := Some (tieredSiteName a);
                   Cron.epubUrl := tieredUrl a;
                   Cron.epubContentHtml := contentHtml;
                   Cron.epubReadingMinutes :=
                     match tieredReadingMinutes a with
                     | Some minutes => if minutes =? 0 then 5 else minutes
                     | None => 5
                     end |}
       | None => None
       end)
    criticalArticles.

(** Step 12. *)
Definition includedArticleIds : list string :=
  List.map savedId
    (List.filter
       (fun a => existsb (fun t => String.eqb (tieredId t) (savedId a)) tieredArticles)
       savedArticles).

End Steps.

End Tiered.

Module TieredExamples.

Definition saved : Tiered.SavedArticle :=
  {| Tiered.savedId := "a1";
     Tiered.savedTitle := "Saved";
     Tiered.savedAuthor := None;
     Tiered.savedSiteName := None;
     Tiered.savedUrl := "https://example.com/saved";
     Tiered.savedPublishedAt := None;
     Tiered.savedExcerpt := Some "An excerpt";
     Tiered.savedContentHtml := "<p>text</p>";
     Tiered.savedContentText := "text";
     Tiered.savedReadingMinutes := 1 |}.

Definition offline (url : string) : Cron.result Cron.ExtractedArticle :=
  Cron.Throw "offline".

Definition noRanking (articles : list Llm.ArticleForRanking)
  : Cron.result (gmap string Llm.Ranking) :=
  Cron.Throw "OPENAI_API_KEY environment variable is not set".

Definition noSummaries (inputs : list Summarization.SummaryInput)
  : gmap string Llm.SummaryResponse := ∅.

End TieredExamples.
(** * Properties *)

Import Rss Interests.

(** ** The stable sort *)

Section SortFacts.
Context {A : Type} (compareFn : A -> A -> Q).

Lemma insert_perm (x : A) (l : list A) :
  Permutation (JS.insert compareFn x l) (x :: l).
Proof.
  induction l as [|y l IH]; simpl; [reflexivity|].
  destruct (Qlt_le_dec 0 (compareFn x y)); [|reflexivity].
  rewrite IH. apply perm_swap.
Qed.

Lemma sort_perm (l : list A) : Permutation (JS.sort compareFn l) l.
Proof.
  induction l as [|x l IH]; simpl; [reflexivity|].
  rewrite insert_perm. now constructor.
Qed.



(** Where the comparator is consistent on the elements of the array (the
    [good] ones), the result is in order. *)
Variable good : A -> Prop.
Hypothesis compare_asym :
  forall a b, good a -> good b -> (0 < compareFn a b)%Q -> (compareFn b a <= 0)%Q.
Hypothesis compare_trans :
  forall a b c, good a -> good b -> good c ->
                (compareFn a b <= 0)%Q -> (compareFn b c <= 0)%Q ->
                (compareFn a c <= 0)%Q.

Lemma insert_sorted (x : A) (l : list A) :
  good x -> Forall good l ->
  StronglySorted (JS.inOrder compareFn) l ->
  StronglySorted (JS.inOrder compareFn) (JS.insert compareFn x l).
Proof.
  intros Hx Hl Hsorted. induction Hsorted as [|y l Hs IH Hy]; simpl.
  - repeat constructor.
  - apply List.Forall_cons_iff in Hl. destruct Hl as [Hgy Hgl].
    destruct (Qlt_le_dec 0 (compareFn x y)) as [gt|le].
    + constructor; [now apply IH|].
      apply (Permutation_Forall (Permutation_sym (insert_perm x l))).
      constructor; [now apply compare_asym | assumption].
    + constructor; [now constructor|].
      constructor; [assumption|].
      rewrite List.Forall_forall in Hy, Hgl. apply List.Forall_forall.
      intros z Hz. apply compare_trans with y; auto. now apply Hy.
Qed.

Lemma sort_sorted (l : list A) :
  Forall good l -> StronglySorted (JS.inOrder compareFn) (JS.sort compareFn l).
Proof.
  induction 1 as [|x l Hx Hl IH]; simpl; [constructor|].
  apply insert_sorted; [assumption | | assumption].
  apply (Permutation_Forall (Permutation_sym (sort_perm l))). exact Hl.
Qed.

End SortFacts.

Lemma StronglySorted_weaken {A : Type} (R R' : A -> A -> Prop) (l : list A) :
  (forall a b, R a b -> R' a b) -> StronglySorted R l -> StronglySorted R' l.
Proof.
  intros HR. induction 1 as [|x l Hl IH Hx]; constructor; [assumption|].
  eapply List.Forall_impl; [|exact Hx]. intros y. apply HR.
Qed.


(** ** Numbers *)

Lemma same_refl (a : JS.number) : JS.same a a.
Proof. destruct a; cbn; [reflexivity | exact I]. Qed.


Lemma le_Num (x y : Q) : JS.le (JS.Num x) (JS.Num y) = true <-> (x <= y)%Q.
Proof. cbn. apply Qle_bool_iff. Qed.

(** ** Ranking of feed items *)

Section RankFacts.
Import Rss Interests.









End RankFacts.

(** C6: a feed item whose publish date could not be read has the score
    [NaN], and the ranking does not order it: of three items that score
    2, [NaN] and 4, in this order, [scoreAndRankFeedItems] returns all
    three in the order of the input, the item that scores 2 before the
    item that scores 4. *)
Theorem scoreAndRankFeedItems_invalid_date :
  let out :=
    Interests.scoreAndRankFeedItems (fun _ => 0) Examples.appleItems
      Examples.appleInterests in
  List.map Interests.item out = Examples.appleItems
  /\ Forall2 JS.same (List.map Interests.score out) [JS.Num 2; JS.NaN; JS.Num 4]
  /\ ~ StronglySorted
         (fun a b => JS.le (Interests.score b) (Interests.score a) = true) out.
Proof.
  cbv zeta.
  assert (E : Interests.scoreAndRankFeedItems (fun _ => 0) Examples.appleItems
                Examples.appleInterests
              = List.map (fun '(i, n) =>
                            {| Interests.item := i;
                               Interests.score := n;
                               Interests.matchedTopics := ["tech"];
                               Interests.matchedKeywords := ["apple"];
                               Interests.recencyScore :=
                                 match n with JS.Num _ => JS.Num 0 | JS.NaN => JS.NaN end |})
                  (combine Examples.appleItems
                     [JS.Num (2 + 0 * (2 # 10)); JS.NaN; JS.Num (4 + 0 * (2 # 10))]))
    by (vm_compute; reflexivity).
  rewrite E. cbn [combine Examples.appleItems List.map Interests.item Interests.score].
  split; [reflexivity|]. split.
  - repeat constructor; reflexivity.
  - intros Hsorted. inversion Hsorted as [|? ? _ Hfirst]; subst.
    inversion Hfirst as [|? ? Hnan _]; subst. cbn in Hnan. discriminate.
Qed.


(** ** Diversity selection *)

Section SelectFacts.
Import Interests.
Variable store : loc -> ScoredFeedItem.

Lemma includes_In (item : loc) (selected : list loc) :
  includes item selected = true <-> In item selected.
Proof.
  unfold includes. rewrite existsb_exists. split.
  - intros [x [Hx Heq]]. apply Nat.eqb_eq in Heq. now subst.
  - intros H. exists item. split; [assumption | apply Nat.eqb_refl].
Qed.

Lemma admittedCount_snoc (topic : string) (selected : list loc) (item : loc) :
  admittedCount store topic (selected ++ [item])
  = admittedCount store topic selected
    + (if String.eqb (primaryTopic store item) topic then 1 else 0).
Proof.
  unfold admittedCount. rewrite List.filter_app, List.length_app. cbn [List.filter].
  destruct (String.eqb _ _); cbn [List.length]; lia.
Qed.

Lemma countsAgree_empty : countsAgree store ∅ [].
Proof.
  intros topic. unfold countOf. rewrite lookup_empty.
  destruct (isInherited topic); [split|]; reflexivity.
Qed.

(** What the lookup in the counter record gives. *)
Lemma countOf_agree (topicCounts : gmap string Z) (selected : list loc) (topic : string) :
  countsAgree store topicCounts selected ->
  countOf topicCounts topic
  = if isInherited topic then Member else Counted (admittedCount store topic selected).
Proof.
  intros Hagree. specialize (Hagree topic).
  destruct (isInherited topic) eqn:Hi; [|exact Hagree].
  destruct Hagree as [Hnone _]. unfold countOf. now rewrite Hnone, Hi.
Qed.

Lemma countsAgree_push (topicCounts : gmap string Z) (selected : list loc) (item : loc) :
  countsAgree store topicCounts selected ->
  isInherited (primaryTopic store item) = false ->
  countsAgree store
    (<[primaryTopic store item :=
         admittedCount store (primaryTopic store item) selected + 1]> topicCounts)
    (selected ++ [item]).
Proof.
  intros Hagree Hown topic. specialize (Hagree topic).
  rewrite admittedCount_snoc. unfold countOf in *.
  destruct (String.eqb_spec (primaryTopic store item) topic) as [<-|Hne].
  - rewrite Hown in *. now rewrite lookup_insert_eq.
  - rewrite lookup_insert_ne by assumption.
    destruct (isInherited topic).
    + destruct Hagree as [Hnone Hzero]. split; [assumption | lia].
    + rewrite Hagree. f_equal. lia.
Qed.

(** One turn of the first loop, without the counter record: an item is
    admitted when its primary topic is not the name of an inherited member
    and fewer than [maxPerTopic] selected items share it. *)
Lemma diversityPass_turn (maxItems maxPerTopic : Z) (item : loc) (rest : list loc)
    (selected : list loc) (topicCounts : gmap string Z) :
  countsAgree store topicCounts selected ->
  (Z.of_nat (List.length selected) >=? maxItems) = false ->
  ((negb (isInherited (primaryTopic store item))
    && (admittedCount store (primaryTopic store item) selected <? maxPerTopic)) = true
   /\ exists topicCounts',
        countsAgree store topicCounts' (selected ++ [item])
        /\ diversityPass store maxItems maxPerTopic (item :: rest) selected topicCounts
           = diversityPass store maxItems maxPerTopic rest (selected ++ [item])
               topicCounts')
  \/ ((negb (isInherited (primaryTopic store item))
       && (admittedCount store (primaryTopic store item) selected <? maxPerTopic)) = false
      /\ diversityPass store maxItems maxPerTopic (item :: rest) selected topicCounts
         = diversityPass store maxItems maxPerTopic rest selected topicCounts).
Proof.
  intros Hagree Hfull. cbn [diversityPass]. rewrite Hfull.
  rewrite (countOf_agree topicCounts selected _ Hagree).
  destruct (isInherited (primaryTopic store item)) eqn:Hi; cbn [negb andb].
  - right. split; reflexivity.
  - destruct (admittedCount store (primaryTopic store item) selected <? maxPerTopic).
    + left. split; [reflexivity|]. eexists. split; [|reflexivity].
      now apply countsAgree_push.
    + right. split; reflexivity.
Qed.

Lemma diversityPass_specPass1 (maxItems maxPerTopic : Z) (scoredItems : list loc) :
  forall selected topicCounts,
    ownTopics store scoredItems ->
    countsAgree store topicCounts selected ->
    fst (diversityPass store maxItems maxPerTopic scoredItems selected topicCounts)
    = specPass1 store maxItems maxPerTopic scoredItems selected.
Proof.
  induction scoredItems as [|item rest IH]; intros selected topicCounts Hown Hagree;
    [reflexivity|].
  apply List.Forall_cons_iff in Hown. destruct Hown as [Hitem Hrest].
  destruct (Z.of_nat (List.length selected) >=? maxItems) eqn:Hfull.
  - cbn [diversityPass specPass1]. now rewrite Hfull.
  - cbn [specPass1]. rewrite Hfull.
    destruct (diversityPass_turn maxItems maxPerTopic item rest selected topicCounts
                Hagree Hfull) as [[Hyes (topicCounts' & Hagree' & ->)]|[Hno ->]];
      rewrite Hitem in *; cbn [negb andb] in *.
    + rewrite Hyes. now apply IH.
    + rewrite Hno. now apply IH.
Qed.

Lemma fillPass_specPass2 (maxItems : Z) (scoredItems : list loc) :
  forall selected,
    fillPass maxItems scoredItems selected = specPass2 maxItems scoredItems selected.
Proof.
  induction scoredItems as [|item rest IH]; intros selected;
    cbn [fillPass specPass2]; [reflexivity|].
  destruct (Z.of_nat (List.length selected) >=? maxItems); [reflexivity|].
  destruct (in_dec Nat.eq_dec item selected) as [Hin|Hnin].
  - apply includes_In in Hin. rewrite Hin. cbn. apply IH.
  - destruct (includes item selected) eqn:Hinc.
    + apply includes_In in Hinc. contradiction.
    + cbn. apply IH.
Qed.

Lemma selectDiverseItems_specSelect (scoredItems : list loc) (maxItems maxPerTopic : Z) :
  ownTopics store scoredItems ->
  selectDiverseItems store scoredItems maxItems maxPerTopic
  = specSelect store scoredItems maxItems maxPerTopic.
Proof.
  intros Hown. unfold selectDiverseItems, specSelect.
  pose proof (diversityPass_specPass1 maxItems maxPerTopic scoredItems [] ∅ Hown
                countsAgree_empty) as H.
  destruct (diversityPass store maxItems maxPerTopic scoredItems [] ∅)
    as [selected topicCounts].
  cbn [fst] in H. rewrite <- H.
  destruct (Z.of_nat (List.length selected) <? maxItems); [|reflexivity].
  apply fillPass_specPass2.
Qed.

(** *** What the two passes preserve *)

Lemma diversityPass_invariant (maxItems maxPerTopic : Z) (scoredItems : list loc) :
  forall selected topicCounts,
    List.NoDup (selected ++ scoredItems) ->
    Z.of_nat (List.length selected) <= Z.max 0 maxItems ->
    let result :=
      fst (diversityPass store maxItems maxPerTopic scoredItems selected topicCounts) in
    List.NoDup result
    /\ incl selected result
    /\ incl result (selected ++ scoredItems)
    /\ Z.of_nat (List.length result) <= Z.max 0 maxItems.
Proof.
  induction scoredItems as [|item rest IH]; intros selected topicCounts Hnd Hlen;
    cbn [diversityPass].
  - cbn [fst]. rewrite List.app_nil_r in *. repeat split; auto using incl_refl.
  - destruct (Z.of_nat (List.length selected) >=? maxItems) eqn:Hfull.
    + cbn [fst]. repeat split; auto using incl_refl.
      * eapply List.NoDup_app_remove_r. exact Hnd.
      * apply incl_appl, incl_refl.
    + assert (Hstep : selected ++ item :: rest = (selected ++ [item]) ++ rest)
        by now rewrite <- List.app_assoc.
      assert (Hskip :
        let result :=
          fst (diversityPass store maxItems maxPerTopic rest selected topicCounts) in
        List.NoDup result
        /\ incl selected result
        /\ incl result (selected ++ item :: rest)
        /\ Z.of_nat (List.length result) <= Z.max 0 maxItems).
      { destruct (IH selected topicCounts) as (H1 & H2 & H3 & H4).
        { eapply List.NoDup_remove_1. exact Hnd. }
        { assumption. }
        repeat split; auto.
        intros x Hx. apply H3 in Hx. apply List.in_app_or in Hx.
        apply List.in_or_app. destruct Hx as [Hx|Hx]; [now left | right; now right]. }
      destruct (countOf topicCounts (primaryTopic store item)) as [currentCount|];
        [|exact Hskip].
      destruct (currentCount <? maxPerTopic); [|exact Hskip].
      destruct (IH (selected ++ [item])
                  (<[primaryTopic store item := currentCount + 1]> topicCounts))
        as (H1 & H2 & H3 & H4).
      { now rewrite <- Hstep. }
      { rewrite List.length_app. cbn [List.length]. lia. }
      repeat split; auto.
      -- intros x Hx. apply H2, List.in_or_app. now left.
      -- now rewrite Hstep.
Qed.

Lemma fillPass_invariant (maxItems : Z) (scoredItems : list loc) :
  forall selected,
    List.NoDup selected ->
    Z.of_nat (List.length selected) <= Z.max 0 maxItems ->
    let result := fillPass maxItems scoredItems selected in
    List.NoDup result
    /\ incl selected result
    /\ incl result (selected ++ scoredItems)
    /\ Z.of_nat (List.length result) <= Z.max 0 maxItems
    /\ (maxItems <= Z.of_nat (List.length result) \/ incl scoredItems result).
Proof.
  induction scoredItems as [|item rest IH]; intros selected Hnd Hlen; cbn [fillPass].
  - rewrite List.app_nil_r. repeat split; auto using incl_refl.
    right. intros x [].
  - destruct (Z.of_nat (List.length selected) >=? maxItems) eqn:Hfull.
    + repeat split; auto using incl_refl.
      * apply incl_appl, incl_refl.
      * left. lia.
    + destruct (includes item selected) eqn:Hinc; cbn [negb].
      * destruct (IH selected Hnd Hlen) as (H1 & H2 & H3 & H4 & H5).
        apply includes_In in Hinc.
        repeat split; auto.
        -- intros x Hx. apply H3 in Hx. apply List.in_app_or in Hx.
           apply List.in_or_app. destruct Hx as [Hx|Hx]; [now left | right; now right].
        -- destruct H5 as [H5|H5]; [now left | right].
           intros x [<-|Hx]; [now apply H2 | now apply H5].
      * assert (Hnin : ~ In item selected).
        { intros Hin. apply includes_In in Hin. congruence. }
        destruct (IH (selected ++ [item])) as (H1 & H2 & H3 & H4 & H5).
        { apply List.NoDup_app; [assumption | repeat constructor; intros []|].
          intros x Hx [<-|[]]. contradiction. }
        { rewrite List.length_app. cbn [List.length]. lia. }
        repeat split; auto.
        -- intros x Hx. apply H2, List.in_or_app. now left.
        -- intros x Hx. apply H3 in Hx. rewrite <- List.app_assoc in Hx. exact Hx.
        -- destruct H5 as [H5|H5]; [now left | right].
           intros x [<-|Hx]; [|now apply H5].
           apply H2, List.in_or_app. right. now left.
Qed.

End SelectFacts.

(** C1: the first pass does not admit an item whose primary topic is
    the name of a member of [Object.prototype], although no item of that
    topic has been admitted.  Of two items, the first with the primary
    topic [constructor] and the second with the topic [ai], with
    [maxItems = 1] and [maxPerTopic = 2], [selectDiverseItems] returns the
    second item, where the two-pass selection of the specification
    returns the first. *)
Theorem selectDiverseItems_inherited_topic :
  let store := Examples.storeOf Examples.inheritedItems in
  let scoredItems := Examples.arrayOf Examples.inheritedItems in
  List.map (primaryTopic store) scoredItems = ["constructor"; "ai"]
  /\ selectDiverseItems store scoredItems 1 2 = [1%nat]
  /\ specSelect store scoredItems 1 2 = [0%nat]
  /\ selectDiverseItems store scoredItems 2 3 = [1%nat; 0%nat]
  /\ specSelect store scoredItems 2 3 = [0%nat; 1%nat].
Proof. repeat split; reflexivity. Qed.

(** X7: the selection in general.  When no primary topic is the name of
    a member of [Object.prototype], [selectDiverseItems] is the two-pass
    greedy selection of the specification.  Pass 1 walks the list in order
    and admits an item exactly when fewer than [maxPerTopic] selected
    items share its primary topic, stopping at [maxItems]; pass 2 runs
    only if fewer than [maxItems] were selected, walks the list again and
    admits every item not yet selected until [maxItems] is reached or the
    list ends.  On four items of one topic scored 100/90/80/70 followed by
    two of another scored 60/50, with [maxItems = 5] and
    [maxPerTopic = 2], the result is the items scored 100, 90, 60, 50, 80
    in that order. *)
Theorem selectDiverseItems_two_pass :
  (forall (store : loc -> ScoredFeedItem) (scoredItems : list loc)
          (maxItems maxPerTopic : Z),
      ownTopics store scoredItems ->
      selectDiverseItems store scoredItems maxItems maxPerTopic
      = specSelect store scoredItems maxItems maxPerTopic)
  /\ (let store := Examples.storeOf Examples.sixItems in
      let selected := selectDiverseItems store (Examples.arrayOf Examples.sixItems) 5 2 in
      selected = [0; 1; 4; 5; 2]%nat
      /\ Forall2 JS.same (List.map (fun l => score (store l)) selected)
           [JS.Num 100; JS.Num 90; JS.Num 60; JS.Num 50; JS.Num 80]).
Proof.
  split.
  - intros. now apply selectDiverseItems_specSelect.
  - split; [reflexivity|]. repeat constructor; reflexivity.
Qed.

(** C10: on pairwise-distinct items and [maxItems >= 0], the selection
    contains no item twice, every selected item comes from the input, and
    the number of selected items is the minimum of [maxItems] and the
    number of input items, whatever [maxPerTopic] is. *)
Theorem selectDiverseItems_distinct :
  forall (store : loc -> ScoredFeedItem) (scoredItems : list loc)
         (maxItems maxPerTopic : Z),
    0 <= maxItems ->
    List.NoDup scoredItems ->
    let selected := selectDiverseItems store scoredItems maxItems maxPerTopic in
    List.NoDup selected
    /\ incl selected scoredItems
    /\ Z.of_nat (List.length selected)
       = Z.min maxItems (Z.of_nat (List.length scoredItems)).
Proof.
  intros store scoredItems maxItems maxPerTopic Hmax Hnd. unfold selectDiverseItems.
  pose proof (diversityPass_invariant store maxItems maxPerTopic scoredItems [] ∅) as H1.
  destruct (diversityPass store maxItems maxPerTopic scoredItems [] ∅)
    as [selected topicCounts].
  cbn [fst List.app List.length] in H1.
  destruct H1 as (Hnd1 & _ & Hin1 & Hlen1); [assumption | lia |].
  pose proof (List.NoDup_incl_length Hnd1 Hin1) as Hle1.
  destruct (Z.of_nat (List.length selected) <? maxItems) eqn:Hfill.
  - destruct (fillPass_invariant maxItems scoredItems selected Hnd1 Hlen1)
      as (Hnd2 & _ & Hin2 & Hlen2 & Hend).
    assert (Hin : incl (fillPass maxItems scoredItems selected) scoredItems).
    { intros x Hx. apply Hin2 in Hx. apply List.in_app_or in Hx.
      destruct Hx as [Hx|Hx]; [now apply Hin1 | assumption]. }
    pose proof (List.NoDup_incl_length Hnd2 Hin) as Hle2.
    repeat split; [assumption | assumption |].
    destruct Hend as [Hfull|Hall].
    + lia.
    + pose proof (List.NoDup_incl_length Hnd Hall). lia.
  - repeat split; [assumption | assumption | lia].
Qed.

Lemma selectDiverseItems_distinct_witness :
  0 <= 5
  /\ List.NoDup (Examples.arrayOf Examples.sixItems)
  /\ let selected :=
       selectDiverseItems (Examples.storeOf Examples.sixItems)
         (Examples.arrayOf Examples.sixItems) 5 2 in
     List.NoDup selected
     /\ incl selected (Examples.arrayOf Examples.sixItems)
     /\ Z.of_nat (List.length selected)
        = Z.min 5 (Z.of_nat (List.length (Examples.arrayOf Examples.sixItems))).
Proof.
  split; [lia|]. split; [apply List.seq_NoDup|].
  apply (selectDiverseItems_distinct (Examples.storeOf Examples.sixItems)
           (Examples.arrayOf Examples.sixItems) 5 2);
    [lia | apply List.seq_NoDup].
Defined.

(** ** Keyword scoring *)

Lemma allChars_complete (c : ascii) : In c JS.allChars.
Proof.
  unfold JS.allChars. rewrite <- (ascii_nat_embedding c).
  apply List.in_map, List.in_seq. pose proof (nat_ascii_bounded c). lia.
Qed.

(** On normalized characters the case folding of the [i] flag identifies
    nothing. *)
Lemma canonicalize_kept_inj (a b : ascii) :
  isKept a = true -> isKept b = true ->
  RegExp.canonicalize a = RegExp.canonicalize b -> a = b.
Proof.
  intros Ha Hb Hab.
  assert (Hall : forallb (fun x => forallb (fun y =>
            implb (isKept x && isKept y
                   && Ascii.eqb (RegExp.canonicalize x) (RegExp.canonicalize y))
                  (Ascii.eqb x y)) JS.allChars) JS.allChars = true)
    by (vm_compute; reflexivity).
  rewrite forallb_forall in Hall. specialize (Hall a (allChars_complete a)).
  rewrite forallb_forall in Hall. specialize (Hall b (allChars_complete b)).
  rewrite Ha, Hb, Hab, Ascii.eqb_refl in Hall. cbn [andb implb] in Hall.
  now apply Ascii.eqb_eq.
Qed.

Lemma isKept_normalizeChar (c : ascii) : isKept (normalizeChar c) = true.
Proof.
  unfold normalizeChar. destruct (isKept (JS.toLowerCase_char c)) eqn:H;
    [assumption | reflexivity].
Qed.

Lemma normalizeText_map (text : string) :
  normalizeText text = JS.map normalizeChar text.
Proof.
  unfold normalizeText, JS.toLowerCase.
  induction text as [|c r IH]; cbn [JS.map]; [reflexivity|]. now rewrite IH.
Qed.

Lemma normalizeText_kept (text : string) : isNormalized (normalizeText text).
Proof.
  unfold isNormalized. rewrite normalizeText_map.
  induction text as [|c r IH]; cbn; constructor; [apply isKept_normalizeChar | exact IH].
Qed.

Lemma isSyntaxCharacter_kept (c : ascii) :
  isKept c = true -> RegExp.isSyntaxCharacter c = false.
Proof.
  intros Hc.
  assert (Hall : forallb (fun x => implb (isKept x) (negb (RegExp.isSyntaxCharacter x)))
                   JS.allChars = true) by (vm_compute; reflexivity).
  rewrite forallb_forall in Hall. specialize (Hall c (allChars_complete c)).
  rewrite Hc in Hall. cbn [implb] in Hall.
  now destruct (RegExp.isSyntaxCharacter c).
Qed.

Lemma append_String (c : ascii) (s t : string) :
  (String c s ++ t)%string = String c (s ++ t)%string.
Proof. reflexivity. Qed.

(** The [RegExp] constructor reads an escaped string back as the sequence
    of its characters.  This holds for every string, normalized or not. *)
Lemma parse_escapeRegex (s : string) (tail : string) (atoms : list RegExp.atom) :
  RegExp.parse tail = Some atoms ->
  RegExp.parse (escapeRegex s ++ tail)%string
  = Some (List.map RegExp.Lit (list_ascii_of_string s) ++ atoms).
Proof.
  intros Htail. induction s as [|c r IH]; [exact Htail|].
  cbn [escapeRegex list_ascii_of_string List.map List.app].
  destruct (RegExp.isSyntaxCharacter c) eqn:Hsyn.
  - rewrite !append_String. cbn [RegExp.parse]. rewrite Ascii.eqb_refl.
    destruct (Ascii.eqb_spec c "b") as [->|_]; [discriminate Hsyn|].
    rewrite Hsyn, IH. reflexivity.
  - rewrite append_String. cbn [RegExp.parse].
    destruct (Ascii.eqb_spec c "\") as [->|_]; [discriminate Hsyn|].
    rewrite Hsyn, IH. reflexivity.
Qed.

Lemma parse_wordBoundaryRegex (s : string) :
  RegExp.parse ("\b" ++ escapeRegex s ++ "\b")%string = Some (wordBoundaryRegex s).
Proof.
  change ("\b" ++ escapeRegex s ++ "\b")%string
    with (String "\" (String "b" (escapeRegex s ++ "\b")%string)).
  cbn [RegExp.parse]. rewrite !Ascii.eqb_refl.
  rewrite (parse_escapeRegex s "\b" [RegExp.WordBoundary]) by reflexivity.
  reflexivity.
Qed.

(** *** The global scan *)

Lemma skipn_cons_inv {A : Type} (text : list A) (p : nat) (x : A) (rest : list A) :
  skipn p text = x :: rest -> nth_error text p = Some x /\ skipn (S p) text = rest.
Proof.
  revert p. induction text as [|y text IH]; intros p H.
  - rewrite List.skipn_nil in H. discriminate.
  - destruct p as [|p]; cbn in *.
    + inversion H. now subst.
    + now apply IH.
Qed.

Lemma head_skipn {A : Type} (text : list A) (p : nat) :
  head (skipn p text) = nth_error text p.
Proof.
  revert p. induction text as [|y text IH]; intros [|p]; cbn; auto.
Qed.

Lemma charBefore_snoc (pre rest : list ascii) (x : ascii) :
  RegExp.charBefore (pre ++ x :: rest) (S (List.length pre)) = Some x.
Proof.
  cbn. rewrite List.nth_error_app2 by lia. now rewrite Nat.sub_diag.
Qed.

Lemma matchAt_here (atoms : list RegExp.atom) (pre rest : list ascii) :
  RegExp.matchAt atoms (pre ++ rest) (List.length pre)
  = RegExp.matchHere atoms (RegExp.charBefore (pre ++ rest) (List.length pre)) rest.
Proof.
  unfold RegExp.matchAt. now rewrite List.skipn_app, List.skipn_all, Nat.sub_diag.
Qed.

Section ScanFacts.
Variable atoms : list RegExp.atom.

Local Abbreviation scanFrom := (RegExp.scanFrom atoms).

Lemma scanFrom_step (pre rest : list ascii) (x : ascii) (skip : nat) :
  RegExp.scan atoms (Some x) rest (S (List.length pre)) skip
  = scanFrom (pre ++ [x]) rest skip.
Proof.
  unfold RegExp.scanFrom. rewrite <- List.app_assoc. cbn [List.app].
  rewrite List.length_app, Nat.add_1_r. now rewrite charBefore_snoc.
Qed.

Lemma scanFrom_unfold (pre rest : list ascii) (skip : nat) :
  scanFrom pre rest skip
  = match skip with
    | S k =>
        match rest with
        | [] => []
        | x :: rest' => scanFrom (pre ++ [x]) rest' k
        end
    | O =>
        match RegExp.matchAt atoms (pre ++ rest) (List.length pre) with
        | Some len =>
            List.length pre
              :: match rest with
                 | [] => []
                 | x :: rest' => scanFrom (pre ++ [x]) rest' (Nat.pred len)
                 end
        | None =>
            match rest with
            | [] => []
            | x :: rest' => scanFrom (pre ++ [x]) rest' 0
            end
        end
    end.
Proof.
  rewrite matchAt_here. unfold RegExp.scanFrom at 1.
  destruct rest as [|x rest']; destruct skip as [|k]; cbn [RegExp.scan];
    try destruct (RegExp.matchHere _ _ _);
    rewrite ?scanFrom_step; reflexivity.
Qed.

Lemma snoc_app (pre rest : list ascii) (x : ascii) :
  (pre ++ [x]) ++ rest = pre ++ x :: rest.
Proof. now rewrite <- List.app_assoc. Qed.

(** Every reported index is at or after [lastIndex], inside the text, and
    the pattern matches there. *)
Lemma scan_sound (rest : list ascii) :
  forall (pre : list ascii) (skip q : nat),
    In q (scanFrom pre rest skip) ->
    (List.length pre + skip <= q <= List.length (pre ++ rest))%nat
    /\ exists len, RegExp.matchAt atoms (pre ++ rest) q = Some len.
Proof.
  induction rest as [|x rest IH]; intros pre skip q; rewrite scanFrom_unfold.
  - destruct skip as [|k]; [|intros []].
    destruct (RegExp.matchAt atoms (pre ++ []) (List.length pre)) as [len|] eqn:Hm;
      [|intros []].
    intros [<-|[]]. rewrite List.app_nil_r in *. split; [lia | now exists len].
  - assert (Hrec : forall k, In q (scanFrom (pre ++ [x]) rest k) ->
               (S (List.length pre) + k <= q <= List.length (pre ++ x :: rest))%nat
               /\ exists len, RegExp.matchAt atoms (pre ++ x :: rest) q = Some len).
    { intros k Hq. apply IH in Hq. rewrite snoc_app, List.length_app in Hq.
      cbn [List.length] in Hq. rewrite Nat.add_1_r in Hq. exact Hq. }
    destruct skip as [|k].
    + destruct (RegExp.matchAt atoms (pre ++ x :: rest) (List.length pre))
        as [len|] eqn:Hm.
      * intros [<-|Hq].
        -- split; [rewrite List.length_app; lia | now exists len].
        -- apply Hrec in Hq. destruct Hq as [Hq1 Hq2]. split; [lia | exact Hq2].
      * intros Hq. apply Hrec in Hq. destruct Hq as [Hq1 Hq2]. split; [lia | exact Hq2].
    + intros Hq. apply Hrec in Hq. destruct Hq as [Hq1 Hq2]. split; [lia | exact Hq2].
Qed.

(** All matches of the pattern have the same length [L]. *)
Variable L : nat.
Hypothesis matchAt_length :
  forall text q len, RegExp.matchAt atoms text q = Some len -> len = L.



End ScanFacts.

(** *** The word-boundary pattern of a keyword *)

Lemma matchHere_lits (k : list ascii) (atoms : list RegExp.atom) (text : list ascii) :
  forall p : nat,
    RegExp.matchAt (List.map RegExp.Lit k ++ atoms) text p
    = if RegExp.foldedPrefix k (skipn p text)
      then option_map (Nat.add (List.length k))
             (RegExp.matchAt atoms text (p + List.length k))
      else None.
Proof.
  unfold RegExp.matchAt.
  induction k as [|c k IH]; intros p; cbn [List.map List.app RegExp.foldedPrefix List.length].
  - rewrite Nat.add_0_r. now destruct (RegExp.matchHere atoms _ _).
  - cbn [RegExp.matchHere].
    destruct (skipn p text) as [|x rest] eqn:Hskip; [reflexivity|].
    destruct (skipn_cons_inv _ _ _ _ Hskip) as [Hnth Hrest].
    destruct (Ascii.eqb _ _); [|reflexivity]. cbn [andb].
    specialize (IH (S p)). cbn [RegExp.charBefore] in IH.
    rewrite Hnth, Hrest in IH. rewrite IH.
    rewrite Nat.add_succ_r. cbn [Nat.add].
    destruct (RegExp.foldedPrefix k rest); [|reflexivity].
    now destruct (RegExp.matchHere atoms _ _).
Qed.

Lemma matchAt_boundary (atoms : list RegExp.atom) (text : list ascii) (p : nat) :
  RegExp.matchAt (RegExp.WordBoundary :: atoms) text p
  = if RegExp.isBoundary text p then RegExp.matchAt atoms text p else None.
Proof.
  unfold RegExp.matchAt, RegExp.isBoundary. cbn [RegExp.matchHere].
  now rewrite head_skipn.
Qed.

Lemma matchAt_wordBoundaryRegex (k : string) (text : list ascii) (p : nat) :
  RegExp.matchAt (wordBoundaryRegex k) text p
  = if RegExp.isBoundary text p
       && RegExp.foldedPrefix (list_ascii_of_string k) (skipn p text)
       && RegExp.isBoundary text (p + List.length (list_ascii_of_string k))
    then Some (List.length (list_ascii_of_string k))
    else None.
Proof.
  unfold wordBoundaryRegex. rewrite matchAt_boundary, matchHere_lits, matchAt_boundary.
  destruct (RegExp.isBoundary text p); [|reflexivity].
  destruct (RegExp.foldedPrefix _ _); [|reflexivity].
  destruct (RegExp.isBoundary text _); [|reflexivity].
  cbn. now rewrite Nat.add_0_r.
Qed.

(** On normalized strings, matching up to case folding is equality. *)
Lemma foldedPrefix_firstn (k rest : list ascii) :
  Forall (fun c => isKept c = true) k ->
  Forall (fun c => isKept c = true) rest ->
  RegExp.foldedPrefix k rest = true <-> firstn (List.length k) rest = k.
Proof.
  intros Hk. revert rest. induction Hk as [|c k Hc Hk IH]; intros rest Hrest.
  - cbn. tauto.
  - destruct Hrest as [|x rest Hx Hrest]; cbn [RegExp.foldedPrefix List.length firstn].
    + split; discriminate.
    + rewrite andb_true_iff, Ascii.eqb_eq, (IH rest Hrest). split.
      * intros [Hcx Hpre]. apply canonicalize_kept_inj in Hcx; [|assumption..].
        subst. now rewrite Hpre.
      * intros H. inversion H as [[Hx' Hpre]]. rewrite Hpre. now split.
Qed.

Lemma Forall_skipn {A : Type} (P : A -> Prop) (l : list A) (n : nat) :
  Forall P l -> Forall P (skipn n l).
Proof.
  intros H. revert n. induction H as [|x l Hx Hl IH]; intros [|n]; cbn; auto.
Qed.

Lemma matchAt_occursAt (k t : string) (p : nat) :
  isNormalized k -> isNormalized t ->
  (exists len, RegExp.matchAt (wordBoundaryRegex k) (list_ascii_of_string t) p = Some len)
  <-> occursAt k t p.
Proof.
  intros Hk Ht. rewrite matchAt_wordBoundaryRegex. unfold occursAt.
  rewrite <- (foldedPrefix_firstn _ _ Hk (Forall_skipn _ _ p Ht)).
  destruct (RegExp.isBoundary _ p); cbn [andb];
    [|split; [intros [? ?]; discriminate | intros [? _]; discriminate]].
  destruct (RegExp.foldedPrefix _ _); cbn [andb];
    [|split; [intros [? ?]; discriminate | intros (_ & ? & _); discriminate]].
  destruct (RegExp.isBoundary _ _);
    [|split; [intros [? ?]; discriminate | intros (_ & _ & ?); discriminate]].
  split; [auto | eauto].
Qed.


Lemma occurrences_scanFrom (k t : string) :
  occurrences k t = RegExp.scanFrom (wordBoundaryRegex k) [] (list_ascii_of_string t) 0.
Proof. reflexivity. Qed.

Lemma scoreKeyword_occurrences (keyword text : string) :
  scoreKeyword keyword text
  = Z.min 10
      (Z.of_nat (List.length (occurrences (normalizeText keyword) (normalizeText text))) * 2).
Proof.
  unfold scoreKeyword. rewrite parse_wordBoundaryRegex.
  unfold RegExp.matchAll. fold (occurrences (normalizeText keyword) (normalizeText text)).
  now destruct (occurrences _ _).
Qed.


(** ** Scoring of a feed item *)

Lemma scoreKeyword_nonneg (keyword text : string) : 0 <= scoreKeyword keyword text.
Proof. rewrite scoreKeyword_occurrences. lia. Qed.

Lemma scoreTopic_fst (textToSearch : string) (topicKeywords : list string) :
  forall (acc : Z) (matched : list string),
    fst (fold_left
           (fun '(topicScore, matchedKeywords) keyword =>
              let keywordScore := scoreKeyword keyword textToSearch in
              if 0 <? keywordScore
              then (topicScore + keywordScore,
                    if negb (JS.includes keyword matchedKeywords)
                    then matchedKeywords ++ [keyword]
                    else matchedKeywords)
              else (topicScore, matchedKeywords))
           topicKeywords (acc, matched))
    = acc + sumZ (List.map (fun keyword => scoreKeyword keyword textToSearch)
                    topicKeywords).
Proof.
  induction topicKeywords as [|keyword rest IH]; intros acc matched;
    cbn [fold_left List.map sumZ fold_right]; [cbn; lia|].
  pose proof (scoreKeyword_nonneg keyword textToSearch) as Hge.
  destruct (0 <? scoreKeyword keyword textToSearch) eqn:Hpos.
  - rewrite IH. unfold sumZ. lia.
  - rewrite IH. apply Z.ltb_ge in Hpos. unfold sumZ. lia.
Qed.

Lemma scoreTopic_topicScore (textToSearch : string) (topic : InterestTopic)
    (matched : list string) :
  fst (scoreTopic textToSearch (keywords topic) matched) = topicScore textToSearch topic.
Proof. unfold scoreTopic, topicScore. now rewrite scoreTopic_fst. Qed.

Lemma scoreTopics_fold (textToSearch : string) (interests : DigestInterests) :
  forall (total : Z) (topics matched : list string),
    let result :=
      fold_left
        (fun '(totalScore, matchedTopics, matchedKeywords) '(topicName, topic) =>
           let '(topicScore, matchedKeywords) :=
             scoreTopic textToSearch (keywords topic) matchedKeywords in
           if 0 <? topicScore
           then (totalScore + topicScore, matchedTopics ++ [topicName], matchedKeywords)
           else (totalScore, matchedTopics, matchedKeywords))
        interests (total, topics, matched) in
    fst (fst result) = total + totalKeywordScore textToSearch interests
    /\ snd (fst result) = topics ++ matchedTopicNames textToSearch interests.
Proof.
  induction interests as [|[topicName topic] rest IH]; intros total topics matched.
  - cbn. split; [lia | now rewrite List.app_nil_r].
  - cbn [fold_left].
    pose proof (scoreTopic_topicScore textToSearch topic matched) as Hts.
    destruct (scoreTopic textToSearch (keywords topic) matched) as [ts matched'].
    cbn [fst] in Hts. subst ts.
    unfold totalKeywordScore, matchedTopicNames.
    cbn [List.map List.filter sumZ fold_right].
    destruct (0 <? topicScore textToSearch topic) eqn:Hpos.
    + destruct (IH (total + topicScore textToSearch topic) (topics ++ [topicName]) matched')
        as [H1 H2].
      cbv zeta in H1, H2. rewrite H1, H2. cbn [List.map fst].
      unfold totalKeywordScore, matchedTopicNames, sumZ.
      split; [lia | now rewrite <- List.app_assoc].
    + destruct (IH total topics matched') as [H1 H2].
      cbv zeta in H1, H2. rewrite H1, H2.
      unfold totalKeywordScore, matchedTopicNames, sumZ. split; [lia | reflexivity].
Qed.

Lemma calculateRecencyScore_cases (now t : Z) :
  let age := ageHours now t in
  exists recency,
    calculateRecencyScore now (Some (JS.Valid t)) = JS.Num recency
    /\ ((age <= 6)%Q -> recency == 100)
    /\ ((72 <= age)%Q -> recency == 0)
    /\ ((6 < age)%Q /\ (age < 72)%Q -> recency == 100 - (age - 6) * (100 / 66)).
Proof.
  intros age. unfold calculateRecencyScore.
  cbn [JS.getTime JS.sub JS.div JS.lift2 JS.le].
  set (ageHours := ((inject_Z now - inject_Z t) / inject_Z (1000 * 60 * 60))%Q).
  assert (Eage : ageHours == age).
  { unfold ageHours, age, Interests.ageHours. unfold Z.sub.
    now rewrite inject_Z_plus, inject_Z_opp. }
  clearbody ageHours age.
  destruct (Qle_bool ageHours 6) eqn:H6.
  - apply Qle_bool_iff in H6. eexists. split; [reflexivity|].
    repeat split; intros; try reflexivity; lra.
  - assert (H6' : (6 < ageHours)%Q).
    { apply Qnot_le_lt. intros H. apply Qle_bool_iff in H. congruence. }
    destruct (Qle_bool 72 ageHours) eqn:H72.
    + apply Qle_bool_iff in H72. eexists. split; [reflexivity|].
      repeat split; intros; try reflexivity; lra.
    + assert (H72' : (ageHours < 72)%Q).
      { apply Qnot_le_lt. intros H. apply Qle_bool_iff in H. congruence. }
      eexists. split; [reflexivity|].
      repeat split; intros; try lra.
      assert (E : (100 / 66 == 50 # 33)%Q) by reflexivity.
      rewrite Q.max_r; [rewrite E, Eage; reflexivity|].
      rewrite E. lra.
Qed.

(** C5: the recency score of [scoreFeedItem] is 0 for an item without a
    publish date, 100 for an age of at most 6 hours, 0 for an age of at
    least 72 hours and [100 - (ageHours - 6) * (100/66)] in between (and
    [NaN] for a date that could not be read); the final score is the sum
    of the positive per-topic keyword scores plus 0.2 times the recency
    score; the matched topics are the topics with a positive score, in the
    order of the configuration; and an item that matches no topic still
    gets its score record, with an empty list of matched topics. *)
Theorem scoreFeedItem_spec :
  forall (now : Z) (item : FeedItem) (interests : DigestInterests),
    let scored := scoreFeedItem now item interests in
    let text := searchText item in
    Interests.item scored = item
    /\ (pubDate item = None -> JS.same (recencyScore scored) (JS.Num 0))
    /\ (forall t, pubDate item = Some (JS.Valid t) ->
          let age := ageHours now t in
          ((age <= 6)%Q -> JS.same (recencyScore scored) (JS.Num 100))
          /\ ((72 <= age)%Q -> JS.same (recencyScore scored) (JS.Num 0))
          /\ ((6 < age)%Q /\ (age < 72)%Q ->
                JS.same (recencyScore scored)
                  (JS.Num (100 - (age - 6) * (100 / 66)))))
    /\ (pubDate item = Some JS.Invalid -> recencyScore scored = JS.NaN)
    /\ JS.same (score scored)
         (JS.add (JS.Num (inject_Z (totalKeywordScore text interests)))
                 (JS.mul (JS.Num (2 # 10)) (recencyScore scored)))
    /\ matchedTopics scored = matchedTopicNames text interests
    /\ (matchedTopicNames text interests = [] ->
          matchedTopics scored = []
          /\ JS.same (score scored)
               (JS.mul (JS.Num (2 # 10)) (recencyScore scored))).
Proof.
  intros now item interests scored text.
  pose proof (scoreTopics_fold text interests 0 [] []) as Hfold.
  unfold scored, scoreFeedItem. fold (searchText item). fold text.
  unfold scoreTopics.
  destruct (fold_left _ interests (0, [], [])) as [[total topics] matched].
  cbn [fst snd] in Hfold. destruct Hfold as [Htotal Htopics].
  cbn [List.app] in Htopics. rewrite Z.add_0_l in Htotal. subst total topics.
  cbn [Interests.item recencyScore score matchedTopics].
  split; [reflexivity|].
  split; [intros ->; reflexivity|].
  split.
  { intros t ->. destruct (calculateRecencyScore_cases now t) as (r & -> & H).
    exact H. }
  split; [intros ->; reflexivity|].
  split.
  { destruct (calculateRecencyScore now (pubDate item)); cbn; [ring | exact I]. }
  split; [reflexivity|].
  intros Hnone. split; [assumption|].
  assert (Hzero : totalKeywordScore text interests = 0).
  { clear -Hnone. unfold matchedTopicNames, totalKeywordScore, sumZ in *.
    induction interests as [|[name topic] rest IH]; [reflexivity|].
    cbn [List.map List.filter fold_right] in *.
    destruct (0 <? topicScore text topic); [discriminate|].
    rewrite IH; [reflexivity | assumption]. }
  rewrite Hzero.
  destruct (calculateRecencyScore now (pubDate item)); cbn; [ring | exact I].
Qed.

(** ** Fallback ranking *)

Lemma compareArticles_le (a b : Llm.ArticleForRanking) :
  (Llm.compareArticles a b <= 0)%Q <-> Llm.precedes a b.
Proof.
  unfold Llm.compareArticles, Llm.precedes.
  destruct (Llm.isManualSave a), (Llm.isManualSave b); cbn [Bool.eqb negb].
  - rewrite <- (Zle_Qle _ 0). split; [intros H; split; [auto | lia] | intros [_ H]].
    specialize (H eq_refl). lia.
  - split; [intros _; split; [discriminate | discriminate] | intros _; discriminate].
  - split; [intros H; exfalso; now apply H | intros [H _]; now specialize (H eq_refl)].
  - rewrite <- (Zle_Qle _ 0). split; [intros H; split; [auto | lia] | intros [_ H]].
    specialize (H eq_refl). lia.
Qed.

Lemma compareArticles_asym (a b : Llm.ArticleForRanking) :
  (0 < Llm.compareArticles a b)%Q -> (Llm.compareArticles b a <= 0)%Q.
Proof.
  unfold Llm.compareArticles.
  destruct (Llm.isManualSave a), (Llm.isManualSave b); cbn [Bool.eqb negb];
    try discriminate;
    try (rewrite <- (Zlt_Qlt 0), <- (Zle_Qle _ 0); lia).
Qed.

Lemma precedes_trans (a b c : Llm.ArticleForRanking) :
  Llm.precedes a b -> Llm.precedes b c -> Llm.precedes a c.
Proof.
  unfold Llm.precedes.
  destruct (Llm.isManualSave a), (Llm.isManualSave b), (Llm.isManualSave c);
    intros [H1 H2] [H3 H4]; split; intros; try congruence; try lia;
    try (specialize (H1 eq_refl); discriminate);
    try (specialize (H3 eq_refl); discriminate).
Qed.

Lemma sortedArticles_sorted (articles : list Llm.ArticleForRanking) :
  StronglySorted Llm.precedes (Llm.sortedArticles articles).
Proof.
  eapply StronglySorted_weaken;
    [|apply sort_sorted with (good := fun _ => True)].
  - intros a b. apply compareArticles_le.
  - intros a b _ _. apply compareArticles_asym.
  - intros a b c _ _ _ Hab Hbc. apply compareArticles_le.
    apply precedes_trans with b; now apply compareArticles_le.
  - apply List.Forall_forall. intros; exact I.
Qed.

Lemma StronglySorted_nth {A : Type} (R : A -> A -> Prop) (l : list A) :
  StronglySorted R l ->
  forall i j a b, (i < j)%nat -> nth_error l i = Some a -> nth_error l j = Some b -> R a b.
Proof.
  induction 1 as [|x l Hl IH Hx]; intros i j a b Hij Ha Hb.
  - destruct i; discriminate.
  - destruct j as [|j]; [lia|]. cbn in Hb. destruct i as [|i]; cbn in Ha.
    + inversion Ha; subst. rewrite List.Forall_forall in Hx.
      apply Hx. eapply List.nth_error_In. exact Hb.
    + apply (IH i j); [lia | assumption..].
Qed.

Section ForEachFacts.
Variable rank : nat -> Llm.Ranking.

Local Abbreviation assign :=
  (fun (results : gmap string Llm.Ranking) (article : Llm.ArticleForRanking)
       (index : nat) => <[Llm.id article := rank index]> results).

Lemma forEach_lookup_other (arr : list Llm.ArticleForRanking) :
  forall (index : nat) (results : gmap string Llm.Ranking) (k : string),
    ~ In k (List.map Llm.id arr) ->
    Llm.forEach assign arr index results !! k = results !! k.
Proof.
  induction arr as [|x rest IH]; intros index results k Hk; cbn [Llm.forEach];
    [reflexivity|].
  cbn [List.map In] in Hk. rewrite IH by tauto.
  apply lookup_insert_ne. tauto.
Qed.

Lemma forEach_lookup_nth (arr : list Llm.ArticleForRanking) :
  forall (index : nat) (results : gmap string Llm.Ranking) (i : nat)
         (a : Llm.ArticleForRanking),
    List.NoDup (List.map Llm.id arr) ->
    nth_error arr i = Some a ->
    Llm.forEach assign arr index results !! Llm.id a = Some (rank (index + i)%nat).
Proof.
  induction arr as [|x rest IH]; intros index results i a Hnd Ha;
    [destruct i; discriminate|].
  cbn [List.map] in Hnd. apply List.NoDup_cons_iff in Hnd. destruct Hnd as [Hx Hnd].
  cbn [Llm.forEach]. destruct i as [|i]; cbn in Ha.
  - inversion Ha; subst. rewrite forEach_lookup_other by assumption.
    rewrite Nat.add_0_r. apply lookup_insert_eq.
  - rewrite (IH (S index) _ i a Hnd Ha). f_equal. f_equal. lia.
Qed.

Lemma forEach_lookup_some (arr : list Llm.ArticleForRanking) :
  forall (index : nat) (results : gmap string Llm.Ranking) (k : string),
    is_Some (Llm.forEach assign arr index results !! k)
    <-> In k (List.map Llm.id arr) \/ is_Some (results !! k).
Proof.
  induction arr as [|x rest IH]; intros index results k; cbn [Llm.forEach List.map In].
  - tauto.
  - rewrite IH. rewrite lookup_insert_is_Some. 
    destruct (decide (Llm.id x = k)); tauto.
Qed.

Lemma forEach_lookup_rank (arr : list Llm.ArticleForRanking) :
  forall (index : nat) (results : gmap string Llm.Ranking) (k : string),
    In k (List.map Llm.id arr) ->
    exists i, (i < List.length arr)%nat
              /\ Llm.forEach assign arr index results !! k = Some (rank (index + i)%nat).
Proof.
  induction arr as [|x rest IH]; intros index results k Hk; [destruct Hk|].
  cbn [Llm.forEach List.map List.length].
  destruct (in_dec string_dec k (List.map Llm.id rest)) as [Hin|Hnin].
  - destruct (IH (S index) (<[Llm.id x := rank index]> results) k Hin) as [i [Hi Hl]].
    exists (S i). split; [lia|]. rewrite Hl. f_equal. f_equal. lia.
  - exists 0%nat. split; [lia|]. rewrite forEach_lookup_other by assumption.
    destruct Hk as [<-|Hk]; [|contradiction].
    rewrite Nat.add_0_r. apply lookup_insert_eq.
Qed.

End ForEachFacts.

Lemma floor_fifth (n : Z) : Qfloor (inject_Z n * (2 # 10)) = n / 5.
Proof.
  change (Qfloor (inject_Z n * (2 # 10))) with ((n * 2) / 10).
  replace 10 with (5 * 2) by reflexivity. now rewrite Z.div_mul_cancel_r.
Qed.

Lemma floor_three_tenths (n : Z) : Qfloor (inject_Z n * (3 # 10)) = 3 * n / 10.
Proof.
  change (Qfloor (inject_Z n * (3 # 10))) with ((n * 3) / 10). now rewrite Z.mul_comm.
Qed.

Lemma tierAt_cases (criticalCount notableCount : Z) (index : nat) :
  (Z.of_nat index < criticalCount ->
   Llm.tierAt criticalCount notableCount index = Llm.critical)
  /\ (criticalCount <= Z.of_nat index < criticalCount + notableCount ->
      Llm.tierAt criticalCount notableCount index = Llm.notable)
  /\ (criticalCount + notableCount <= Z.of_nat index ->
      0 <= notableCount ->
      Llm.tierAt criticalCount notableCount index = Llm.related).
Proof.
  unfold Llm.tierAt.
  destruct (Z.ltb_spec (Z.of_nat index) criticalCount);
    destruct (Z.ltb_spec (Z.of_nat index) (criticalCount + notableCount));
    repeat split; intros; try reflexivity; lia.
Qed.

(** C3: [applyFallbackRanking] orders the articles by manual-save flag
    (saves first) and then by number of matched topics (more first): of
    two articles of the sorted list, the later one is a manual save only
    if the earlier one is, and with equal flags it has at most as many
    matched topics.  With [n] articles, the article at index [i] of that
    order gets tier critical if [i < max(1, floor(n * 0.2))], notable if
    it is among the next [max(2, floor(n * 0.3))], related otherwise.  The
    keys of the returned map are exactly the ids of the input, every input
    article finds one tier under its id (for pairwise-distinct ids, the
    tier of its own index), a single article is critical, every manual
    save stands before every article that is not one, and of ten articles
    without a manual save, three with two topics and seven with one, the
    first two are critical, the next three notable and the last five
    related. *)
Theorem applyFallbackRanking_spec :
  forall articles : list Llm.ArticleForRanking,
    let n := Z.of_nat (List.length articles) in
    let sorted := Llm.sortedArticles articles in
    let criticalCount := Z.max 1 (n / 5) in
    let notableCount := Z.max 2 (3 * n / 10) in
    let topics := fun a : Llm.ArticleForRanking =>
      match Llm.matchedTopics a with
      | Some names => Z.of_nat (List.length names)
      | None => 0
      end in
    let ranked := fun (i : nat) (ranking : option Llm.Ranking) =>
      exists tier,
        ranking = Some {| Llm.tier := tier;
                          Llm.tierReason := "Keyword-based fallback ranking" |}
        /\ (Z.of_nat i < criticalCount -> tier = Llm.critical)
        /\ (criticalCount <= Z.of_nat i < criticalCount + notableCount ->
            tier = Llm.notable)
        /\ (criticalCount + notableCount <= Z.of_nat i -> tier = Llm.related) in
    let results := Llm.applyFallbackRanking articles in
    Permutation sorted articles
    /\ (forall i j a b,
          (i < j)%nat -> nth_error sorted i = Some a -> nth_error sorted j = Some b ->
          (Llm.isManualSave b = true -> Llm.isManualSave a = true)
          /\ (Llm.isManualSave a = Llm.isManualSave b -> topics b <= topics a))
    /\ (forall i j a b,
          nth_error sorted i = Some a -> nth_error sorted j = Some b ->
          Llm.isManualSave a = true -> Llm.isManualSave b = false -> (i < j)%nat)
    /\ (forall k, is_Some (results !! k) <-> In k (List.map Llm.id articles))
    /\ (forall a, In a articles ->
          exists i, (i < List.length articles)%nat /\ ranked i (results !! Llm.id a))
    /\ (List.NoDup (List.map Llm.id articles) ->
        forall i a, nth_error sorted i = Some a -> ranked i (results !! Llm.id a))
    /\ (forall a, articles = [a] ->
          Llm.tier <$> results !! Llm.id a = Some Llm.critical)
    /\ List.map (fun a => Llm.tier <$> Llm.applyFallbackRanking Examples.tenArticles
                                         !! Llm.id a)
         Examples.tenArticles
       = List.map Some
           [Llm.critical; Llm.critical; Llm.notable; Llm.notable; Llm.notable;
            Llm.related; Llm.related; Llm.related; Llm.related; Llm.related].
Proof.
  intros articles n sorted criticalCount notableCount topics ranked results.
  set (rank := fun i =>
         {| Llm.tier := Llm.tierAt criticalCount notableCount i;
            Llm.tierReason := "Keyword-based fallback ranking" |}).
  assert (Hranked : forall i, ranked i (Some (rank i))).
  { intros i. exists (Llm.tierAt criticalCount notableCount i).
    destruct (tierAt_cases criticalCount notableCount i) as (H1 & H2 & H3).
    repeat split; auto. intros H. apply H3; [exact H | lia]. }
  assert (Hperm : Permutation sorted articles) by apply sort_perm.
  assert (Hsorted : StronglySorted Llm.precedes sorted) by apply sortedArticles_sorted.
  assert (Hres : results = Llm.forEach
                   (fun results article index => <[Llm.id article := rank index]> results)
                   sorted 0%nat ∅).
  { unfold results, Llm.applyFallbackRanking.
    destruct (List.length articles =? 0)%nat eqn:Hempty.
    - apply Nat.eqb_eq, List.length_zero_iff_nil in Hempty.
      unfold sorted. now rewrite Hempty.
    - cbv zeta. rewrite floor_fifth, floor_three_tenths.
      fold sorted. rewrite (Permutation_length Hperm). reflexivity. }
  assert (Hids : forall k, In k (List.map Llm.id sorted) <-> In k (List.map Llm.id articles)).
  { intros k. split; apply Permutation_in; [|symmetry]; now apply Permutation_map. }
  split; [exact Hperm|].
  split; [|split; [|split; [|split; [|split; [|split]]]]].
  - intros i j a b Hij Ha Hb.
    exact (StronglySorted_nth _ _ Hsorted i j a b Hij Ha Hb).
  - intros i j a b Ha Hb Hsa Hsb.
    destruct (Nat.lt_trichotomy i j) as [Hlt|[Heq|Hgt]]; [assumption|exfalso..].
    + subst j. rewrite Ha in Hb. inversion Hb; subst. congruence.
    + destruct (StronglySorted_nth _ _ Hsorted j i b a Hgt Hb Ha) as [H _].
      specialize (H Hsa). congruence.
  - intros k. rewrite Hres, forEach_lookup_some, Hids, lookup_empty.
    split; [intros [H|[x Hx]]; [assumption | discriminate] | auto].
  - intros a Ha. rewrite Hres.
    destruct (forEach_lookup_rank rank sorted 0%nat ∅ (Llm.id a)) as [i [Hi Hl]].
    { apply Hids. now apply List.in_map. }
    exists i. split; [now rewrite <- (Permutation_length Hperm)|].
    rewrite Hl. apply Hranked.
  - intros Hnd i a Ha. rewrite Hres.
    rewrite (forEach_lookup_nth rank sorted 0%nat ∅ i a); [apply Hranked | | assumption].
    eapply Permutation_NoDup; [|exact Hnd].
    symmetry. now apply Permutation_map.
  - intros a ->. rewrite Hres. unfold sorted, Llm.sortedArticles.
    cbn [JS.sort fold_right JS.insert Llm.forEach].
    rewrite lookup_insert_eq. reflexivity.
  - vm_compute. reflexivity.
Qed.

(** ** Fallback summaries *)

Lemma length_slice0 (n : nat) (s : string) :
  String.length (JS.slice0 n s) = Nat.min n (String.length s).
Proof.
  revert s. induction n as [|n IH]; intros [|c s]; cbn; auto.
Qed.

Lemma length_append (s t : string) :
  String.length (s ++ t)%string = (String.length s + String.length t)%nat.
Proof. induction s as [|c s IH]; cbn; [reflexivity | now rewrite <- IH]. Qed.

Lemma length_fallbackSummary (a : Llm.ArticleForRanking) (t : Llm.ArticleTier) :
  String.length (Llm.summary (Llm.fallbackSummary a t))
  = (Nat.min (match t with Llm.critical => 400 | _ => 150 end)
       (String.length (Llm.excerpt a)) + 3)%nat.
Proof.
  unfold Llm.fallbackSummary. cbn [Llm.summary].
  now rewrite length_append, length_slice0.
Qed.

Lemma generateFallbackSummaries_snoc
    (articles : list (Llm.ArticleForRanking * Llm.ArticleTier))
    (a : Llm.ArticleForRanking) (t : Llm.ArticleTier) :
  Llm.generateFallbackSummaries (articles ++ [(a, t)])
  = <[Llm.id a := Llm.fallbackSummary a t]> (Llm.generateFallbackSummaries articles).
Proof. unfold Llm.generateFallbackSummaries. now rewrite List.fold_left_app. Qed.

Lemma generateFallbackSummaries_lookup
    (articles : list (Llm.ArticleForRanking * Llm.ArticleTier))
    (a : Llm.ArticleForRanking) (t : Llm.ArticleTier) :
  In (a, t) articles ->
  (exists a' t',
      In (a', t') articles /\ Llm.id a' = Llm.id a
      /\ Llm.generateFallbackSummaries articles !! Llm.id a
         = Some (Llm.fallbackSummary a' t'))
  /\ (List.NoDup (List.map (fun p => Llm.id (fst p)) articles) ->
      Llm.generateFallbackSummaries articles !! Llm.id a
      = Some (Llm.fallbackSummary a t)).
Proof.
  induction articles as [|[x tx] rest IH] using List.rev_ind; [intros []|].
  intros Hin. rewrite generateFallbackSummaries_snoc.
  destruct (string_dec (Llm.id x) (Llm.id a)) as [Heq|Hne].
  - rewrite Heq, lookup_insert_eq. split.
    + exists x, tx. split; [apply List.in_or_app; right; now left | auto].
    + intros Hnd. apply List.in_app_or in Hin. destruct Hin as [Hin|[Hin|[]]].
      * exfalso. rewrite List.map_app in Hnd. cbn [List.map fst] in Hnd.
        apply List.NoDup_remove_2 in Hnd. apply Hnd. rewrite List.app_nil_r.
        rewrite Heq. apply (List.in_map (fun p => Llm.id (fst p)) _ _ Hin).
      * now inversion Hin.
  - rewrite lookup_insert_ne by assumption.
    apply List.in_app_or in Hin. destruct Hin as [Hin|[Hin|[]]];
      [|inversion Hin; subst; contradiction].
    destruct (IH Hin) as [(a' & t' & H1 & H2 & H3) Hnd]. split.
    + exists a', t'. split; [apply List.in_or_app; now left | auto].
    + intros Hnd'. apply Hnd. rewrite List.map_app in Hnd'.
      eapply List.NoDup_app_remove_r. exact Hnd'.
Qed.

(** C8: for each article of the list, the map [generateFallbackSummaries]
    returns holds under the article's id a fallback summary: the excerpt
    cut to 400 characters for tier critical and to 150 otherwise, followed
    by "...", with the title as one-liner.  The entry is that of a pair of
    the list carrying the id (the loop overwrites an entry when an id
    comes again), hence the article's own when the ids are pairwise
    distinct, as the data model requires.  The summary is at most 403 characters long for
    tier critical and at most 153 otherwise; for an excerpt of 500
    characters the lengths are 403 (at most 404) and 153 (at most 154). *)
Theorem generateFallbackSummaries_spec :
  forall (articles : list (Llm.ArticleForRanking * Llm.ArticleTier))
         (a : Llm.ArticleForRanking) (t : Llm.ArticleTier),
    In (a, t) articles ->
    let results := Llm.generateFallbackSummaries articles in
    let limit := fun tier => match tier with Llm.critical => 400%nat | _ => 150%nat end in
    (exists a' t',
        In (a', t') articles /\ Llm.id a' = Llm.id a
        /\ results !! Llm.id a
           = Some {| Llm.summary := (JS.slice0 (limit t') (Llm.excerpt a') ++ "...")%string;
                     Llm.oneLiner := Some (Llm.title a') |})
    /\ (List.NoDup (List.map (fun p => Llm.id (fst p)) articles) ->
        results !! Llm.id a
        = Some {| Llm.summary := (JS.slice0 (limit t) (Llm.excerpt a) ++ "...")%string;
                  Llm.oneLiner := Some (Llm.title a) |})
      /\ (String.length (Llm.summary (Llm.fallbackSummary a t)) <= limit t + 3)%nat
    /\ (String.length (Llm.excerpt a) = 500%nat ->
        String.length (Llm.summary (Llm.fallbackSummary a t)) = (limit t + 3)%nat
        /\ (t = Llm.critical ->
            (String.length (Llm.summary (Llm.fallbackSummary a t)) <= 404)%nat)
        /\ (t <> Llm.critical ->
            (String.length (Llm.summary (Llm.fallbackSummary a t)) <= 154)%nat)).
Proof.
  intros articles a t Hin results limit.
  destruct (generateFallbackSummaries_lookup articles a t Hin)
    as [(a' & t' & H1 & H2 & H3) Hnd].
  split; [exists a', t'; split; [assumption | split; [assumption|]]|].
  { unfold results. rewrite H3. unfold Llm.fallbackSummary. now destruct t'. }
  split.
  { intros Hnd'. unfold results. rewrite (Hnd Hnd').
    unfold Llm.fallbackSummary. now destruct t. }
  split.
  { rewrite length_fallbackSummary. subst limit. destruct t; cbv beta iota; lia. }
  intros H500. rewrite length_fallbackSummary, H500. subst limit.
  destruct t; cbv beta iota; repeat split; intros; try congruence; lia.
Qed.

Lemma generateFallbackSummaries_spec_witness :
  In (Examples.createArticle "1" (Examples.repeatX 500), Llm.critical)
     Examples.longArticles
  /\ Llm.summary <$>
       Llm.generateFallbackSummaries Examples.longArticles !! "1"
     = Some (Examples.repeatX 400 ++ "...")%string.
Proof.
  split; [now left|].
  destruct (generateFallbackSummaries_spec Examples.longArticles
              (Examples.createArticle "1" (Examples.repeatX 500)) Llm.critical)
    as (_ & Hown & _); [now left|].
  cbn [Examples.createArticle Llm.id] in Hown. rewrite Hown; [reflexivity|].
  repeat constructor; cbn; intuition discriminate.
Defined.

(** ** Canonical URLs *)

Section StringFacts.

Lemma every_app (p : ascii -> bool) (a b : string) :
  JS.every p (a ++ b)%string = JS.every p a && JS.every p b.
Proof.
  induction a as [|c a IH]; [reflexivity|].
  rewrite append_String. cbn [JS.every]. now rewrite IH, andb_assoc.
Qed.

Lemma every_impl (p q : ascii -> bool) (s : string) :
  forallb (fun c => implb (p c) (q c)) JS.allChars = true ->
  JS.every p s = true -> JS.every q s = true.
Proof.
  intros Hall. rewrite forallb_forall in Hall.
  induction s as [|c s IH]; [reflexivity|]. cbn [JS.every].
  rewrite !andb_true_iff. intros [Hc Hs]. split; [|now apply IH].
  specialize (Hall c (allChars_complete c)). rewrite Hc in Hall. exact Hall.
Qed.



Lemma split_app (c : ascii) (a b : string) :
  JS.every (URL.isNot c) a = true ->
  URL.split c (a ++ String c b)%string = a :: URL.split c b.
Proof.
  induction a as [|x a IH]; intros Ha.
  - change ("" ++ String c b)%string with (String c b).
    cbn [URL.split]. now rewrite Ascii.eqb_refl.
  - rewrite append_String. cbn [JS.every] in Ha. apply andb_true_iff in Ha.
    destruct Ha as [Hx Ha]. unfold URL.isNot in Hx. apply negb_true_iff in Hx.
    cbn [URL.split]. rewrite Hx, (IH Ha). reflexivity.
Qed.

Lemma split_none (c : ascii) (a : string) :
  JS.every (URL.isNot c) a = true -> URL.split c a = [a].
Proof.
  induction a as [|x a IH]; intros Ha; [reflexivity|].
  cbn [JS.every] in Ha. apply andb_true_iff in Ha.
  destruct Ha as [Hx Ha]. unfold URL.isNot in Hx. apply negb_true_iff in Hx.
  cbn [URL.split]. rewrite Hx, (IH Ha). reflexivity.
Qed.



End StringFacts.

(** *** The query and its list of pairs *)





Lemma append_empty_r (s : string) : (s ++ "")%string = s.
Proof. induction s as [|c s IH]; [reflexivity|]. rewrite append_String. now f_equal. Qed.




(** *** Parsing the serialization of a URL *)

Lemma append_assoc_s (a b c : string) :
  ((a ++ b) ++ c)%string = (a ++ (b ++ c))%string.
Proof. induction a as [|x a IH]; [reflexivity|]. rewrite !append_String. now f_equal. Qed.


Lemma toLowerCase_fixed (s : string) :
  JS.every (fun c => Ascii.eqb (JS.toLowerCase_char c) c) s = true ->
  JS.toLowerCase s = s.
Proof.
  unfold JS.toLowerCase. induction s as [|c s IH]; [reflexivity|].
  cbn [JS.every JS.map]. rewrite andb_true_iff, Ascii.eqb_eq.
  intros [-> Hs]. now rewrite IH.
Qed.










(** *** Deleting the tracking parameters *)


Lemma filter_filter {A : Type} (f g : A -> bool) (l : list A) :
  List.filter g (List.filter f l) = List.filter (fun x => f x && g x) l.
Proof.
  induction l as [|x l IH]; [reflexivity|]. cbn [List.filter].
  destruct (f x); cbn [List.filter andb]; [destruct (g x)|]; now rewrite IH.
Qed.






Lemma withoutParams_again (names : list string) (url : URL.t) :
  Extractor.withoutParams names (Extractor.withoutParams names url)
  = Extractor.withoutParams names url.
Proof.
  unfold Extractor.withoutParams.
  cbn [URL.protocol URL.hostname URL.pathname URL.search URL.searchParams URL.hash].
  rewrite filter_filter.
  rewrite (List.filter_ext _ (Extractor.keepParam names))
    by (intros p; now destruct (Extractor.keepParam names p)).
  reflexivity.
Qed.

(** *** The canonical form *)








(** *** The canonical form stays inside the modelled fragment *)









(** *** The amendment is tight: a canonical form that is not settled
    changes when it is canonicalized again. *)

Lemma length_map (f : ascii -> ascii) (s : string) :
  String.length (JS.map f s) = String.length s.
Proof. induction s as [|c s IH]; cbn; congruence. Qed.









(** ** Trimming *)

Lemma trimStart_whitespace (ws s : string) :
  JS.every JS.isWhiteSpace ws = true ->
  JS.trimStart (ws ++ s)%string = JS.trimStart s.
Proof.
  induction ws as [|c ws IH]; [reflexivity|]. cbn [JS.every].
  rewrite andb_true_iff. intros [Hc Hws].
  change (String c ws ++ s)%string with (String c (ws ++ s)%string).
  cbn [JS.trimStart]. rewrite Hc. now apply IH.
Qed.

Lemma trimEnd_whitespace (s ws : string) :
  JS.every JS.isWhiteSpace ws = true ->
  JS.trimEnd (s ++ ws)%string = JS.trimEnd s.
Proof.
  intros Hws. induction s as [|c s IH].
  - change ("" ++ ws)%string with ws. cbn [JS.trimEnd].
    induction ws as [|c ws IH]; [reflexivity|]. cbn [JS.every] in Hws.
    apply andb_true_iff in Hws. destruct Hws as [Hc Hws].
    cbn [JS.trimEnd]. rewrite (IH Hws), Hc. reflexivity.
  - change (String c s ++ ws)%string with (String c (s ++ ws)%string).
    cbn [JS.trimEnd]. now rewrite IH.
Qed.

(** A string that is empty or starts with a character that is not
    whitespace. *)
Lemma trimStart_cases (s : string) :
  JS.trimStart s = ""%string
  \/ exists c r, JS.trimStart s = String c r /\ JS.isWhiteSpace c = false.
Proof.
  induction s as [|c s IH]; [now left|]. cbn [JS.trimStart].
  destruct (JS.isWhiteSpace c) eqn:Hc; [exact IH|]. right. eauto.
Qed.

Lemma trimStart_every (s : string) :
  JS.trimStart s = ""%string -> JS.every JS.isWhiteSpace s = true.
Proof.
  induction s as [|c s IH]; [reflexivity|]. cbn [JS.trimStart JS.every].
  destruct (JS.isWhiteSpace c); [exact IH | discriminate].
Qed.

Lemma trimStart_app (s t : string) :
  JS.trimStart s <> ""%string ->
  JS.trimStart (s ++ t)%string = (JS.trimStart s ++ t)%string.
Proof.
  induction s as [|c s IH]; [intros []; reflexivity|].
  change (String c s ++ t)%string with (String c (s ++ t)%string).
  cbn [JS.trimStart]. destruct (JS.isWhiteSpace c); [exact IH | reflexivity].
Qed.

Lemma trimEnd_head (c : ascii) (r : string) :
  JS.isWhiteSpace c = false ->
  exists r', JS.trimEnd (String c r) = String c r'.
Proof.
  intros Hc. cbn [JS.trimEnd]. destruct (JS.trimEnd r); rewrite ?Hc; eauto.
Qed.

Lemma trimEnd_idempotent (s : string) : JS.trimEnd (JS.trimEnd s) = JS.trimEnd s.
Proof.
  induction s as [|c s IH]; [reflexivity|]. cbn [JS.trimEnd].
  destruct (JS.trimEnd s) as [|x r] eqn:E.
  - destruct (JS.isWhiteSpace c) eqn:Hc; [reflexivity|].
    cbn [JS.trimEnd]. now rewrite Hc.
  - cbn [JS.trimEnd] in IH |- *. now rewrite IH.
Qed.

Lemma trim_idempotent (s : string) : JS.trim (JS.trim s) = JS.trim s.
Proof.
  unfold JS.trim.
  destruct (trimStart_cases s) as [E|(c & r & E & Hc)]; rewrite E; [reflexivity|].
  destruct (trimEnd_head c r Hc) as [r' E']. rewrite E'.
  cbn [JS.trimStart]. rewrite Hc, <- E'. apply trimEnd_idempotent.
Qed.

Lemma trim_padded (before s after : string) :
  JS.every JS.isWhiteSpace before = true ->
  JS.every JS.isWhiteSpace after = true ->
  JS.trim (before ++ s ++ after)%string = JS.trim s.
Proof.
  intros Hb Ha. unfold JS.trim. rewrite trimStart_whitespace by assumption.
  destruct (trimStart_cases s) as [E|(c & r & E & Hc)].
  - rewrite E.
    assert (Hall : JS.every JS.isWhiteSpace (s ++ after)%string = true)
      by (rewrite every_app, (trimStart_every s E), Ha; reflexivity).
    rewrite <- (append_empty_r (s ++ after)%string).
    rewrite trimStart_whitespace by assumption. reflexivity.
  - rewrite trimStart_app by (rewrite E; discriminate).
    now apply trimEnd_whitespace.
Qed.

Lemma trim_whitespace (ws : string) :
  JS.every JS.isWhiteSpace ws = true -> JS.trim ws = ""%string.
Proof.
  intros H. rewrite <- (append_empty_r ws). unfold JS.trim.
  now rewrite trimStart_whitespace.
Qed.

(** ** Content fingerprints *)

Lemma length_hexWord (w : Z) (tail : string) :
  String.length (Sha256.hexWord w tail) = (8 + String.length tail)%nat.
Proof. reflexivity. Qed.

Lemma length_sha256Hex (s : string) : String.length (Sha256.sha256Hex s) = 64%nat.
Proof.
  unfold Sha256.sha256Hex, Sha256.hex. now rewrite !length_hexWord.
Qed.

Lemma hexDigit_lower (x : Z) :
  Extractor.isLowerHex (Sha256.hexDigit (Z.land x 15)) = true.
Proof.
  change 15 with (Z.ones 4). rewrite Z.land_ones by lia.
  pose proof (Z.mod_pos_bound x (2 ^ 4) ltac:(lia)) as Hb.
  set (n := x mod 2 ^ 4) in *. clearbody n.
  assert (Hall : forallb (fun k => Extractor.isLowerHex (Sha256.hexDigit (Z.of_nat k)))
                   (seq 0 16) = true) by reflexivity.
  rewrite forallb_forall in Hall. specialize (Hall (Z.to_nat n)).
  rewrite Z2Nat.id in Hall by lia. apply Hall, List.in_seq. lia.
Qed.

Lemma every_hexWord (w : Z) (tail : string) :
  JS.every Extractor.isLowerHex tail = true ->
  JS.every Extractor.isLowerHex (Sha256.hexWord w tail) = true.
Proof.
  intros Htail. unfold Sha256.hexWord. cbn [fold_right JS.every].
  now rewrite !hexDigit_lower, Htail.
Qed.

Lemma every_sha256Hex (s : string) :
  JS.every Extractor.isLowerHex (Sha256.sha256Hex s) = true.
Proof.
  unfold Sha256.sha256Hex, Sha256.hex. repeat apply every_hexWord. reflexivity.
Qed.

Lemma every_slice0 (p : ascii -> bool) (n : nat) (s : string) :
  JS.every p s = true -> JS.every p (JS.slice0 n s) = true.
Proof.
  revert s. induction n as [|n IH]; intros [|c s]; cbn [JS.slice0 JS.every]; auto.
  rewrite !andb_true_iff. intros [Hc Hs]. auto.
Qed.

Lemma map_append (f : ascii -> ascii) (a b : string) :
  JS.map f (a ++ b)%string = (JS.map f a ++ JS.map f b)%string.
Proof.
  induction a as [|c a IH]; [reflexivity|].
  rewrite append_String. cbn [JS.map]. rewrite append_String. now f_equal.
Qed.

Lemma collapse_run (ws b : string) (inRun : bool) :
  ws <> ""%string ->
  JS.every JS.isWhiteSpace ws = true ->
  JS.collapseWhiteSpace inRun (ws ++ b)%string
  = ((if inRun then "" else " ") ++ JS.collapseWhiteSpace true b)%string.
Proof.
  revert inRun. induction ws as [|w ws IH]; intros inRun Hne Hws; [contradiction|].
  cbn [JS.every] in Hws. apply andb_true_iff in Hws. destruct Hws as [Hw Hws].
  rewrite append_String. cbn [JS.collapseWhiteSpace]. rewrite Hw.
  destruct ws as [|w' ws'].
  - change ("" ++ b)%string with b. now destruct inRun.
  - rewrite (IH true) by (discriminate || assumption).
    change ("" ++ JS.collapseWhiteSpace true b)%string with (JS.collapseWhiteSpace true b).
    now destruct inRun.
Qed.

Lemma collapse_runs (a ws ws' b : string) :
  ws <> ""%string -> ws' <> ""%string ->
  JS.every JS.isWhiteSpace ws = true ->
  JS.every JS.isWhiteSpace ws' = true ->
  forall inRun,
    JS.collapseWhiteSpace inRun (a ++ ws ++ b)%string
    = JS.collapseWhiteSpace inRun (a ++ ws' ++ b)%string.
Proof.
  intros Hne Hne' Hws Hws'. induction a as [|c a IH]; intros inRun.
  - change ("" ++ ?x)%string with x. now rewrite !collapse_run.
  - rewrite !append_String. cbn [JS.collapseWhiteSpace]. now rewrite !IH.
Qed.

Lemma toLowerCase_whitespace (ws : string) :
  JS.every JS.isWhiteSpace ws = true -> JS.toLowerCase ws = ws.
Proof.
  intros H. apply toLowerCase_fixed. eapply every_impl; [|exact H].
  vm_compute. reflexivity.
Qed.

(** Whitespace before and after the text does not survive the collapse
    and the trim. *)
Lemma collapse_trimStart (s : string) :
  JS.trimStart (JS.collapseWhiteSpace true s)
  = JS.trimStart (JS.collapseWhiteSpace false s).
Proof.
  destruct s as [|c r]; [reflexivity|]. cbn [JS.collapseWhiteSpace].
  destruct (JS.isWhiteSpace c); reflexivity.
Qed.

Lemma collapse_leading (ws s : string) :
  JS.every JS.isWhiteSpace ws = true ->
  forall inRun,
    JS.trimStart (JS.collapseWhiteSpace inRun (ws ++ s)%string)
    = JS.trimStart (JS.collapseWhiteSpace false s).
Proof.
  induction ws as [|w ws IH]; intros Hws inRun.
  - change ("" ++ s)%string with s. destruct inRun; [apply collapse_trimStart | reflexivity].
  - cbn [JS.every] in Hws. apply andb_true_iff in Hws. destruct Hws as [Hw Hws].
    rewrite append_String. cbn [JS.collapseWhiteSpace]. rewrite Hw.
    destruct inRun; [now apply IH|]. cbn [JS.trimStart].
    change (JS.isWhiteSpace " ") with true. cbv iota. now apply IH.
Qed.

Lemma collapse_trailing (s ws : string) :
  JS.every JS.isWhiteSpace ws = true ->
  forall inRun,
    exists t,
      JS.collapseWhiteSpace inRun (s ++ ws)%string
      = (JS.collapseWhiteSpace inRun s ++ t)%string
      /\ JS.every JS.isWhiteSpace t = true.
Proof.
  intros Hws. induction s as [|c s IH]; intros inRun.
  - change ("" ++ ws)%string with ws. cbn [JS.collapseWhiteSpace].
    change ("" ++ ?t)%string with t.
    destruct ws as [|w ws']; [exists ""%string; split; reflexivity|].
    rewrite <- (append_empty_r (String w ws')).
    rewrite collapse_run by (discriminate || assumption).
    cbn [JS.collapseWhiteSpace]. rewrite append_empty_r.
    eexists. split; [reflexivity|]. now destruct inRun.
  - rewrite append_String. cbn [JS.collapseWhiteSpace].
    destruct (JS.isWhiteSpace c).
    + destruct (IH true) as (t & E & Ht). rewrite E. exists t.
      split; [|exact Ht]. destruct inRun; [reflexivity|]. now rewrite append_String.
    + destruct (IH false) as (t & E & Ht). rewrite E. exists t.
      split; [|exact Ht]. now rewrite append_String.
Qed.

Lemma trim_collapse_padded (before s after : string) :
  JS.every JS.isWhiteSpace before = true ->
  JS.every JS.isWhiteSpace after = true ->
  JS.trim (JS.collapseWhiteSpace false (before ++ s ++ after)%string)
  = JS.trim (JS.collapseWhiteSpace false s).
Proof.
  intros Hb Ha. unfold JS.trim. rewrite (collapse_leading before _ Hb).
  destruct (collapse_trailing s after Ha false) as (t & -> & Ht).
  exact (trim_padded "" (JS.collapseWhiteSpace false s) t eq_refl Ht).
Qed.

(** A text that starts with 5000 stable characters is cut after them. *)
Lemma isStable_spec (c : ascii) :
  Extractor.isStable c = true ->
  JS.isWhiteSpace c = false /\ JS.toLowerCase_char c = c.
Proof.
  unfold Extractor.isStable. rewrite andb_true_iff, negb_true_iff.
  intros [Hw Hl]. split; [exact Hw | now apply Ascii.eqb_eq].
Qed.

Lemma toLowerCase_stable (a b : string) :
  JS.every Extractor.isStable a = true ->
  JS.toLowerCase (a ++ b)%string = (a ++ JS.toLowerCase b)%string.
Proof.
  induction a as [|c a IH]; [reflexivity|]. cbn [JS.every].
  rewrite andb_true_iff. intros [Hc Ha]. apply isStable_spec in Hc.
  rewrite !append_String. unfold JS.toLowerCase in *. cbn [JS.map].
  now rewrite (proj2 Hc), IH.
Qed.

Lemma collapse_stable (c : ascii) (a b : string) :
  JS.every Extractor.isStable (String c a) = true ->
  forall inRun,
    JS.collapseWhiteSpace inRun (String c a ++ b)%string
    = (String c a ++ JS.collapseWhiteSpace false b)%string.
Proof.
  revert c. induction a as [|d a IH]; intros c Hca inRun;
    cbn [JS.every] in Hca; apply andb_true_iff in Hca; destruct Hca as [Hc Ha];
    apply isStable_spec in Hc; rewrite (append_String c);
    cbn [JS.collapseWhiteSpace]; rewrite (proj1 Hc), (append_String c).
  - reflexivity.
  - now rewrite (IH d Ha false).
Qed.

Lemma trimEnd_stable (a b : string) :
  JS.every Extractor.isStable a = true ->
  JS.trimEnd (a ++ b)%string = (a ++ JS.trimEnd b)%string.
Proof.
  induction a as [|c a IH]; [reflexivity|]. cbn [JS.every].
  rewrite andb_true_iff. intros [Hc Ha]. apply isStable_spec in Hc.
  rewrite !append_String. cbn [JS.trimEnd]. rewrite (IH Ha).
  destruct (a ++ JS.trimEnd b)%string; [now rewrite (proj1 Hc) | reflexivity].
Qed.

Lemma slice0_append (a b : string) :
  JS.slice0 (String.length a) (a ++ b)%string = a.
Proof.
  induction a as [|c a IH]; [now destruct b|].
  rewrite append_String. cbn [String.length JS.slice0]. now rewrite IH.
Qed.

Lemma normalizeContent_stable (a b : string) :
  String.length a = 5000%nat ->
  JS.every Extractor.isStable a = true ->
  Extractor.normalizeContent (a ++ b)%string = a.
Proof.
  intros Hlen Ha. unfold Extractor.normalizeContent.
  rewrite (toLowerCase_stable a b Ha).
  destruct a as [|c a]; [discriminate|].
  rewrite (collapse_stable c a _ Ha). unfold JS.trim.
  assert (Hc : JS.isWhiteSpace c = false).
  { cbn [JS.every] in Ha. apply andb_true_iff in Ha. destruct Ha as [Hc _].
    now apply isStable_spec in Hc. }
  rewrite append_String. cbn [JS.trimStart]. rewrite Hc. rewrite <- append_String.
  rewrite (trimEnd_stable _ _ Ha).
  change (Z.to_nat 5000) with 5000%nat. rewrite <- Hlen. apply slice0_append.
Qed.

(** C7: [computeContentHash] lower-cases the text, collapses every run of
    whitespace to one space, trims, keeps the first 5000 characters and
    returns the first 32 characters of the hexadecimal SHA-256 digest.  The
    result has 32 characters, all of them lower-case hexadecimal digits,
    for every input; inputs that differ in letter case only, or in the
    whitespace that makes up a run, or in whitespace before and after the
    text, have the same fingerprint, as "Hello   World" and "hello world"
    do; and of a text that starts with 5000 characters that are neither
    whitespace nor changed by lower-casing, the fingerprint is that of
    these 5000 characters, whatever follows them. *)
Theorem computeContentHash_spec :
  (forall contentText : string,
      Extractor.computeContentHash contentText
      = JS.slice0 32
          (Sha256.sha256Hex
             (JS.slice0 (Z.to_nat 5000)
                (JS.trim (JS.collapseWhiteSpace false (JS.toLowerCase contentText)))))
      /\ String.length (Extractor.computeContentHash contentText) = 32%nat
      /\ JS.every Extractor.isLowerHex (Extractor.computeContentHash contentText) = true)
  /\ (forall a b : string,
        JS.toLowerCase a = JS.toLowerCase b ->
        Extractor.computeContentHash a = Extractor.computeContentHash b)
  /\ (forall a ws ws' b : string,
        ws <> ""%string -> ws' <> ""%string ->
        JS.every JS.isWhiteSpace ws = true -> JS.every JS.isWhiteSpace ws' = true ->
        Extractor.computeContentHash (a ++ ws ++ b)
        = Extractor.computeContentHash (a ++ ws' ++ b))
  /\ (forall before a after : string,
        JS.every JS.isWhiteSpace before = true ->
        JS.every JS.isWhiteSpace after = true ->
        Extractor.computeContentHash (before ++ a ++ after)
        = Extractor.computeContentHash a)
  /\ (forall a b : string,
        String.length a = 5000%nat ->
        JS.every Extractor.isStable a = true ->
        Extractor.computeContentHash (a ++ b) = JS.slice0 32 (Sha256.sha256Hex a))
  /\ Extractor.computeContentHash (Examples.repeatX 5000 ++ "y")
     = Extractor.computeContentHash (Examples.repeatX 5000)
  /\ Extractor.computeContentHash "Hello   World"
     = Extractor.computeContentHash "hello world"
  /\ Extractor.computeContentHash "  hello world  "
     = Extractor.computeContentHash "hello world"
  /\ Extractor.computeContentHash "hello world" = "b94d27b9934d3e08a52e52d7da7dabfa"
  /\ Extractor.computeContentHash "" = "e3b0c44298fc1c149afbf4c8996fb924".
Proof.
  assert (Hcut : forall a b : string,
             String.length a = 5000%nat ->
             JS.every Extractor.isStable a = true ->
             Extractor.computeContentHash (a ++ b)
             = JS.slice0 32 (Sha256.sha256Hex a)).
  { intros a b Hlen Ha. unfold Extractor.computeContentHash.
    now rewrite normalizeContent_stable. }
  split; [|split; [|split; [|split; [|split; [|split; [|split; [|split; [|split]]]]]]]].
  - intros contentText. split; [reflexivity|]. split.
    + unfold Extractor.computeContentHash. rewrite length_slice0, length_sha256Hex.
      reflexivity.
    + apply every_slice0, every_sha256Hex.
  - intros a b Hab. unfold Extractor.computeContentHash, Extractor.normalizeContent.
    now rewrite Hab.
  - intros a ws ws' b Hne Hne' Hws Hws'.
    unfold Extractor.computeContentHash, Extractor.normalizeContent, JS.toLowerCase.
    rewrite !map_append.
    fold (JS.toLowerCase ws). fold (JS.toLowerCase ws').
    rewrite (toLowerCase_whitespace ws Hws), (toLowerCase_whitespace ws' Hws').
    now rewrite (collapse_runs _ ws ws').
  - intros before a after Hb Ha.
    unfold Extractor.computeContentHash, Extractor.normalizeContent, JS.toLowerCase.
    rewrite !map_append.
    fold (JS.toLowerCase before). fold (JS.toLowerCase after).
    rewrite (toLowerCase_whitespace before Hb), (toLowerCase_whitespace after Ha).
    now rewrite trim_collapse_padded.
  - exact Hcut.
  - assert (Hlen : String.length (Examples.repeatX 5000) = 5000%nat)
      by (vm_compute; reflexivity).
    assert (Hx : JS.every Extractor.isStable (Examples.repeatX 5000) = true)
      by (vm_compute; reflexivity).
    rewrite (Hcut _ "y"%string Hlen Hx).
    rewrite <- (append_empty_r (Examples.repeatX 5000)) at 2.
    now rewrite (Hcut _ ""%string Hlen Hx).
  - vm_compute. reflexivity.
  - vm_compute. reflexivity.
  - vm_compute. reflexivity.
  - vm_compute. reflexivity.
Qed.

(** ** The digest run *)

(** C9: when the run finds no saved article and selects no feed item, it
    ends normally after one update of its digest-run row, which then has
    status SUCCESS, no included article, no included feed item and the
    error text "No articles available"; nothing is extracted, no EPUB is
    built and no delivery call is made. *)
Theorem main_early_exit :
  forall (w : Cron.World) (userId : string),
    Cron.adminUser w = Some userId ->
    Cron.savedArticles w = [] ->
    Cron.selectedFeedItems w = [] ->
    let outcome := fst (Cron.main w Cron.initialState) in
    let final := snd (Cron.main w Cron.initialState) in
    outcome = Cron.Ok tt
    /\ existsb Cron.isDelivery (Cron.trace final) = false
    /\ Cron.trace final
       = [Cron.DbDigestRunCreate; Cron.FetchFeeds (Cron.allFeeds w);
          Cron.DbDigestRunUpdate; Cron.DisconnectDb]
    /\ exists run,
         Cron.digestRun final = Some run
         /\ Cron.status run = Cron.SUCCESS
         /\ Cron.includedArticleIds run = []
         /\ Cron.feedItemsIncluded run = []
         /\ Cron.error run = Some "No articles available"%string
         /\ Cron.emailMessageId run = None.
Proof.
  intros w userId Huser Hsaved Hselected outcome final.
  unfold outcome, final, Cron.main, Cron.tryFinally, Cron.tryCatch, Cron.body.
  rewrite Huser, Hsaved, Hselected. cbn.
  repeat split. eexists. repeat split.
Qed.

Lemma main_early_exit_witness :
  Cron.adminUser Examples.quietWorld = Some "admin"%string
  /\ Cron.savedArticles Examples.quietWorld = []
  /\ Cron.selectedFeedItems Examples.quietWorld = []
  /\ fst (Cron.main Examples.quietWorld Cron.initialState) = Cron.Ok tt
  /\ existsb Cron.isDelivery
       (Cron.trace (snd (Cron.main Examples.quietWorld Cron.initialState))) = false.
Proof.
  split; [reflexivity|]. split; [reflexivity|]. split; [reflexivity|].
  destruct (main_early_exit Examples.quietWorld "admin" eq_refl eq_refl eq_refl)
    as (H1 & H2 & _).
  split; [exact H1 | exact H2].
Defined.

(** With a saved article the same run builds the EPUB and delivers it. *)
Example main_delivers :
  Cron.trace (snd (Cron.main Examples.busyWorld Cron.initialState))
  = [Cron.DbDigestRunCreate; Cron.FetchFeeds [];
     Cron.GenerateEpub
       [Cron.mkEpubArticle "Saved" None None "https://example.com/saved" "<p>text</p>" 1];
     Cron.SendDigestToKindle "kindle-digest-2024-01-15.epub" 1;
     Cron.DbArticleUpdateMany ["a1"%string] 0;
     Cron.DbDigestRunUpdate; Cron.DisconnectDb].
Proof. reflexivity. Qed.

(** ** The tests of the repository, on the model *)

Example test_scoreKeyword :
  scoreKeyword "apple" "This article is about oranges" = 0
  /\ scoreKeyword "apple" "Apple announces new iPhone" = 2
  /\ scoreKeyword "ai" "AI tools are here to stay" = 2
  /\ scoreKeyword "ai" "training data" = 0
  /\ 0 < scoreKeyword "Apple" "APPLE IPHONE"
  /\ 0 < scoreKeyword "APPLE" "apple iphone"
  /\ scoreKeyword "model context protocol" "The model context protocol is new" = 2.
Proof. repeat split; reflexivity. Qed.

Example test_scoreFeedItem :
  let scored :=
    scoreFeedItem 0 (Examples.createItem "Apple uses AI for new iPhone features")
      [ ("apple", mkTopic ["apple"; "iphone"] None);
        ("ai", mkTopic ["ai"; "machine learning"] None) ]%string in
  matchedTopics scored = ["apple"; "ai"]%string
  /\ matchedKeywords scored = ["apple"; "iphone"; "ai"]%string
  /\ JS.same (score scored) (JS.Num 26).
Proof. repeat split; reflexivity. Qed.

Example test_scoreAndRankFeedItems :
  List.map (fun s => title (item s))
    (scoreAndRankFeedItems (fun _ => 0)
       [ Examples.createItem "Apple iPhone announcement";
         Examples.createItem "Weather forecast for today";
         Examples.createItem "Sports scores" ]
       [ ("tech", mkTopic ["apple"; "iphone"] None) ]%string)
  = ["Apple iPhone announcement"]%string
  /\ List.map (fun s => title (item s))
       (scoreAndRankFeedItems (fun _ => 0)
          [ Examples.createItem "Tech news";
            Examples.createItem "Apple iPhone Apple iPad Apple Watch";
            Examples.createItem "Apple" ]
          [ ("apple", mkTopic ["apple"; "iphone"; "ipad"; "watch"] None) ]%string)
     = ["Apple iPhone Apple iPad Apple Watch"; "Apple"]%string.
Proof. split; reflexivity. Qed.

Example test_selectDiverseItems :
  let items :=
    List.map (fun '(t, s, topic) => Examples.createScoredItem t s topic)
      [ ("Item 1", 100, "a"); ("Item 2", 90, "b"); ("Item 3", 80, "c");
        ("Item 4", 70, "d"); ("Item 5", 60, "e") ]%string in
  let same :=
    List.map (fun '(t, s) => Examples.createScoredItem t s "a")
      [ ("Item 1", 100); ("Item 2", 90); ("Item 3", 80); ("Item 4", 70) ]%string in
  selectDiverseItems (Examples.storeOf items) (Examples.arrayOf items) 3 10
  = [0; 1; 2]%nat
  /\ selectDiverseItems (Examples.storeOf same) (Examples.arrayOf same) 4 2
     = [0; 1; 2; 3]%nat.
Proof. split; reflexivity. Qed.

Example test_canonicalizeUrl :
  Extractor.canonicalizeUrl
    "https://example.com/article?utm_source=twitter&utm_medium=social&id=123"
  = Some "https://example.com/article?id=123"%string
  /\ Extractor.canonicalizeUrl "https://www.example.com/article"
     = Some "https://example.com/article"%string
  /\ Extractor.canonicalizeUrl "http://example.com/article"
     = Some "https://example.com/article"%string
  /\ Extractor.canonicalizeUrl "https://example.com/article/"
     = Some "https://example.com/article"%string
  /\ Extractor.canonicalizeUrl "https://example.com/article"
     = Some "https://example.com/article"%string
  /\ Extractor.canonicalizeUrl "https://EXAMPLE.COM/Article"
     = Some "https://example.com/Article"%string
  /\ Extractor.canonicalizeUrl
       "https://www.example.com/post?fbclid=abc&gclid=def&ref=homepage&page=1"
     = Some "https://example.com/post?page=1"%string
  /\ Extractor.canonicalizeUrl "not-a-valid-url" = Some "not-a-valid-url"%string
  /\ Extractor.canonicalizeUrl "https://www.example.com/path/to/article"
     = Some "https://example.com/path/to/article"%string
  /\ Extractor.canonicalizeUrl "https://example.com/"
     = Some "https://example.com/"%string
  /\ Extractor.canonicalizeUrl "http://www.Example.com/Article/"
     = Some "https://example.com/Article"%string.
Proof. repeat split; reflexivity. Qed.

Example test_computeContentHash :
  Extractor.computeContentHash "Hello   World" = Extractor.computeContentHash "Hello World"
  /\ Extractor.computeContentHash "  Hello World  "
     = Extractor.computeContentHash "Hello World"
  /\ Extractor.computeContentHash "Content A" <> Extractor.computeContentHash "Content B".
Proof. repeat split; vm_compute; congruence. Qed.

Example test_applyFallbackRanking :
  Llm.applyFallbackRanking [] = ∅
  /\ Llm.tier <$>
       Llm.applyFallbackRanking
         [ Examples.rankingArticle "rss1" false [];
           Examples.rankingArticle "saved1" true [];
           Examples.rankingArticle "rss2" false [] ] !! "saved1"%string
     = Some Llm.critical
  /\ Llm.tier <$>
       Llm.applyFallbackRanking
         [ Examples.rankingArticle "1" false ["topic1"%string];
           Examples.rankingArticle "2" false ["topic1"; "topic2"; "topic3"]%string;
           Examples.rankingArticle "3" false ["topic1"; "topic2"]%string ] !! "2"%string
     = Some Llm.critical
  /\ List.map (fun a => Llm.tier <$> Llm.applyFallbackRanking Examples.tenArticles
                                       !! Llm.id a) Examples.tenArticles
     = [ Some Llm.critical; Some Llm.critical; Some Llm.notable; Some Llm.notable;
         Some Llm.notable; Some Llm.related; Some Llm.related; Some Llm.related;
         Some Llm.related; Some Llm.related ].
Proof. repeat split; vm_compute; reflexivity. Qed.

Example test_generateFallbackSummaries :
  let summaries :=
    Llm.generateFallbackSummaries
      [ (Examples.createArticle "1" "This is a long excerpt for testing", Llm.critical);
        (Examples.createArticle "2" "Short excerpt", Llm.notable) ] in
  summaries !! "1"%string
  = Some {| Llm.summary := "This is a long excerpt for testing...";
            Llm.oneLiner := Some "Article 1"%string |}
  /\ summaries !! "2"%string
     = Some {| Llm.summary := "Short excerpt...";
               Llm.oneLiner := Some "Article 2"%string |}.
Proof. split; vm_compute; reflexivity. Qed.

(** * Further properties of the pipeline *)

(** ** Recency *)

Lemma ageHours_antitone (now t1 t2 : Z) :
  (t1 <= t2)%Z -> (ageHours now t2 <= ageHours now t1)%Q.
Proof.
  intros H. unfold ageHours, Qdiv.
  apply Qmult_le_compat_r.
  - rewrite <- Zle_Qle. lia.
  - discriminate.
Qed.

Lemma calculateRecencyScore_range (now : Z) (date : option JS.Date) :
  date <> Some JS.Invalid ->
  exists r, calculateRecencyScore now date = JS.Num r /\ (0 <= r <= 100)%Q.
Proof.
  intros Hvalid. destruct date as [[t|]|]; [|contradiction|].
  - destruct (calculateRecencyScore_cases now t) as (r & -> & Hnew & Hold & Hmid).
    exists r. split; [reflexivity|]. cbv zeta in *.
    destruct (Qlt_le_dec 6 (ageHours now t)) as [H6|H6];
      [|rewrite (Hnew H6); split; discriminate].
    destruct (Qlt_le_dec (ageHours now t) 72) as [H72|H72];
      [|rewrite (Hold H72); split; discriminate].
    rewrite (Hmid (conj H6 H72)).
    generalize dependent (ageHours now t). intros age _ _ _ H6 H72.
    assert (E : (100 / 66 == 50 # 33)%Q) by reflexivity. rewrite E.
    split; lra.
  - exists 0%Q. split; [reflexivity|]. split; discriminate.
Qed.

(** X1: for an item without a date or with a valid date the recency
    score is a number between 0 and 100, and for a date that could not be
    read it is [NaN]; of two items with valid dates scored at the same
    instant the one published later never has the lower recency score; and
    an item dated now or in the future has recency 100. *)
Theorem calculateRecencyScore_bounds_monotone :
  (forall (now : Z) (date : option JS.Date),
      date <> Some JS.Invalid ->
      exists r, calculateRecencyScore now date = JS.Num r /\ (0 <= r <= 100)%Q)
  /\ (forall now : Z, calculateRecencyScore now (Some JS.Invalid) = JS.NaN)
  /\ (forall now t1 t2 : Z,
        (t1 <= t2)%Z ->
        JS.le (calculateRecencyScore now (Some (JS.Valid t1)))
              (calculateRecencyScore now (Some (JS.Valid t2))) = true)
  /\ (forall now t : Z,
        (now <= t)%Z ->
        JS.same (calculateRecencyScore now (Some (JS.Valid t))) (JS.Num 100)).
Proof.
  split; [apply calculateRecencyScore_range|]. split; [reflexivity|]. split.
  - intros now t1 t2 Ht.
    pose proof (ageHours_antitone now t1 t2 Ht) as Hage.
    destruct (calculateRecencyScore_range now (Some (JS.Valid t1)) ltac:(discriminate))
      as (r1' & E1' & _ & R1).
    destruct (calculateRecencyScore_range now (Some (JS.Valid t2)) ltac:(discriminate))
      as (r2' & E2' & R2 & _).
    destruct (calculateRecencyScore_cases now t1) as (r1 & E1 & Hnew1 & Hold1 & Hmid1).
    destruct (calculateRecencyScore_cases now t2) as (r2 & E2 & Hnew2 & Hold2 & Hmid2).
    rewrite E1 in E1'. rewrite E2 in E2'. injection E1' as <-. injection E2' as <-.
    rewrite E1, E2. apply le_Num.
    cbv zeta in *.
    destruct (Qlt_le_dec 6 (ageHours now t2)) as [L2|L2];
      [|rewrite (Hnew2 L2); exact R1].
    destruct (Qlt_le_dec (ageHours now t1) 72) as [U1|U1];
      [|rewrite (Hold1 U1); exact R2].
    assert (L1 : (6 < ageHours now t1)%Q) by (eapply Qlt_le_trans; eassumption).
    assert (U2 : (ageHours now t2 < 72)%Q) by (eapply Qle_lt_trans; eassumption).
    rewrite (Hmid1 (conj L1 U1)), (Hmid2 (conj L2 U2)).
    clear -Hage.
    generalize dependent (ageHours now t1). generalize dependent (ageHours now t2).
    intros a2 a1 Hage.
    assert (E : (100 / 66 == 50 # 33)%Q) by reflexivity. rewrite E. lra.
  - intros now t Ht.
    destruct (calculateRecencyScore_cases now t) as (r & -> & Hnew & _).
    cbn [JS.same]. apply Hnew.
    apply Qle_trans with (ageHours now now).
    + now apply ageHours_antitone.
    + unfold ageHours. rewrite Z.sub_diag. discriminate.
Qed.

(** ** Matched keywords and score bounds *)

Lemma includes_In_string (s : string) (arr : list string) :
  JS.includes s arr = true <-> In s arr.
Proof.
  unfold JS.includes. rewrite existsb_exists. split.
  - intros (x & Hx & E). apply String.eqb_eq in E. now subst.
  - intros H. exists s. split; [assumption | apply String.eqb_refl].
Qed.

Lemma scoreTopic_keywords (textToSearch : string) (topicKeywords : list string)
    (matched : list string) :
  let result := scoreTopic textToSearch topicKeywords matched in
  (List.NoDup matched -> List.NoDup (snd result))
  /\ (forall k, In k (snd result)
                <-> In k matched
                    \/ (In k topicKeywords /\ 0 < scoreKeyword k textToSearch)).
Proof.
  unfold scoreTopic.
  match goal with |- context [fold_left ?f _ _] => set (step := f) end.
  cbv zeta.
  enough (Hgen : forall acc,
             (List.NoDup matched
              -> List.NoDup (snd (fold_left step topicKeywords (acc, matched))))
             /\ (forall k, In k (snd (fold_left step topicKeywords (acc, matched)))
                           <-> In k matched
                               \/ (In k topicKeywords
                                   /\ 0 < scoreKeyword k textToSearch)))
    by apply Hgen.
  revert matched.
  induction topicKeywords as [|keyword rest IH]; intros matched acc;
    cbn [fold_left snd].
  - split; [auto|]. intros k. cbn [In]. tauto.
  - assert (Estep : step (acc, matched) keyword
                    = if 0 <? scoreKeyword keyword textToSearch
                      then (acc + scoreKeyword keyword textToSearch,
                            if negb (JS.includes keyword matched)
                            then matched ++ [keyword] else matched)
                      else (acc, matched)) by reflexivity.
    rewrite Estep. clear Estep.
    destruct (0 <? scoreKeyword keyword textToSearch) eqn:Hpos.
    + apply Z.ltb_lt in Hpos.
      destruct (JS.includes keyword matched) eqn:Hinc; cbn [negb].
      * apply includes_In_string in Hinc.
        destruct (IH matched (acc + scoreKeyword keyword textToSearch)) as [Hnd Hin].
        split; [exact Hnd|]. intros k. rewrite Hin. cbn [In].
        split; [tauto|]. intros [H|[[<-|H] Hk]]; auto.
      * assert (Hnot : ~ In keyword matched).
        { intros H. apply includes_In_string in H. congruence. }
        destruct (IH (matched ++ [keyword]) (acc + scoreKeyword keyword textToSearch))
          as [Hnd Hin].
        split.
        -- intros H. apply Hnd. apply List.NoDup_app; repeat split.
           ++ assumption.
           ++ repeat constructor. intros [].
           ++ intros x Hx [<-|[]]. contradiction.
        -- intros k. rewrite Hin, List.in_app_iff. cbn [In].
           split; [intros [[H|[<-|[]]]|[H Hk]]; auto | intros [H|[[<-|H] Hk]]; auto].
    + apply Z.ltb_ge in Hpos.
      destruct (IH matched acc) as [Hnd Hin].
      split; [exact Hnd|]. intros k. rewrite Hin. cbn [In].
      split; [tauto|]. intros [H|[[<-|H] Hk]]; auto. lia.
Qed.

Lemma scoreTopics_keywords (textToSearch : string) (interests : DigestInterests) :
  let matched := snd (scoreTopics textToSearch interests) in
  List.NoDup matched
  /\ (forall k, In k matched
                <-> exists name topic,
                      In (name, topic) interests /\ In k (keywords topic)
                      /\ 0 < scoreKeyword k textToSearch).
Proof.
  unfold scoreTopics.
  assert (Hgen : forall (total : Z) (topics matched : list string),
             List.NoDup matched ->
             let result :=
               snd (fold_left
                      (fun '(totalScore, matchedTopics, matchedKeywords)
                           '(topicName, topic) =>
                         let '(topicScore, matchedKeywords) :=
                           scoreTopic textToSearch (keywords topic) matchedKeywords in
                         if 0 <? topicScore
                         then (totalScore + topicScore, matchedTopics ++ [topicName],
                               matchedKeywords)
                         else (totalScore, matchedTopics, matchedKeywords))
                      interests (total, topics, matched)) in
             List.NoDup result
             /\ (forall k, In k result
                           <-> In k matched
                               \/ exists name topic,
                                    In (name, topic) interests /\ In k (keywords topic)
                                    /\ 0 < scoreKeyword k textToSearch)).
  { induction interests as [|[name topic] rest IH]; intros total topics matched Hnd;
      cbn [fold_left snd].
    - split; [assumption|]. intros k. split; [auto|].
      intros [H|(? & ? & [] & _)]. assumption.
    - pose proof (scoreTopic_keywords textToSearch (keywords topic) matched) as Htopic.
      cbv zeta in Htopic.
      destruct (scoreTopic textToSearch (keywords topic) matched)
        as [topicScore matched'].
      cbn [snd] in Htopic. destruct Htopic as [Hnd' Hin'].
      assert (Hstep : forall total' topics',
                 let result :=
                   snd (fold_left
                          (fun '(totalScore, matchedTopics, matchedKeywords)
                               '(topicName, topic) =>
                             let '(topicScore, matchedKeywords) :=
                               scoreTopic textToSearch (keywords topic) matchedKeywords in
                             if 0 <? topicScore
                             then (totalScore + topicScore, matchedTopics ++ [topicName],
                                   matchedKeywords)
                             else (totalScore, matchedTopics, matchedKeywords))
                          rest (total', topics', matched')) in
                 List.NoDup result
                 /\ (forall k, In k result
                               <-> In k matched
                                   \/ exists name0 topic0,
                                        In (name0, topic0) ((name, topic) :: rest)
                                        /\ In k (keywords topic0)
                                        /\ 0 < scoreKeyword k textToSearch)).
      { intros total' topics'.
        destruct (IH total' topics' matched' (Hnd' Hnd)) as [Hr Hk].
        split; [exact Hr|]. intros k. rewrite Hk, Hin'. cbn [In]. split.
        - intros [[H|[H1 H2]]|(n0 & t0 & H0 & H1 & H2)]; [auto| |].
          + right. exists name, topic. auto.
          + right. exists n0, t0. auto.
        - intros [H|(n0 & t0 & [E|H0] & H1 & H2)]; [auto| |].
          + inversion E; subst. auto.
          + right. exists n0, t0. auto. }
      destruct (0 <? topicScore); apply Hstep. }
  destruct (Hgen 0 [] [] (List.NoDup_nil _)) as [Hnd Hin].
  split; [exact Hnd|]. intros k. rewrite Hin. cbn [In]. tauto.
Qed.

Lemma scoreFeedItem_matchedKeywords (now : Z) (item : FeedItem)
    (interests : DigestInterests) :
  matchedKeywords (scoreFeedItem now item interests)
  = snd (scoreTopics (searchText item) interests).
Proof.
  unfold scoreFeedItem. fold (searchText item).
  now destruct (scoreTopics _ _) as [[? ?] ?].
Qed.

(** X2: the matched keywords of a scored item are listed once each, and
    they are exactly the keywords of the configured topics that score
    above zero on the searched text. *)
Theorem scoreFeedItem_matched_keywords :
  forall (now : Z) (item : FeedItem) (interests : DigestInterests),
    let scored := scoreFeedItem now item interests in
    List.NoDup (matchedKeywords scored)
    /\ (forall keyword,
          In keyword (matchedKeywords scored)
          <-> exists topicName topic,
                In (topicName, topic) interests
                /\ In keyword (keywords topic)
                /\ 0 < scoreKeyword keyword (searchText item)).
Proof.
  intros now item interests scored. unfold scored.
  rewrite scoreFeedItem_matchedKeywords. apply scoreTopics_keywords.
Qed.

Lemma scoreKeyword_even (keyword text : string) :
  exists m, 0 <= m <= 5 /\ scoreKeyword keyword text = 2 * m.
Proof.
  rewrite scoreKeyword_occurrences.
  set (n := Z.of_nat _). exists (Z.min 5 n). lia.
Qed.

Lemma topicScore_bounds (textToSearch : string) (topic : InterestTopic) :
  0 <= topicScore textToSearch topic <= 10 * Z.of_nat (List.length (keywords topic))
  /\ (0 < topicScore textToSearch topic -> 2 <= topicScore textToSearch topic)
  /\ (0 < topicScore textToSearch topic
      <-> exists k, In k (keywords topic) /\ 0 < scoreKeyword k textToSearch).
Proof.
  unfold topicScore, sumZ.
  induction (keywords topic) as [|k rest IH]; cbn [List.map fold_right List.length In].
  - split; [lia|]. split; [lia|]. split; [lia | intros (? & [] & _)].
  - destruct IH as (Hb & H2 & Hex).
    destruct (scoreKeyword_even k textToSearch) as (m & Hm & Ek).
    split; [lia|]. split; [lia|]. split.
    + intros Hpos. destruct (Z.eq_dec m 0) as [->|Hm0].
      * destruct Hex as [Hex _]. destruct Hex as (k' & Hk' & Hp); [lia|].
        exists k'. auto.
      * exists k. split; [auto | lia].
    + intros (k' & [<-|Hk'] & Hp); [lia|].
      assert (0 < fold_right Z.add 0
                    (List.map (fun keyword => scoreKeyword keyword textToSearch) rest))
        by (apply Hex; eauto).
      lia.
Qed.

Lemma totalKeywordScore_bounds (textToSearch : string) (interests : DigestInterests) :
  0 <= totalKeywordScore textToSearch interests
       <= 10 * Z.of_nat (List.length (flat_map (fun p => keywords (snd p)) interests))
  /\ (matchedTopicNames textToSearch interests <> []
      -> 2 <= totalKeywordScore textToSearch interests).
Proof.
  unfold totalKeywordScore, matchedTopicNames, sumZ.
  induction interests as [|[name topic] rest IH];
    cbn [List.map fold_right flat_map List.filter snd].
  - split; [cbn; lia | congruence].
  - destruct IH as [Hb H2].
    destruct (topicScore_bounds textToSearch topic) as (Tb & T2 & _).
    rewrite List.length_app, Nat2Z.inj_add.
    destruct (0 <? topicScore textToSearch topic) eqn:Hpos.
    + apply Z.ltb_lt in Hpos. split; [lia|]. intros _. specialize (T2 Hpos). lia.
    + split; [lia|]. intros Hne. specialize (H2 Hne). lia.
Qed.

Lemma matchedTopicNames_nil (textToSearch : string) (interests : DigestInterests) :
  matchedTopicNames textToSearch interests = []
  <-> forall name topic k,
        In (name, topic) interests -> In k (keywords topic) ->
        scoreKeyword k textToSearch <= 0.
Proof.
  unfold matchedTopicNames.
  induction interests as [|[name topic] rest IH]; cbn [List.filter List.map In].
  - split; [intros _ ? ? ? [] | reflexivity].
  - destruct (topicScore_bounds textToSearch topic) as (_ & _ & Hex).
    destruct (0 <? topicScore textToSearch topic) eqn:Hpos.
    + apply Z.ltb_lt in Hpos. cbn [List.map]. split; [discriminate|].
      intros Hall. exfalso. apply Hex in Hpos. destruct Hpos as (k & Hk & Hp).
      specialize (Hall name topic k (or_introl eq_refl) Hk). lia.
    + apply Z.ltb_ge in Hpos. rewrite IH. split.
      * intros Hall n t k [E|Hin] Hk; [inversion E; subst|eauto].
        destruct (Z.le_gt_cases (scoreKeyword k textToSearch) 0) as [|Hgt];
          [assumption|exfalso].
        assert (0 < topicScore textToSearch t) by (apply Hex; exists k; split; [auto|lia]).
        lia.
      * intros Hall n t k Hin Hk. eapply Hall; eauto.
Qed.

(** X3: bounds on a scored item.  For an item without a date or with a
    valid date, the recency score is a number in [0, 100] and the final
    score is a number that is at least 0, at most 10 points per configured
    keyword plus 20, and at least 2 when a topic matched; for an item
    whose date could not be read both are [NaN]; and an item has no
    matched topic exactly when it has no matched keyword. *)
Theorem scoreFeedItem_bounds :
  forall (now : Z) (item : FeedItem) (interests : DigestInterests),
    let scored := scoreFeedItem now item interests in
    let keywordCount :=
      Z.of_nat (List.length (flat_map (fun p => keywords (snd p)) interests)) in
    (Rss.validDate item ->
     exists r s,
       recencyScore scored = JS.Num r /\ score scored = JS.Num s
       /\ (0 <= r <= 100)%Q
       /\ (0 <= s <= inject_Z (10 * keywordCount) + 20)%Q
       /\ (matchedTopics scored <> [] -> (2 <= s)%Q))
    /\ (pubDate item = Some JS.Invalid ->
        recencyScore scored = JS.NaN /\ score scored = JS.NaN)
    /\ (matchedTopics scored = [] <-> matchedKeywords scored = []).
Proof.
  intros now item interests scored keywordCount.
  pose proof (scoreTopics_fold (searchText item) interests 0 [] []) as Hfold.
  pose proof (scoreTopics_keywords (searchText item) interests) as Hkw.
  pose proof (totalKeywordScore_bounds (searchText item) interests) as [Hb H2].
  pose proof (matchedTopicNames_nil (searchText item) interests) as Hnil.
  pose proof (calculateRecencyScore_range now (pubDate item)) as Hr.
  fold keywordCount in Hb.
  unfold scored, scoreFeedItem. fold (searchText item).
  unfold scoreTopics in *. cbv zeta in Hfold, Hkw.
  destruct (fold_left _ interests (0, [], [])) as [[total topics] matched].
  cbn [fst snd] in Hfold, Hkw. destruct Hfold as [Htotal Htopics].
  cbn [List.app] in Htopics. rewrite Z.add_0_l in Htotal. subst total topics.
  cbn [Interests.item recencyScore score matchedTopics matchedKeywords].
  destruct Hkw as [_ Hin].
  set (tks := totalKeywordScore (searchText item) interests) in *.
  assert (Hq0 : (0 <= inject_Z tks)%Q) by (rewrite <- (Zle_Qle 0); lia).
  assert (Hq1 : (inject_Z tks <= inject_Z (10 * keywordCount))%Q)
    by (rewrite <- Zle_Qle; lia).
  split; [|split].
  - intros Hvalid. destruct (Hr Hvalid) as (r & -> & Hrange).
    exists r. eexists. split; [reflexivity|]. split; [reflexivity|].
    split; [exact Hrange|]. split; [split; lra|].
    intros Hne. specialize (H2 Hne).
    assert (Hq2 : (2 <= inject_Z tks)%Q) by (rewrite <- (Zle_Qle 2); lia).
    lra.
  - intros ->. split; reflexivity.
  - rewrite Hnil. split.
    + intros Hall. destruct matched as [|k rest]; [reflexivity|exfalso].
      destruct (Hin k) as [(n & t & Hnt & Hk & Hp) _]; [now left|].
      specialize (Hall n t k Hnt Hk). lia.
    + intros -> n t k Hnt Hk.
      destruct (Z.le_gt_cases (scoreKeyword k (searchText item)) 0) as [|Hgt];
        [assumption|exfalso].
      destruct (Hin k) as [_ Hback]. apply Hback. exists n, t. repeat split; auto.
Qed.

(** ** Ranking: edge cases *)

Lemma mapi_length {A B : Type} (f : nat -> A -> B) (i : nat) (l : list A) :
  List.length (mapi f i l) = List.length l.
Proof.
  revert i. induction l as [|x l IH]; intros i; cbn; [reflexivity|]. now rewrite IH.
Qed.

Lemma scoreFeedItem_no_interests (now : Z) (item : FeedItem) :
  matchedTopics (scoreFeedItem now item []) = [].
Proof. reflexivity. Qed.

(** X4: without configured interests no feed item is ranked, whatever
    the feeds deliver; an empty list of items gives an empty ranking; and
    the ranking never has more entries than there are items. *)
Theorem scoreAndRankFeedItems_edges :
  (forall (clock : nat -> Z) (items : list FeedItem),
      scoreAndRankFeedItems clock items [] = [])
  /\ (forall (clock : nat -> Z) (interests : DigestInterests),
        scoreAndRankFeedItems clock [] interests = [])
  /\ (forall (clock : nat -> Z) (items : list FeedItem) (interests : DigestInterests),
        (List.length (scoreAndRankFeedItems clock items interests)
         <= List.length items)%nat).
Proof.
  split; [|split].
  - intros clock items. unfold scoreAndRankFeedItems.
    assert (E : forall i,
               List.filter
                 (fun item => (0 <? List.length (matchedTopics item))%nat)
                 (mapi (fun i item => scoreFeedItem (clock i) item []) i items) = []).
    { induction items as [|x items IH]; intros i; [reflexivity|].
      cbn [mapi List.filter]. rewrite scoreFeedItem_no_interests. cbn. apply IH. }
    now rewrite E.
  - reflexivity.
  - intros clock items interests. unfold scoreAndRankFeedItems.
    rewrite (Permutation_length (sort_perm _ _)).
    etransitivity; [apply List.filter_length_le|]. now rewrite mapi_length.
Qed.

(** ** Keyword scoring: short texts *)

Lemma string_length_list (s : string) :
  List.length (list_ascii_of_string s) = String.length s.
Proof. induction s as [|c r IH]; cbn; congruence. Qed.

Lemma length_JS_map (f : ascii -> ascii) (s : string) :
  String.length (JS.map f s) = String.length s.
Proof. induction s as [|c r IH]; cbn; congruence. Qed.

Lemma occurrences_sound (keyword text : string) (p : nat) :
  In p (occurrences (normalizeText keyword) (normalizeText text)) ->
  occursAt (normalizeText keyword) (normalizeText text) p.
Proof.
  intros Hp. rewrite occurrences_scanFrom in Hp. apply scan_sound in Hp.
  apply matchAt_occursAt; [apply normalizeText_kept..|]. apply Hp.
Qed.

Lemma isBoundary_word (text : list ascii) (p : nat) :
  RegExp.isBoundary text p = true ->
  (exists c, nth_error text p = Some c) \/ (exists q c, p = S q /\ nth_error text q = Some c).
Proof.
  unfold RegExp.isBoundary. intros H.
  destruct (nth_error text p) as [c|] eqn:E; [left; eauto|].
  destruct p as [|q]; cbn [RegExp.charBefore] in H; [discriminate|].
  destruct (nth_error text q) as [c|] eqn:E'; [right; eauto | discriminate].
Qed.

(** X5: an empty text scores 0 for every keyword (the empty keyword
    included), and so does every text whose normalized form is shorter
    than the normalized keyword. *)
Theorem scoreKeyword_short_text :
  (forall keyword : string, scoreKeyword keyword "" = 0)
  /\ (forall keyword text : string,
        (String.length (normalizeText text) < String.length (normalizeText keyword))%nat ->
        scoreKeyword keyword text = 0).
Proof.
  assert (Hnone : forall keyword text,
             (forall p, ~ occursAt (normalizeText keyword) (normalizeText text) p) ->
             scoreKeyword keyword text = 0).
  { intros keyword text Hno. rewrite scoreKeyword_occurrences.
    destruct (occurrences _ _) as [|p rest] eqn:E; [reflexivity|exfalso].
    apply (Hno p). apply occurrences_sound. rewrite E. now left. }
  split.
  - intros keyword. apply Hnone. intros p [Hb _].
    apply isBoundary_word in Hb. cbn in Hb.
    destruct Hb as [[c Hc]|(q & c & _ & Hc)].
    + destruct p; discriminate.
    + destruct q; discriminate.
  - intros keyword text Hlen. apply Hnone. intros p (_ & Hpre & _).
    apply (f_equal (@List.length ascii)) in Hpre.
    rewrite List.length_firstn, List.length_skipn, !string_length_list in Hpre. lia.
Qed.

(** ** Diversity selection: sizes, order and the per-topic cap *)

Section SelectMore.
Variable store : loc -> ScoredFeedItem.

Lemma admittedCount_app (topic : string) (a b : list loc) :
  admittedCount store topic (a ++ b)
  = admittedCount store topic a + admittedCount store topic b.
Proof.
  unfold admittedCount. rewrite List.filter_app, List.length_app. lia.
Qed.

Lemma admittedCount_nonneg (topic : string) (l : list loc) :
  0 <= admittedCount store topic l.
Proof. unfold admittedCount. lia. Qed.

(** The first pass only appends, takes its items from the input, stops at
    [maxItems] and keeps every topic within the cap. *)
Lemma diversityPass_extends (maxItems maxPerTopic : Z) (scoredItems : list loc) :
  forall selected topicCounts,
    countsAgree store topicCounts selected ->
    (forall topic, admittedCount store topic selected <= Z.max 0 maxPerTopic) ->
    exists extra,
      fst (diversityPass store maxItems maxPerTopic scoredItems selected topicCounts)
      = selected ++ extra
      /\ incl extra scoredItems
      /\ Z.of_nat (List.length (selected ++ extra))
         <= Z.max (Z.of_nat (List.length selected)) maxItems
      /\ (forall topic,
            admittedCount store topic (selected ++ extra) <= Z.max 0 maxPerTopic).
Proof.
  induction scoredItems as [|item rest IH]; intros selected topicCounts Hagree Hcap.
  - exists []. cbn [diversityPass fst]. rewrite List.app_nil_r.
    repeat split; auto; [intros ? []|lia].
  - destruct (Z.of_nat (List.length selected) >=? maxItems) eqn:Hfull.
    + exists []. cbn [diversityPass]. rewrite Hfull. cbn [fst].
      rewrite List.app_nil_r. repeat split; auto; [intros ? []|lia].
    + destruct (diversityPass_turn store maxItems maxPerTopic item rest selected
                  topicCounts Hagree Hfull)
        as [[Hyes (topicCounts' & Hagree' & ->)]|[Hno ->]].
      * rewrite Z.geb_leb in Hfull; apply Z.leb_gt in Hfull.
        apply andb_true_iff in Hyes. destruct Hyes as [_ Hroom].
        apply Z.ltb_lt in Hroom.
        destruct (IH (selected ++ [item]) topicCounts' Hagree')
          as (extra & E & Hincl & Hlen & Hcap').
        { intros topic. rewrite admittedCount_snoc.
          destruct (String.eqb_spec (primaryTopic store item) topic) as [<-|_].
          - lia.
          - specialize (Hcap topic). lia. }
        exists (item :: extra). rewrite E, <- List.app_assoc. cbn [List.app].
        repeat split.
        -- intros x [<-|Hx]; [now left | right; now apply Hincl].
        -- rewrite <- List.app_assoc in Hlen. cbn [List.app] in Hlen.
           rewrite List.length_app in Hlen |- *. cbn [List.length] in Hlen |- *.
           rewrite List.length_app in Hlen. cbn [List.length] in Hlen. lia.
        -- intros topic. specialize (Hcap' topic).
           now rewrite <- List.app_assoc in Hcap'.
      * destruct (IH selected topicCounts Hagree Hcap)
          as (extra & E & Hincl & Hlen & Hcap').
        exists extra. repeat split; auto.
        intros x Hx. right. now apply Hincl.
Qed.

Lemma diversityPass_start (maxItems maxPerTopic : Z) (scoredItems : list loc) :
  exists pass1,
    fst (diversityPass store maxItems maxPerTopic scoredItems [] ∅) = pass1
    /\ incl pass1 scoredItems
    /\ Z.of_nat (List.length pass1) <= Z.max 0 maxItems
    /\ (forall topic, admittedCount store topic pass1 <= Z.max 0 maxPerTopic).
Proof.
  destruct (diversityPass_extends maxItems maxPerTopic scoredItems [] ∅)
    as (extra & E & Hincl & Hlen & Hcap).
  { apply countsAgree_empty. }
  { intros topic. unfold admittedCount. cbn [List.filter List.length]. lia. }
  exists extra. cbn [List.app List.length] in *. auto.
Qed.

Lemma specPass2_extends (maxItems : Z) (scoredItems : list loc) :
  forall selected,
    exists extra,
      specPass2 maxItems scoredItems selected = selected ++ extra
      /\ incl extra scoredItems
      /\ Z.of_nat (List.length (selected ++ extra))
         <= Z.max (Z.of_nat (List.length selected)) maxItems.
Proof.
  induction scoredItems as [|item rest IH]; intros selected; cbn [specPass2].
  - exists []. rewrite List.app_nil_r. repeat split; [intros ? []|lia].
  - destruct (Z.of_nat (List.length selected) >=? maxItems) eqn:Hfull.
    + exists []. rewrite List.app_nil_r. repeat split; [intros ? []|lia].
    + rewrite Z.geb_leb in Hfull; apply Z.leb_gt in Hfull.
      destruct (in_dec Nat.eq_dec item selected) as [Hin|Hnin].
      * destruct (IH selected) as (extra & E & Hincl & Hlen).
        exists extra. repeat split; auto. intros x Hx. right. now apply Hincl.
      * destruct (IH (selected ++ [item])) as (extra & E & Hincl & Hlen).
        exists (item :: extra). rewrite E, <- List.app_assoc. cbn [List.app].
        repeat split.
        -- intros x [<-|Hx]; [now left | right; now apply Hincl].
        -- rewrite <- List.app_assoc in Hlen. cbn [List.app] in Hlen.
           rewrite List.length_app in Hlen |- *. cbn [List.length] in Hlen |- *.
           rewrite List.length_app in Hlen. cbn [List.length] in Hlen. lia.
Qed.

Lemma specPass2_all_selected (maxItems : Z) (scoredItems : list loc) :
  forall selected,
    incl scoredItems selected ->
    specPass2 maxItems scoredItems selected = selected.
Proof.
  induction scoredItems as [|item rest IH]; intros selected Hincl; cbn [specPass2];
    [reflexivity|].
  destruct (Z.of_nat (List.length selected) >=? maxItems); [reflexivity|].
  destruct (in_dec Nat.eq_dec item selected) as [Hin|Hnin].
  - apply IH. intros x Hx. apply Hincl. now right.
  - exfalso. apply Hnin, Hincl. now left.
Qed.

(** When no topic has more items than the cap allows, the first pass takes
    the items in order until [maxItems] is reached. *)
Lemma specPass1_slack (maxItems maxPerTopic : Z) (scoredItems : list loc) :
  forall selected,
    (forall topic,
        admittedCount store topic (selected ++ scoredItems) <= maxPerTopic) ->
    specPass1 store maxItems maxPerTopic scoredItems selected
    = selected
      ++ firstn (Z.to_nat maxItems - List.length selected) scoredItems.
Proof.
  induction scoredItems as [|item rest IH]; intros selected Hcap; cbn [specPass1].
  - rewrite List.firstn_nil. now rewrite List.app_nil_r.
  - destruct (Z.of_nat (List.length selected) >=? maxItems) eqn:Hfull.
    + apply Z.geb_le in Hfull.
      replace (Z.to_nat maxItems - List.length selected)%nat with 0%nat by lia.
      cbn [firstn]. now rewrite List.app_nil_r.
    + rewrite Z.geb_leb in Hfull; apply Z.leb_gt in Hfull.
      assert (Hroom : (admittedCount store (primaryTopic store item) selected
                       <? maxPerTopic) = true).
      { apply Z.ltb_lt. specialize (Hcap (primaryTopic store item)).
        rewrite admittedCount_app in Hcap.
        change (item :: rest) with ([item] ++ rest) in Hcap.
        rewrite admittedCount_app in Hcap.
        pose proof (admittedCount_nonneg (primaryTopic store item) rest).
        unfold admittedCount at 2 in Hcap. cbn [List.filter] in Hcap.
        rewrite String.eqb_refl in Hcap. cbn [List.length] in Hcap. lia. }
      rewrite Hroom, IH.
      * rewrite <- List.app_assoc, List.length_app. cbn [List.app List.length].
        replace (Z.to_nat maxItems - List.length selected)%nat
          with (S (Z.to_nat maxItems - (List.length selected + 1)))%nat by lia.
        reflexivity.
      * intros topic. rewrite <- List.app_assoc. apply Hcap.
Qed.

End SelectMore.

Lemma selectDiverseItems_bound (store : loc -> ScoredFeedItem) (scoredItems : list loc)
    (maxItems maxPerTopic : Z) :
  Z.of_nat (List.length (selectDiverseItems store scoredItems maxItems maxPerTopic))
  <= Z.max 0 maxItems
  /\ incl (selectDiverseItems store scoredItems maxItems maxPerTopic) scoredItems.
Proof.
  unfold selectDiverseItems.
  destruct (diversityPass_start store maxItems maxPerTopic scoredItems)
    as (pass1 & E1 & Hincl1 & Hlen1 & _).
  destruct (diversityPass store maxItems maxPerTopic scoredItems [] ∅)
    as [selected topicCounts].
  cbn [fst] in E1. subst pass1.
  destruct (Z.of_nat (List.length selected) <? maxItems) eqn:Hmore.
  - rewrite fillPass_specPass2.
    destruct (specPass2_extends maxItems scoredItems selected)
      as (extra2 & E2 & Hincl2 & Hlen2).
    rewrite E2. split; [lia|].
    intros x Hx. apply List.in_app_or in Hx. destruct Hx; auto.
  - split; [lia | assumption].
Qed.

(** X6: the selection never has more than [maxItems] items (none at
    all when [maxItems] is zero or negative), and every selected item
    comes from the input; this holds for every input list, also one that
    holds an item twice, and for every [maxPerTopic]. *)
Theorem selectDiverseItems_size :
  forall (store : loc -> ScoredFeedItem) (scoredItems : list loc)
         (maxItems maxPerTopic : Z),
    let selected := selectDiverseItems store scoredItems maxItems maxPerTopic in
    Z.of_nat (List.length selected) <= Z.max 0 maxItems
    /\ incl selected scoredItems
    /\ (maxItems <= 0 -> selected = []).
Proof.
  intros store scoredItems maxItems maxPerTopic selected.
  destruct (selectDiverseItems_bound store scoredItems maxItems maxPerTopic)
    as [Hlen Hincl].
  fold selected in Hlen, Hincl.
  repeat split; [exact Hlen | exact Hincl |].
  intros Hneg. destruct selected; [reflexivity|]. cbn [List.length] in Hlen. lia.
Qed.

(** X8: when no primary topic is the name of a member of
    [Object.prototype] and none occurs more often in the input than the
    cap allows, the cap has no effect: the selection is the first
    [maxItems] items of the input, in order. *)
Theorem selectDiverseItems_cap_slack :
  forall (store : loc -> ScoredFeedItem) (scoredItems : list loc)
         (maxItems maxPerTopic : Z),
    ownTopics store scoredItems ->
    (forall topic, admittedCount store topic scoredItems <= maxPerTopic) ->
    selectDiverseItems store scoredItems maxItems maxPerTopic
    = firstn (Z.to_nat maxItems) scoredItems.
Proof.
  intros store scoredItems maxItems maxPerTopic Hown Hcap.
  rewrite selectDiverseItems_specSelect by exact Hown. unfold specSelect.
  rewrite (specPass1_slack store maxItems maxPerTopic scoredItems [] Hcap).
  cbn [List.app List.length]. rewrite Nat.sub_0_r.
  destruct (_ <? maxItems) eqn:Hmore; [|reflexivity].
  apply Z.ltb_lt in Hmore. rewrite List.length_firstn in Hmore.
  rewrite List.firstn_all2 by lia.
  apply specPass2_all_selected. intros x Hx. exact Hx.
Qed.

Lemma selectDiverseItems_cap_slack_witness :
  selectDiverseItems (Examples.storeOf Examples.sixItems)
    (Examples.arrayOf Examples.sixItems) 5 4
  = firstn (Z.to_nat 5) (Examples.arrayOf Examples.sixItems).
Proof.
  apply (selectDiverseItems_cap_slack (Examples.storeOf Examples.sixItems)
           (Examples.arrayOf Examples.sixItems) 5 4).
  { repeat constructor. }
  intros topic.
  destruct (String.eqb_spec "tech" topic) as [<-|Htech]; [now vm_compute|].
  destruct (String.eqb_spec "ai" topic) as [<-|Hai]; [now vm_compute|].
  apply String.eqb_neq in Htech, Hai.
  unfold admittedCount.
  change (Examples.arrayOf Examples.sixItems) with [0; 1; 2; 3; 4; 5]%nat.
  cbn [List.filter].
  change (primaryTopic (Examples.storeOf Examples.sixItems) 0%nat) with "tech".
  change (primaryTopic (Examples.storeOf Examples.sixItems) 1%nat) with "tech".
  change (primaryTopic (Examples.storeOf Examples.sixItems) 2%nat) with "tech".
  change (primaryTopic (Examples.storeOf Examples.sixItems) 3%nat) with "tech".
  change (primaryTopic (Examples.storeOf Examples.sixItems) 4%nat) with "ai".
  change (primaryTopic (Examples.storeOf Examples.sixItems) 5%nat) with "ai".
  rewrite Htech, Hai. cbn [List.length]. lia.
Defined.

(** X9: the first pass keeps every primary topic within the cap, and
    the selection is the result of the first pass followed by what the
    second pass appends; the second pass appends nothing when the first
    pass already reached [maxItems].  So a topic exceeds the cap in the
    digest only when the first pass did not find [maxItems] items. *)
Theorem selectDiverseItems_cap :
  forall (store : loc -> ScoredFeedItem) (scoredItems : list loc)
         (maxItems maxPerTopic : Z),
    let pass1 := fst (diversityPass store maxItems maxPerTopic scoredItems [] ∅) in
    (forall topic, admittedCount store topic pass1 <= Z.max 0 maxPerTopic)
    /\ exists extra,
         selectDiverseItems store scoredItems maxItems maxPerTopic = pass1 ++ extra
         /\ (maxItems <= Z.of_nat (List.length pass1) -> extra = []).
Proof.
  intros store scoredItems maxItems maxPerTopic pass1.
  destruct (diversityPass_start store maxItems maxPerTopic scoredItems)
    as (pass1' & E1 & _ & _ & Hcap).
  fold pass1 in E1. subst pass1'.
  split; [exact Hcap|].
  unfold selectDiverseItems.
  destruct (diversityPass store maxItems maxPerTopic scoredItems [] ∅)
    as [selected topicCounts] eqn:Hpass.
  cbn [fst] in pass1. subst pass1.
  destruct (_ <? maxItems) eqn:Hmore.
  - apply Z.ltb_lt in Hmore. rewrite fillPass_specPass2.
    destruct (specPass2_extends maxItems scoredItems selected) as (extra2 & E2 & _).
    exists extra2. split; [exact E2 | lia].
  - exists []. now rewrite List.app_nil_r.
Qed.

(** ** Feeds of the interest configuration *)

Lemma unique_spec (arr : list string) :
  forall seen,
    List.NoDup (Cron.unique seen arr)
    /\ (forall x, In x (Cron.unique seen arr) <-> In x arr /\ ~ In x seen).
Proof.
  induction arr as [|x rest IH]; intros seen; cbn [Cron.unique].
  - split; [constructor|]. intros x. cbn [In]. tauto.
  - destruct (JS.includes x seen) eqn:Hinc.
    + apply includes_In_string in Hinc.
      destruct (IH seen) as [Hnd Hin]. split; [exact Hnd|].
      intros y. rewrite Hin. cbn [In]. split; [tauto|].
      intros [[<-|Hy] Hns]; [contradiction | auto].
    + assert (Hns : ~ In x seen).
      { intros H. apply includes_In_string in H. congruence. }
      destruct (IH (x :: seen)) as [Hnd Hin]. split.
      * constructor; [|exact Hnd]. rewrite Hin. cbn [In]. tauto.
      * intros y. cbn [In]. rewrite Hin. cbn [In].
        destruct (String.eqb_spec x y) as [<-|Hne]; tauto.
Qed.

(** X10: [getAllFeedsFromInterests] lists every feed once, and a feed is
    listed exactly when some topic of the configuration names it (a topic
    without a feed list contributes nothing).  The feed list of the run,
    which joins the feeds of the environment with these, has no duplicate
    either and holds exactly the feeds of the two sources. *)
Theorem getAllFeedsFromInterests_spec :
  (forall interests : DigestInterests,
      List.NoDup (Cron.getAllFeedsFromInterests interests)
      /\ (forall feed,
            In feed (Cron.getAllFeedsFromInterests interests)
            <-> exists topicName topic topicFeeds,
                  In (topicName, topic) interests
                  /\ feeds topic = Some topicFeeds
                  /\ In feed topicFeeds))
  /\ (forall w : Cron.World,
        List.NoDup (Cron.allFeeds w)
        /\ (forall feed,
              In feed (Cron.allFeeds w)
              <-> In feed (Cron.baseFeeds w)
                  \/ In feed (Cron.getAllFeedsFromInterests (Cron.interests w)))).
Proof.
  split.
  - intros interests. unfold Cron.getAllFeedsFromInterests.
    destruct (unique_spec
                (flat_map (fun '(_, topic) => match feeds topic with
                                              | Some fs => fs
                                              | None => []
                                              end) interests) []) as [Hnd Hin].
    split; [exact Hnd|]. intros feed. rewrite Hin, List.in_flat_map. split.
    + intros [([name topic] & Hnt & Hf) _].
      destruct (feeds topic) as [fs|] eqn:E; [|destruct Hf].
      exists name, topic, fs. auto.
    + intros (name & topic & fs & Hnt & E & Hf). split; [|intros []].
      exists (name, topic). split; [assumption|]. now rewrite E.
  - intros w. unfold Cron.allFeeds.
    destruct (unique_spec
                (Cron.baseFeeds w ++ Cron.getAllFeedsFromInterests (Cron.interests w)) [])
      as [Hnd Hin].
    split; [exact Hnd|]. intros feed. rewrite Hin, List.in_app_iff. cbn [In]. tauto.
Qed.

(** ** The digest run: extraction, delivery and the run record *)

Section DeliveryFacts.
Import Cron Delivery.
Variable w : World.

Lemma extractOne_run (acc : list EpubArticle * list ScoredFeedItem)
    (scored : ScoredFeedItem) (s : State) :
  extractOne w acc scored s
  = (Ok (fst acc ++ match feedArticle w scored with Some a => [a] | None => [] end,
         snd acc ++ (if extracts w scored then [scored] else [])),
     {| digestRun := digestRun s;
        trace := trace s ++ extractionEvents w scored |}).
Proof.
  destruct acc as [feedArticles feedItemsIncluded]. destruct s as [run events].
  unfold extractOne, extractionEvents, feedArticle, extracts, tryCatch, bind, emit,
    await, ret.
  cbn [digestRun trace fst snd].
  destruct (extractArticle w (link (item scored))) as [extracted|message];
    cbn [andb].
  - destruct (DIGEST_SAVE_FEED_ITEMS (config w)); cbn [digestRun trace];
      now rewrite <- ?List.app_assoc.
  - now rewrite !List.app_nil_r.
Qed.

Lemma extractAll_run (items : list ScoredFeedItem) :
  forall (acc : list EpubArticle * list ScoredFeedItem) (s : State),
    extractAll w acc items s
    = (Ok (fst acc ++ omap (feedArticle w) items,
           snd acc ++ List.filter (extracts w) items),
       {| digestRun := digestRun s;
          trace := trace s ++ flat_map (extractionEvents w) items |}).
Proof.
  induction items as [|scored rest IH]; intros acc s;
    cbn [extractAll omap list_omap List.filter flat_map].
  - unfold ret. rewrite !List.app_nil_r. now destruct acc, s.
  - unfold bind at 1. rewrite extractOne_run, IH. cbn [fst snd digestRun trace].
    rewrite <- !List.app_assoc.
    now destruct (feedArticle w scored), (extracts w scored).
Qed.

Lemma main_no_user :
  adminUser w = None ->
  main w initialState
  = (Throw "No admin user found. Run db:seed first.",
     {| digestRun := None; trace := [DisconnectDb] |}).
Proof.
  intros H. unfold main, tryFinally, tryCatch, body. rewrite H. reflexivity.
Qed.

(** The run with an admin user, in closed form. *)
Lemma main_run (userId : string) :
  adminUser w = Some userId ->
  let failed := fun message =>
    {| runUserId := userId; status := FAILED; finishedAt := Some (finishDate w);
       includedArticleIds := []; feedItemsIncluded := []; epubFilename := None;
       emailMessageId := None; error := Some message |} in
  let filename := generateDigestFilename w (epubDate w) in
  let count := Z.of_nat (List.length (finalArticles w)) in
  let ids := List.map articleId (slice0 count (savedArticles w)) in
  let events :=
    [DbDigestRunCreate; FetchFeeds (allFeeds w)]
    ++ flat_map (extractionEvents w) (selectedFeedItems w)
    ++ [GenerateEpub (finalArticles w)] in
  main w initialState
  = if nothingToSend w
    then (Ok tt,
          {| digestRun :=
               Some {| runUserId := userId; status := SUCCESS;
                       finishedAt := Some (finishDate w);
                       includedArticleIds := []; feedItemsIncluded := [];
                       epubFilename := None; emailMessageId := None;
                       error := Some "No articles available" |};
             trace := [DbDigestRunCreate; FetchFeeds (allFeeds w);
                       DbDigestRunUpdate; DisconnectDb] |})
    else match epubResult w with
         | Throw message =>
             (Throw message,
              {| digestRun := Some (failed message);
                 trace := events ++ [DbDigestRunUpdate; DisconnectDb] |})
         | Ok epub =>
             match sendResult w epub with
             | Throw message =>
                 (Throw message,
                  {| digestRun := Some (failed message);
                     trace := events ++ [SendDigestToKindle filename count;
                                         DbDigestRunUpdate; DisconnectDb] |})
             | Ok messageId =>
                 (Ok tt,
                  {| digestRun :=
                       Some {| runUserId := userId; status := SUCCESS;
                               finishedAt := Some (finishDate w);
                               includedArticleIds := ids;
                               feedItemsIncluded :=
                                 List.map
                                   (fun i => {| includedTitle := title (item i);
                                                includedLink := link (item i);
                                                includedScore := score i;
                                                includedTopics := matchedTopics i |})
                                   (extractedItems w);
                               epubFilename := Some filename;
                               emailMessageId := Some messageId;
                               error := None |};
                     trace := events
                              ++ [SendDigestToKindle filename count]
                              ++ (if (0 <? List.length ids)%nat
                                  then [DbArticleUpdateMany ids (epubDate w)]
                                  else [])
                              ++ [DbDigestRunUpdate; DisconnectDb] |})
             end
         end.
Proof.
  intros Huser failed filename count ids events.
  unfold main, tryFinally, tryCatch, body. rewrite Huser.
  unfold bind at 1 2. unfold dbDigestRunCreate, initialState.
  cbn [trace digestRun List.app]. unfold emit at 1. cbn [trace digestRun List.app].
  fold (nothingToSend w).
  destruct (nothingToSend w); [reflexivity|].
  unfold bind at 1. rewrite extractAll_run. cbn [fst snd List.app trace digestRun].
  fold (savedEpubArticles w). fold (feedArticles w). fold (finalArticles w).
  fold filename. fold count. fold ids.
  unfold bind, emit, await, ret, throw, onError, dbDigestRunUpdate.
  cbn [trace digestRun].
  fold (epubResult w).
  destruct (epubResult w) as [epub|message] eqn:Hepub.
  - fold filename count in Hepub |- *.
    change (sendDigestToKindle w epub filename count (epubDate w))
      with (sendResult w epub).
    destruct (sendResult w epub) as [messageId|message].
    + destruct (0 <? List.length ids)%nat; cbv [bind throw];
        cbn [trace digestRun option_map runUserId epubFilename emailMessageId error];
        unfold events; repeat rewrite <- List.app_assoc; cbn [List.app]; reflexivity.
    + cbv [bind throw]. cbn [trace digestRun option_map]. unfold events, failed.
      repeat rewrite <- List.app_assoc. cbn [List.app]. reflexivity.
  - cbv [bind throw]. cbn [trace digestRun option_map]. unfold events, failed.
    repeat rewrite <- List.app_assoc. cbn [List.app]. reflexivity.
Qed.

End DeliveryFacts.

Lemma extractionEvents_kinds (w : Cron.World) (items : list ScoredFeedItem) :
  Forall (fun e => match e with
                   | Cron.Extract _ | Cron.DbArticleCreate _ => True
                   | _ => False
                   end)
    (flat_map (Delivery.extractionEvents w) items).
Proof.
  induction items as [|scored rest IH]; cbn [flat_map]; [constructor|].
  apply List.Forall_app. split; [|exact IH].
  unfold Delivery.extractionEvents.
  destruct (_ && _); repeat constructor.
Qed.

Lemma existsb_extractionEvents (w : Cron.World) (items : list ScoredFeedItem)
    (p : Cron.Event -> bool) :
  (forall url, p (Cron.Extract url) = false) ->
  (forall url, p (Cron.DbArticleCreate url) = false) ->
  existsb p (flat_map (Delivery.extractionEvents w) items) = false.
Proof.
  intros H1 H2.
  pose proof (extractionEvents_kinds w items) as Hk.
  induction Hk as [|e l He Hl IH]; [reflexivity|].
  cbn [existsb]. rewrite IH, orb_false_r.
  destruct e; try contradiction; auto.
Qed.

Lemma filter_extractionEvents (w : Cron.World) (items : list ScoredFeedItem)
    (p : Cron.Event -> bool) :
  (forall url, p (Cron.Extract url) = false) ->
  (forall url, p (Cron.DbArticleCreate url) = false) ->
  List.filter p (flat_map (Delivery.extractionEvents w) items) = [].
Proof.
  intros H1 H2.
  pose proof (extractionEvents_kinds w items) as Hk.
  induction Hk as [|e l He Hl IH]; [reflexivity|].
  cbn [List.filter]. rewrite IH.
  destruct e; try contradiction; now rewrite ?H1, ?H2.
Qed.

(** X11: the runs in which the database answers every call (no query,
    insert or update is rejected, which is what [Cron.main] describes).
    Such a run ends by disconnecting from the database, once and as its
    last action.  If it returns normally it leaves its digest-run row with
    status SUCCESS and a finish date.  If it throws, it either found no
    admin user (then no row was created and nothing else was done) or
    leaves the row with status FAILED, the finish date and the message of
    the error it throws, with no included article and no email message
    id. *)
Theorem main_outcome_recorded :
  forall w : Cron.World,
    let outcome := fst (Cron.main w Cron.initialState) in
    let final := snd (Cron.main w Cron.initialState) in
    (exists events,
        Cron.trace final = events ++ [Cron.DisconnectDb]
        /\ existsb Delivery.isDisconnect events = false)
    /\ (outcome = Cron.Ok tt ->
        exists run,
          Cron.digestRun final = Some run
          /\ Cron.status run = Cron.SUCCESS
          /\ Cron.finishedAt run = Some (Cron.finishDate w))
    /\ (forall message,
          outcome = Cron.Throw message ->
          (Cron.adminUser w = None
           /\ message = "No admin user found. Run db:seed first."%string
           /\ Cron.digestRun final = None
           /\ Cron.trace final = [Cron.DisconnectDb])
          \/ (exists run,
                Cron.digestRun final = Some run
                /\ Cron.status run = Cron.FAILED
                /\ Cron.error run = Some message
                /\ Cron.finishedAt run = Some (Cron.finishDate w)
                /\ Cron.includedArticleIds run = []
                /\ Cron.emailMessageId run = None)).
Proof.
  intros w outcome final. unfold outcome, final. clear outcome final.
  destruct (Cron.adminUser w) as [userId|] eqn:Huser.
  - pose proof (main_run w userId Huser) as Hrun. cbv zeta in Hrun. rewrite Hrun.
    clear Hrun.
    pose proof (existsb_extractionEvents w (Cron.selectedFeedItems w)
                  Delivery.isDisconnect (fun _ => eq_refl) (fun _ => eq_refl)) as Hex.
    destruct (Delivery.nothingToSend w).
    { cbn [fst snd Cron.trace Cron.digestRun]. split; [|split].
      - exists [Cron.DbDigestRunCreate; Cron.FetchFeeds (Cron.allFeeds w);
                Cron.DbDigestRunUpdate].
        split; reflexivity.
      - intros _. eexists. repeat split.
      - discriminate. }
    destruct (Delivery.epubResult w) as [epub|message].
    + destruct (Delivery.sendResult w epub) as [messageId|message];
        cbn [fst snd Cron.trace Cron.digestRun]; (split; [|split]).
      * match goal with
        | |- context [?ev ++ ?send ++ ?mark
                      ++ [Cron.DbDigestRunUpdate; Cron.DisconnectDb]] =>
            exists (ev ++ send ++ mark ++ [Cron.DbDigestRunUpdate])
        end.
        split; [now rewrite <- !List.app_assoc|].
        rewrite !existsb_app, Hex. now destruct (0 <? _)%nat.
      * intros _. eexists. repeat split.
      * discriminate.
      * match goal with
        | |- context [?ev ++ [?send; Cron.DbDigestRunUpdate; Cron.DisconnectDb]] =>
            exists (ev ++ [send; Cron.DbDigestRunUpdate])
        end.
        split; [now rewrite <- !List.app_assoc|].
        rewrite !existsb_app, Hex. reflexivity.
      * discriminate.
      * intros m [= <-]. right. eexists. repeat split.
    + cbn [fst snd Cron.trace Cron.digestRun]. split; [|split].
      * match goal with
        | |- context [?ev ++ [Cron.DbDigestRunUpdate; Cron.DisconnectDb]] =>
            exists (ev ++ [Cron.DbDigestRunUpdate])
        end.
        split; [now rewrite <- !List.app_assoc|].
        rewrite !existsb_app, Hex. reflexivity.
      * discriminate.
      * intros m [= <-]. right. eexists. repeat split.
  - rewrite main_no_user by assumption. cbn [fst snd Cron.trace Cron.digestRun].
    split; [|split].
    + exists []. split; reflexivity.
    + discriminate.
    + intros m [= <-]. left. repeat split.
Qed.

(** X12: a run with an admin user in which the database answers every
    call returns normally exactly when there is nothing to send, or when
    both the EPUB generation and the delivery return; extractions that
    fail are skipped and never fail the run. *)
Theorem main_succeeds_iff :
  forall (w : Cron.World) (userId : string),
    Cron.adminUser w = Some userId ->
    fst (Cron.main w Cron.initialState) = Cron.Ok tt
    <-> Delivery.nothingToSend w = true
        \/ exists epub messageId,
             Delivery.epubResult w = Cron.Ok epub
             /\ Delivery.sendResult w epub = Cron.Ok messageId.
Proof.
  intros w userId Huser.
  pose proof (main_run w userId Huser) as Hrun. cbv zeta in Hrun. rewrite Hrun.
  clear Hrun.
  destruct (Delivery.nothingToSend w); [cbn; tauto|].
  destruct (Delivery.epubResult w) as [epub|message].
  - destruct (Delivery.sendResult w epub) as [messageId|message] eqn:Hsend;
      cbn [fst]; split.
    + intros _. right. eauto.
    + reflexivity.
    + discriminate.
    + intros [|(e & m & [= <-] & Hm)]; [discriminate | congruence].
  - cbn [fst]. split; [discriminate|].
    intros [|(e & m & He & _)]; discriminate.
Qed.

Lemma main_succeeds_iff_witness :
  fst (Cron.main Examples.busyWorld Cron.initialState) = Cron.Ok tt
  <-> Delivery.nothingToSend Examples.busyWorld = true
      \/ exists epub messageId,
           Delivery.epubResult Examples.busyWorld = Cron.Ok epub
           /\ Delivery.sendResult Examples.busyWorld epub = Cron.Ok messageId.
Proof.
  apply (main_succeeds_iff Examples.busyWorld "admin"). reflexivity.
Defined.

Lemma extractionEvents_In (w : Cron.World) (items : list ScoredFeedItem)
    (e : Cron.Event) :
  In e (flat_map (Delivery.extractionEvents w) items) ->
  exists url, e = Cron.Extract url \/ e = Cron.DbArticleCreate url.
Proof.
  intros H. pose proof (extractionEvents_kinds w items) as Hk.
  rewrite List.Forall_forall in Hk. specialize (Hk e H).
  destruct e; try contradiction; eauto.
Qed.

Ltac event_cases H :=
  rewrite ?List.in_app_iff in H; cbn [In] in H;
  repeat match type of H with _ \/ _ => destruct H as [H|H] end;
  try discriminate H; try contradiction;
  try (apply extractionEvents_In in H; destruct H as (? & [H|H]); discriminate H).

Lemma slice0_app {A : Type} (n : Z) (a b : list A) :
  exists k, Cron.slice0 n (a ++ b) = firstn k a ++ firstn (k - List.length a) b.
Proof.
  unfold Cron.slice0. destruct (0 <=? n); eexists; apply List.firstn_app.
Qed.

Lemma slice0_length {A : Type} (n : Z) (l : list A) :
  0 <= n -> Z.of_nat (List.length (Cron.slice0 n l)) <= n.
Proof.
  intros H. unfold Cron.slice0. destruct (0 <=? n) eqn:E; [|apply Z.leb_gt in E; lia].
  rewrite List.length_firstn. lia.
Qed.

Lemma firstn_In {A : Type} (k : nat) (l : list A) (x : A) :
  In x (firstn k l) -> In x l.
Proof.
  revert l. induction k as [|k IH]; intros l H.
  - destruct l; destruct H.
  - destruct l as [|y l]; [destruct H|].
    cbn [firstn In] in H |- *. destruct H as [H|H]; auto.
Qed.

Lemma slice0_incl {A : Type} (n : Z) (l : list A) : incl (Cron.slice0 n l) l.
Proof.
  unfold Cron.slice0. intros x Hx.
  destruct (0 <=? n); eapply firstn_In; exact Hx.
Qed.

Lemma feedArticles_flat_map (w : Cron.World) (items : list ScoredFeedItem) :
  omap (Delivery.feedArticle w) items
  = flat_map
      (fun scored =>
         match Cron.extractArticle w (Rss.link (item scored)) with
         | Cron.Ok extracted =>
             [{| Cron.epubTitle := Cron.extractedTitle extracted;
                 Cron.epubAuthor := Cron.extractedAuthor extracted;
                 Cron.epubSiteName :=
                   Some (match Cron.extractedSiteName extracted with
                         | Some name =>
                             if String.eqb name "" then Rss.feedTitle (item scored)
                             else name
                         | None => Rss.feedTitle (item scored)
                         end);
                 Cron.epubUrl := Rss.link (item scored);
                 Cron.epubContentHtml := Cron.extractedContentHtml extracted;
                 Cron.epubReadingMinutes := Cron.extractedReadingMinutes extracted |}]
         | Cron.Throw _ => []
         end)
      items.
Proof.
  induction items as [|scored rest IH]; [reflexivity|].
  cbn [omap list_omap flat_map]. rewrite <- IH. unfold Delivery.feedArticle at 1.
  destruct (Cron.extractArticle w (Rss.link (item scored))); reflexivity.
Qed.

(** X13: a run that has something to send builds one EPUB.  It holds the
    saved articles (title, author, site name, URL, content and reading
    minutes of the row) followed by one article for every selected feed
    item whose extraction succeeded, in the order of the selection (the
    extracted title, author, content and reading minutes, the link of the
    item, and the extracted site name or, when that is missing or empty,
    the title of the feed), cut to the first [DIGEST_MAX_ARTICLES] of
    them: with a limit that is not negative the EPUB holds the minimum of
    the limit and the number of articles, so feed articles only get the
    room the saved articles leave; a negative limit cuts that many
    articles off the end. *)
Theorem main_epub_contents :
  forall (w : Cron.World) (userId : string),
    Cron.adminUser w = Some userId ->
    Cron.savedArticles w <> [] \/ Cron.selectedFeedItems w <> [] ->
    let final := snd (Cron.main w Cron.initialState) in
    let limit := Cron.DIGEST_MAX_ARTICLES (Cron.config w) in
    let saved :=
      List.map (fun a => {| Cron.epubTitle := Cron.articleTitle a;
                            Cron.epubAuthor := Cron.articleAuthor a;
                            Cron.epubSiteName := Cron.articleSiteName a;
                            Cron.epubUrl := Cron.articleUrl a;
                            Cron.epubContentHtml := Cron.articleContentHtml a;
                            Cron.epubReadingMinutes := Cron.articleReadingMinutes a |})
        (Cron.savedArticles w) in
    let fromFeeds :=
      flat_map
        (fun scored =>
           match Cron.extractArticle w (Rss.link (item scored)) with
           | Cron.Ok extracted =>
               [{| Cron.epubTitle := Cron.extractedTitle extracted;
                   Cron.epubAuthor := Cron.extractedAuthor extracted;
                   Cron.epubSiteName :=
                     Some (match Cron.extractedSiteName extracted with
                           | Some name =>
                               if String.eqb name "" then Rss.feedTitle (item scored)
                               else name
                           | None => Rss.feedTitle (item scored)
                           end);
                   Cron.epubUrl := Rss.link (item scored);
                   Cron.epubContentHtml := Cron.extractedContentHtml extracted;
                   Cron.epubReadingMinutes := Cron.extractedReadingMinutes extracted |}]
           | Cron.Throw _ => []
           end)
        (Cron.selectedFeedItems w) in
    let all := saved ++ fromFeeds in
    let kept :=
      if 0 <=? limit then Z.to_nat limit
      else (List.length all - Z.to_nat (- limit))%nat in
    (forall articles,
        In (Cron.GenerateEpub articles) (Cron.trace final)
        <-> articles = firstn kept all)
    /\ firstn kept all
       = firstn kept saved ++ firstn (kept - List.length (Cron.savedArticles w)) fromFeeds
    /\ (0 <= limit ->
        Z.of_nat (List.length (firstn kept all))
        = Z.min limit (Z.of_nat (List.length all))).
Proof.
  intros w userId Huser Hsome final limit saved fromFeeds all kept.
  assert (Hsend : Delivery.nothingToSend w = false).
  { unfold Delivery.nothingToSend. apply andb_false_iff.
    destruct Hsome as [H|H]; [left | right]; apply Nat.eqb_neq;
      intros E; apply List.length_zero_iff_nil in E; contradiction. }
  assert (Hfinal : Delivery.finalArticles w = firstn kept all).
  { unfold Delivery.finalArticles, Cron.slice0, Delivery.feedArticles.
    rewrite feedArticles_flat_map. fold limit.
    change (Delivery.savedEpubArticles w) with saved. fold fromFeeds. fold all.
    unfold kept. now destruct (0 <=? limit). }
  unfold final. clear final.
  pose proof (main_run w userId Huser) as Hrun. cbv zeta in Hrun. rewrite Hrun.
  clear Hrun. rewrite Hsend, Hfinal.
  split; [|split].
  - intros articles.
    assert (Hev : In (Cron.GenerateEpub articles)
                    ([Cron.DbDigestRunCreate; Cron.FetchFeeds (Cron.allFeeds w)]
                     ++ flat_map (Delivery.extractionEvents w) (Cron.selectedFeedItems w)
                     ++ [Cron.GenerateEpub (firstn kept all)])
                  <-> articles = firstn kept all).
    { rewrite !List.in_app_iff. cbn [In]. split.
      - intros [[H|[H|[]]]|[H|[H|[]]]]; try discriminate.
        + apply extractionEvents_In in H. destruct H as (url & [H|H]); discriminate.
        + now inversion H.
      - intros ->. right. right. now left. }
    destruct (Delivery.epubResult w) as [epub|message];
      [destruct (Delivery.sendResult w epub) as [messageId|message]|];
      cbn [snd Cron.trace]; rewrite List.in_app_iff, Hev.
    + split; [|auto]. intros [H|H]; [assumption|].
      rewrite !List.in_app_iff in H. cbn [In] in H.
      destruct H as [[H|[]]|[H|[H|[H|[]]]]]; try discriminate.
      destruct (0 <? _)%nat; [destruct H as [H|[]]; discriminate | destruct H].
    + split; [|auto]. cbn [In]. intros [H|[H|[H|[H|[]]]]]; try discriminate; assumption.
    + split; [|auto]. cbn [In]. intros [H|[H|[H|[]]]]; try discriminate; assumption.
  - unfold all. rewrite List.firstn_app. do 2 f_equal.
    unfold saved. now rewrite List.length_map.
  - intros Hlimit. unfold kept.
    destruct (0 <=? limit) eqn:E; [|apply Z.leb_gt in E; lia].
    rewrite List.length_firstn. lia.
Qed.

Lemma main_epub_contents_witness :
  In (Cron.GenerateEpub
        [{| Cron.epubTitle := "Saved";
            Cron.epubAuthor := None;
            Cron.epubSiteName := None;
            Cron.epubUrl := "https://example.com/saved";
            Cron.epubContentHtml := "<p>text</p>";
            Cron.epubReadingMinutes := 1 |}])
     (Cron.trace (snd (Cron.main Examples.busyWorld Cron.initialState))).
Proof.
  assert (Hsome : Cron.savedArticles Examples.busyWorld <> []
                  \/ Cron.selectedFeedItems Examples.busyWorld <> [])
    by (left; discriminate).
  apply (proj1 (main_epub_contents Examples.busyWorld "admin" eq_refl Hsome)).
  reflexivity.
Defined.

(** X14: the record of a run that delivered.  The included article ids
    are those of the first saved articles, as many as the EPUB has
    articles; the row lists every feed item whose extraction succeeded,
    whether or not the article limit left it in the EPUB; it carries the
    file name and the message id; and the articles are marked as sent
    (one call, with the date of the EPUB) exactly when the list of ids is
    not empty. *)
Theorem main_success_record :
  forall (w : Cron.World) (userId : string) (epub : Cron.Buffer) (messageId : string),
    Cron.adminUser w = Some userId ->
    Delivery.nothingToSend w = false ->
    Delivery.epubResult w = Cron.Ok epub ->
    Delivery.sendResult w epub = Cron.Ok messageId ->
    let final := snd (Cron.main w Cron.initialState) in
    let ids :=
      List.map Cron.articleId
        (firstn (List.length (Delivery.finalArticles w)) (Cron.savedArticles w)) in
    (exists run,
        Cron.digestRun final = Some run
        /\ Cron.status run = Cron.SUCCESS
        /\ Cron.includedArticleIds run = ids
        /\ List.map Cron.includedLink (Cron.feedItemsIncluded run)
           = List.map (fun scored => Rss.link (item scored)) (Delivery.extractedItems w)
        /\ Cron.epubFilename run
           = Some (Cron.generateDigestFilename w (Cron.epubDate w))
        /\ Cron.emailMessageId run = Some messageId
        /\ Cron.error run = None)
    /\ (forall sent date,
          In (Cron.DbArticleUpdateMany sent date) (Cron.trace final)
          <-> sent = ids /\ ids <> [] /\ date = Cron.epubDate w).
Proof.
  intros w userId epub messageId Huser Hsend Hepub Hmail final ids.
  unfold final. clear final.
  pose proof (main_run w userId Huser) as Hrun. cbv zeta in Hrun. rewrite Hrun.
  clear Hrun. rewrite Hsend, Hepub, Hmail. cbn [snd Cron.trace Cron.digestRun].
  assert (Eids : List.map Cron.articleId
                   (Cron.slice0 (Z.of_nat (List.length (Delivery.finalArticles w)))
                      (Cron.savedArticles w)) = ids).
  { unfold Cron.slice0, ids.
    destruct (0 <=? _) eqn:E; [|apply Z.leb_gt in E; lia]. now rewrite Nat2Z.id. }
  rewrite Eids. split.
  - eexists. repeat split. cbn [Cron.feedItemsIncluded].
    rewrite List.map_map. reflexivity.
  - intros sent date. rewrite !List.in_app_iff. cbn [In]. split.
    + intros [[[H|[H|[]]]|[H|[H|[]]]]|[[H|[]]|[H|H]]]; try discriminate.
      * apply extractionEvents_In in H. destruct H as (url & [H|H]); discriminate.
      * destruct ids as [|i rest] eqn:E; cbn [List.length Nat.ltb Nat.leb] in H;
          [destruct H|].
        destruct H as [H|[]]. inversion H; subst. repeat split. discriminate.
      * destruct H as [H|[H|[]]]; discriminate.
    + intros (-> & Hne & ->). right. right. left.
      destruct ids; [contradiction | now left].
Qed.

Lemma main_success_record_witness :
  exists run,
    Cron.digestRun (snd (Cron.main Examples.busyWorld Cron.initialState)) = Some run
    /\ Cron.status run = Cron.SUCCESS
    /\ Cron.includedArticleIds run = ["a1"%string].
Proof.
  destruct (main_success_record Examples.busyWorld "admin" "epub" "message-1"
              eq_refl eq_refl eq_refl eq_refl) as [(run & H1 & H2 & H3 & _) _].
  exists run. repeat split; assumption.
Defined.

(** X15: a run in which the database answers every call sends at most
    one email; articles are marked as sent only after the email was sent,
    and then the run returns normally; and the ids that are marked are ids
    of saved articles. *)
Theorem main_marks_after_delivery :
  forall w : Cron.World,
    let outcome := fst (Cron.main w Cron.initialState) in
    let final := snd (Cron.main w Cron.initialState) in
    (List.length (List.filter Cron.isDelivery (Cron.trace final)) <= 1)%nat
    /\ (existsb Delivery.isMarkSent (Cron.trace final) = true ->
        outcome = Cron.Ok tt
        /\ exists before after filename count,
             Cron.trace final
             = before ++ Cron.SendDigestToKindle filename count :: after
             /\ existsb Delivery.isMarkSent before = false)
    /\ (forall ids date,
          In (Cron.DbArticleUpdateMany ids date) (Cron.trace final) ->
          incl ids (List.map Cron.articleId (Cron.savedArticles w))).
Proof.
  intros w outcome final. unfold outcome, final. clear outcome final.
  destruct (Cron.adminUser w) as [userId|] eqn:Huser;
    [|rewrite main_no_user by assumption; cbn [fst snd Cron.trace];
      split; [cbn; lia | split; [discriminate | intros ? ? [H|[]]; discriminate]]].
  pose proof (main_run w userId Huser) as Hrun. cbv zeta in Hrun. rewrite Hrun.
  clear Hrun.
  pose proof (filter_extractionEvents w (Cron.selectedFeedItems w) Cron.isDelivery
                (fun _ => eq_refl) (fun _ => eq_refl)) as Hfd.
  pose proof (existsb_extractionEvents w (Cron.selectedFeedItems w)
                Delivery.isMarkSent (fun _ => eq_refl) (fun _ => eq_refl)) as Hem.
  destruct (Delivery.nothingToSend w).
  { cbn [fst snd Cron.trace].
    split; [cbn; lia | split; [discriminate|]].
    intros ? ? [H|[H|[H|[H|[]]]]]; discriminate. }
  destruct (Delivery.epubResult w) as [epub|message];
    [destruct (Delivery.sendResult w epub) as [messageId|message]|];
    cbn [fst snd Cron.trace].
  - split; [|split].
    + rewrite !List.filter_app, Hfd. cbn [List.filter Cron.isDelivery List.app].
      destruct (0 <? _)%nat; cbn; lia.
    + intros _. split; [reflexivity|].
      match goal with
      | |- context [?ev ++ [Cron.SendDigestToKindle ?f ?c] ++ ?rest] =>
          exists ev, rest, f, c
      end.
      split; [reflexivity|].
      rewrite !existsb_app, Hem. reflexivity.
    + intros ids date H. event_cases H.
      destruct (0 <? _)%nat; [|destruct H].
      destruct H as [H|[]]. inversion H; subst.
      intros x Hx. apply List.in_map_iff in Hx. destruct Hx as (a & <- & Ha).
      apply List.in_map. eapply slice0_incl; eassumption.
  - split; [|split].
    + rewrite !List.filter_app, Hfd. cbn. lia.
    + rewrite !existsb_app, Hem. cbn. discriminate.
    + intros ids date H. event_cases H.
  - split; [|split].
    + rewrite !List.filter_app, Hfd. cbn. lia.
    + rewrite !existsb_app, Hem. cbn. discriminate.
    + intros ids date H. event_cases H.
Qed.

Lemma omap_nothing {A B : Type} (f : A -> option B) (l : list A) :
  (forall x, In x l -> f x = None) -> omap f l = [].
Proof.
  induction l as [|x l IH]; intros H; [reflexivity|].
  cbn [omap list_omap]. rewrite (H x (or_introl eq_refl)).
  apply IH. intros y Hy. apply H. now right.
Qed.

Lemma filter_nothing {A : Type} (p : A -> bool) (l : list A) :
  (forall x, In x l -> p x = false) -> List.filter p l = [].
Proof.
  induction l as [|x l IH]; intros H; [reflexivity|].
  cbn [List.filter]. rewrite (H x (or_introl eq_refl)).
  apply IH. intros y Hy. apply H. now right.
Qed.

(** X16: a run can deliver a digest without articles.  When no saved
    article is pending and the extraction of every selected feed item
    fails, the run does not stop at step 4 (feed items were selected): it
    builds an EPUB with no article, sends it with an article count of 0,
    marks nothing as sent and ends normally with status SUCCESS. *)
Theorem main_sends_empty_digest :
  forall (w : Cron.World) (userId : string) (epub : Cron.Buffer) (messageId : string),
    Cron.adminUser w = Some userId ->
    Cron.savedArticles w = [] ->
    Cron.selectedFeedItems w <> [] ->
    (forall scored, In scored (Cron.selectedFeedItems w) ->
                    Delivery.extracts w scored = false) ->
    Cron.generateEpub w [] (Cron.epubDate w) = Cron.Ok epub ->
    Cron.sendDigestToKindle w epub (Cron.generateDigestFilename w (Cron.epubDate w)) 0
      (Cron.epubDate w) = Cron.Ok messageId ->
    let outcome := fst (Cron.main w Cron.initialState) in
    let final := snd (Cron.main w Cron.initialState) in
    outcome = Cron.Ok tt
    /\ In (Cron.GenerateEpub []) (Cron.trace final)
    /\ In (Cron.SendDigestToKindle (Cron.generateDigestFilename w (Cron.epubDate w)) 0)
         (Cron.trace final)
    /\ existsb Delivery.isMarkSent (Cron.trace final) = false
    /\ exists run,
         Cron.digestRun final = Some run
         /\ Cron.status run = Cron.SUCCESS
         /\ Cron.includedArticleIds run = []
         /\ Cron.feedItemsIncluded run = []
         /\ Cron.emailMessageId run = Some messageId.
Proof.
  intros w userId epub messageId Huser Hsaved Hselected Hfail Hepub Hmail outcome final.
  unfold outcome, final. clear outcome final.
  assert (Hfeed : Delivery.feedArticles w = []).
  { unfold Delivery.feedArticles. apply omap_nothing.
    intros scored Hin. apply Hfail in Hin.
    unfold Delivery.extracts in Hin. unfold Delivery.feedArticle.
    now destruct (Cron.extractArticle w (Rss.link (item scored))). }
  assert (Hnone : Delivery.extractedItems w = []).
  { unfold Delivery.extractedItems. now apply filter_nothing. }
  assert (Hfinal : Delivery.finalArticles w = []).
  { unfold Delivery.finalArticles, Delivery.savedEpubArticles.
    rewrite Hfeed, Hsaved. cbn [List.map List.app].
    unfold Cron.slice0. destruct (0 <=? _); apply List.firstn_nil. }
  assert (Hsend : Delivery.nothingToSend w = false).
  { unfold Delivery.nothingToSend. rewrite Hsaved.
    destruct (Cron.selectedFeedItems w); [contradiction | reflexivity]. }
  pose proof (main_run w userId Huser) as Hrun. cbv zeta in Hrun. rewrite Hrun.
  clear Hrun. unfold Delivery.epubResult, Delivery.sendResult.
  rewrite Hsend, Hfinal, Hnone, Hsaved. cbn [List.length].
  change (Z.of_nat 0) with 0. rewrite Hepub, Hmail.
  assert (Hids : List.map Cron.articleId (Cron.slice0 0 (@nil Cron.Article)) = [])
    by reflexivity.
  rewrite Hids. cbn [fst snd Cron.trace Cron.digestRun List.length Nat.ltb Nat.leb].
  pose proof (existsb_extractionEvents w (Cron.selectedFeedItems w)
                Delivery.isMarkSent (fun _ => eq_refl) (fun _ => eq_refl)) as Hem.
  split; [reflexivity|]. split; [|split; [|split]].
  - rewrite !List.in_app_iff. cbn [In]. left. right. right. now left.
  - rewrite !List.in_app_iff. cbn [In]. right. left. now left.
  - rewrite !existsb_app, Hem. reflexivity.
  - eexists. repeat split.
Qed.

Lemma main_sends_empty_digest_witness :
  fst (Cron.main MoreExamples.offlineWorld Cron.initialState) = Cron.Ok tt
  /\ In (Cron.GenerateEpub [])
       (Cron.trace (snd (Cron.main MoreExamples.offlineWorld Cron.initialState))).
Proof.
  assert (Hsel : List.length (Cron.selectedFeedItems MoreExamples.offlineWorld) = 1%nat)
    by (vm_compute; reflexivity).
  assert (Hne : Cron.selectedFeedItems MoreExamples.offlineWorld <> []).
  { intros E. rewrite E in Hsel. discriminate Hsel. }
  assert (Hfail : forall scored,
             In scored (Cron.selectedFeedItems MoreExamples.offlineWorld) ->
             Delivery.extracts MoreExamples.offlineWorld scored = false).
  { intros scored _. reflexivity. }
  destruct (main_sends_empty_digest MoreExamples.offlineWorld "admin" "epub" "message-1"
              eq_refl eq_refl Hne Hfail eq_refl eq_refl) as (H1 & H2 & _).
  split; assumption.
Defined.

(** ** The feed items of a run *)

Lemma mapi_In {A B : Type} (f : nat -> A -> B) (l : list A) :
  forall (i : nat) (y : B),
    In y (mapi f i l) -> exists j x, In x l /\ y = f j x.
Proof.
  induction l as [|x l IH]; intros i y; cbn [mapi In]; [intros []|].
  intros [<-|H]; [exists i, x; auto|].
  destruct (IH _ _ H) as (j & x' & Hx & ->). exists j, x'. auto.
Qed.

Lemma scoreFeedItem_item (now : Z) (item : Rss.FeedItem) (interests : DigestInterests) :
  Interests.item (scoreFeedItem now item interests) = item.
Proof.
  unfold scoreFeedItem. now destruct (scoreTopics _ _) as [[? ?] ?].
Qed.

Lemma scoreAndRankFeedItems_In (clock : nat -> Z) (items : list Rss.FeedItem)
    (interests : DigestInterests) (scored : ScoredFeedItem) :
  In scored (scoreAndRankFeedItems clock items interests) ->
  In (item scored) items /\ matchedTopics scored <> [].
Proof.
  unfold scoreAndRankFeedItems. intros H.
  apply (Permutation_in _ (sort_perm _ _)) in H.
  apply List.filter_In in H. destruct H as [H Hm].
  apply mapi_In in H. destruct H as (j & x & Hx & ->).
  rewrite scoreFeedItem_item. split; [assumption|].
  intros E. rewrite E in Hm. discriminate.
Qed.

Lemma selectDiverseItems_count (store : loc -> ScoredFeedItem) (scoredItems : list loc)
    (maxItems maxPerTopic : Z) :
  0 <= maxItems ->
  List.NoDup scoredItems ->
  Z.of_nat (List.length (selectDiverseItems store scoredItems maxItems maxPerTopic))
  = Z.min maxItems (Z.of_nat (List.length scoredItems)).
Proof.
  intros Hmax Hnd.
  destruct (selectDiverseItems_bound store scoredItems maxItems maxPerTopic)
    as [Hle Hincl].
  unfold selectDiverseItems in *.
  pose proof (diversityPass_invariant store maxItems maxPerTopic scoredItems [] ∅) as H1.
  destruct (diversityPass store maxItems maxPerTopic scoredItems [] ∅)
    as [selected topicCounts].
  cbn [fst List.app List.length] in H1.
  destruct H1 as (Hnd1 & _ & Hin1 & Hlen1); [assumption | lia |].
  pose proof (List.NoDup_incl_length Hnd1 Hin1) as Hle1.
  destruct (Z.of_nat (List.length selected) <? maxItems) eqn:Hfill; [|lia].
  destruct (fillPass_invariant maxItems scoredItems selected Hnd1 Hlen1)
    as (Hnd2 & _ & _ & _ & Hend).
  pose proof (List.NoDup_incl_length Hnd2 Hincl) as Hle2.
  destruct Hend as [Hfull|Hall]; [lia|].
  pose proof (List.NoDup_incl_length Hnd Hall). lia.
Qed.

(** X17: every feed item the run selects is one of the ranked items of
    the fetched feeds, has a matched topic, and has a canonical URL that
    is neither the canonical URL nor the content hash of an article the
    user already has.  For a limit [DIGEST_MAX_RSS] that is not negative
    the run selects as many items as the limit allows, or all new items
    when there are fewer; for a limit of zero or less it selects none. *)
Theorem selectedFeedItems_spec :
  forall w : Cron.World,
    let limit := Cron.DIGEST_MAX_RSS (Cron.config w) in
    let fetched := Cron.fetchMultipleFeeds w (Cron.allFeeds w) in
    (forall scored,
        In scored (Cron.selectedFeedItems w) ->
        In scored (scoreAndRankFeedItems (Cron.scoreClock w) fetched (Cron.interests w))
        /\ In (item scored) fetched
        /\ matchedTopics scored <> []
        /\ (forall a, In a (Cron.allArticles w) ->
              Cron.canonicalizeUrl w (Rss.link (item scored)) <> Cron.articleCanonicalUrl a
              /\ Cron.canonicalizeUrl w (Rss.link (item scored))
                 <> Cron.articleContentHash a))
    /\ (0 <= limit ->
        Z.of_nat (List.length (Cron.selectedFeedItems w))
        = Z.min limit (Z.of_nat (List.length (Cron.newItems w))))
    /\ (limit <= 0 -> Cron.selectedFeedItems w = []).
Proof.
  intros w limit fetched.
  pose proof (selectDiverseItems_bound (Cron.itemAt w)
                (seq 0 (List.length (Cron.newItems w))) limit
                (Cron.DIGEST_MAX_PER_TOPIC (Cron.config w))) as [Hlen Hincl].
  split; [|split].
  - intros scored Hin. unfold Cron.selectedFeedItems in Hin.
    apply List.in_map_iff in Hin. destruct Hin as (l & <- & Hl).
    apply Hincl, List.in_seq in Hl.
    assert (Hnew : In (Cron.itemAt w l) (Cron.newItems w)).
    { unfold Cron.itemAt. apply List.nth_In. lia. }
    unfold Cron.newItems in Hnew. apply List.filter_In in Hnew.
    destruct Hnew as [Hranked Hfresh]. fold fetched in Hranked.
    destruct (scoreAndRankFeedItems_In _ _ _ _ Hranked) as [Hitem Hmatch].
    repeat split; try assumption.
    + intros E. apply negb_true_iff in Hfresh.
      assert (Hex : JS.includes (Cron.canonicalizeUrl w (Rss.link (item (Cron.itemAt w l))))
                      (Cron.existingHashes w) = true).
      { apply includes_In_string. unfold Cron.existingHashes.
        apply List.in_flat_map. exists a. split; [assumption|]. right. left. auto. }
      congruence.
    + intros E. apply negb_true_iff in Hfresh.
      assert (Hex : JS.includes (Cron.canonicalizeUrl w (Rss.link (item (Cron.itemAt w l))))
                      (Cron.existingHashes w) = true).
      { apply includes_In_string. unfold Cron.existingHashes.
        apply List.in_flat_map. exists a. split; [assumption|]. left. auto. }
      congruence.
  - intros Hpos. unfold Cron.selectedFeedItems. rewrite List.length_map.
    fold limit. rewrite selectDiverseItems_count by (auto using List.seq_NoDup).
    now rewrite List.length_seq.
  - intros Hneg. unfold Cron.selectedFeedItems. fold limit.
    destruct (selectDiverseItems _ _ _ _); [reflexivity|].
    cbn [List.length] in Hlen. lia.
Qed.

(** ** Lists in environment variables *)

Lemma split_pieces (p : ascii -> bool) (c : ascii) (s : string) :
  Forall (fun piece => JS.every (URL.isNot c) piece = true
                       /\ (JS.every p s = true -> JS.every p piece = true))
    (URL.split c s).
Proof.
  induction s as [|x s IH]; cbn [URL.split].
  - repeat constructor.
  - destruct (Ascii.eqb x c) eqn:Hx.
    + constructor; [split; reflexivity|].
      eapply List.Forall_impl; [|exact IH]. intros piece [H1 H2]. split; [assumption|].
      cbn [JS.every]. rewrite andb_true_iff. intros [_ H]. auto.
    + destruct (URL.split c s) as [|first others].
      * constructor; [|constructor]. cbn [JS.every]. unfold URL.isNot at 1.
        rewrite Hx. split; [reflexivity|]. rewrite !andb_true_r, andb_true_iff.
        now intros [Hp _].
      * inversion IH as [|? ? [H1 H2] Ho]; subst. constructor.
        -- cbn [JS.every]. unfold URL.isNot at 1. rewrite Hx. split; [exact H1|].
           rewrite !andb_true_iff. intros [Hp Hs]. auto.
        -- eapply List.Forall_impl; [|exact Ho]. intros piece [H3 H4].
           split; [assumption|]. cbn [JS.every]. rewrite andb_true_iff.
           intros [_ H]. auto.
Qed.

Lemma trimStart_keeps (p : ascii -> bool) (s : string) :
  JS.every p s = true -> JS.every p (JS.trimStart s) = true.
Proof.
  induction s as [|c s IH]; [reflexivity|]. cbn [JS.trimStart].
  destruct (JS.isWhiteSpace c); [|auto]. cbn [JS.every].
  rewrite andb_true_iff. intros [_ H]. auto.
Qed.

Lemma trimEnd_keeps (p : ascii -> bool) (s : string) :
  JS.every p s = true -> JS.every p (JS.trimEnd s) = true.
Proof.
  induction s as [|c s IH]; [reflexivity|]. cbn [JS.trimEnd JS.every].
  rewrite andb_true_iff. intros [Hc Hs]. specialize (IH Hs).
  destruct (JS.trimEnd s).
  - destruct (JS.isWhiteSpace c); [reflexivity|]. cbn [JS.every]. now rewrite Hc.
  - cbn [JS.every] in *. now rewrite Hc, IH.
Qed.

Lemma parseList_clean (value : option string) :
  Forall Feeds.cleanEntry (Feeds.parseList value).
Proof.
  destruct value as [s|]; [|constructor]. unfold Feeds.parseList.
  destruct (String.eqb s ""); [constructor|].
  apply List.Forall_forall. intros entry Hin.
  apply List.filter_In in Hin. destruct Hin as [Hin Hlen].
  apply List.in_map_iff in Hin. destruct Hin as (piece & <- & Hpiece).
  pose proof (split_pieces (fun _ => true) "," s) as Hp.
  rewrite List.Forall_forall in Hp. destruct (Hp piece Hpiece) as [Hcomma _].
  repeat split.
  - intros E. rewrite E in Hlen. discriminate.
  - apply trim_idempotent.
  - unfold JS.trim. now apply trimEnd_keeps, trimStart_keeps.
Qed.

Lemma whitespace_not_comma (ws : string) :
  JS.every JS.isWhiteSpace ws = true -> JS.every (URL.isNot ",") ws = true.
Proof.
  apply every_impl. vm_compute. reflexivity.
Qed.

Lemma parseList_blank (s : string) :
  JS.every (fun c => JS.isWhiteSpace c || Ascii.eqb c ",") s = true ->
  Feeds.parseList (Some s) = [].
Proof.
  intros Hs. unfold Feeds.parseList. destruct (String.eqb s ""); [reflexivity|].
  apply filter_nothing. intros entry Hin.
  apply List.in_map_iff in Hin. destruct Hin as (piece & <- & Hpiece).
  pose proof (split_pieces (fun c => JS.isWhiteSpace c || Ascii.eqb c ",") "," s) as Hp.
  rewrite List.Forall_forall in Hp. destruct (Hp piece Hpiece) as [Hcomma Hall].
  specialize (Hall Hs).
  assert (Hws : JS.every JS.isWhiteSpace piece = true).
  { clear -Hcomma Hall. induction piece as [|c r IH]; [reflexivity|].
    cbn [JS.every] in *. apply andb_true_iff in Hcomma, Hall.
    destruct Hcomma as [Hc Hr], Hall as [Hc' Hr']. rewrite (IH Hr Hr'), andb_true_r.
    unfold URL.isNot in Hc. destruct (Ascii.eqb c ","); [discriminate|].
    now rewrite orb_false_r in Hc'. }
  now rewrite (trim_whitespace piece Hws).
Qed.

(** X18: the feed list of the environment ([parseRssFeeds]) and the
    recipient list ([parseKindleEmails]) are parsed alike: no entry of
    the result is empty, has whitespace at either end or holds a comma;
    an unset or empty variable gives the empty list, and so does a value
    that consists of commas and whitespace only. *)
Theorem parseRssFeeds_entries :
  (forall feedsEnv : option string,
      Forall Feeds.cleanEntry (Feeds.parseRssFeeds feedsEnv))
  /\ (forall value : option string,
        Forall Feeds.cleanEntry (Email.parseKindleEmails value))
  /\ Feeds.parseRssFeeds None = []
  /\ Feeds.parseRssFeeds (Some ""%string) = []
  /\ (forall s : string,
        JS.every (fun c => JS.isWhiteSpace c || Ascii.eqb c ",") s = true ->
        Feeds.parseRssFeeds (Some s) = [] /\ Email.parseKindleEmails (Some s) = []).
Proof.
  split; [exact parseList_clean|]. split; [exact parseList_clean|].
  split; [reflexivity|]. split; [reflexivity|].
  intros s Hs. split; now apply parseList_blank.
Qed.

Lemma join_cons (sep p q : string) (rest : list string) :
  JS.join sep (p :: q :: rest) = (p ++ sep ++ JS.join sep (q :: rest))%string.
Proof. reflexivity. Qed.

Lemma split_join (before after : string) (entries : list string) :
  JS.every JS.isWhiteSpace before = true ->
  JS.every JS.isWhiteSpace after = true ->
  Forall Feeds.cleanEntry entries ->
  entries <> [] ->
  forall prefix,
    JS.every JS.isWhiteSpace prefix = true ->
    List.map JS.trim
      (URL.split "," (prefix ++ JS.join (before ++ "," ++ after) entries)%string)
    = entries.
Proof.
  intros Hb Ha Hclean. induction Hclean as [|u rest Hu Hrest IH]; [congruence|].
  intros _ prefix Hp. destruct Hu as (Hne & Htrim & Hcomma).
  destruct rest as [|v rest].
  - cbn [JS.join]. rewrite split_none.
    + cbn [List.map]. rewrite <- (append_empty_r (prefix ++ u)%string).
      rewrite append_assoc_s, trim_padded by auto. now rewrite Htrim.
    + rewrite every_app, (whitespace_not_comma _ Hp), Hcomma. reflexivity.
  - rewrite join_cons.
    replace (prefix ++ u ++ (before ++ "," ++ after) ++ JS.join (before ++ "," ++ after) (v :: rest))%string
      with ((prefix ++ u ++ before) ++ String "," (after ++ JS.join (before ++ "," ++ after) (v :: rest)))%string.
    + rewrite split_app.
      * cbn [List.map]. rewrite trim_padded by assumption. rewrite Htrim.
        f_equal. apply IH; [discriminate | assumption].
      * rewrite !every_app, (whitespace_not_comma _ Hp), (whitespace_not_comma _ Hb),
          Hcomma. reflexivity.
    + rewrite !append_assoc_s. reflexivity.
Qed.

(** X19: writing a list of entries with commas (and any whitespace
    around the commas) and parsing it gives the list back, when no entry
    is empty, has whitespace at either end or holds a comma. *)
Theorem parseRssFeeds_join :
  forall (entries : list string) (before after : string),
    Forall Feeds.cleanEntry entries ->
    JS.every JS.isWhiteSpace before = true ->
    JS.every JS.isWhiteSpace after = true ->
    Feeds.parseRssFeeds (Some (JS.join (before ++ "," ++ after) entries)) = entries.
Proof.
  intros entries before after Hclean Hb Ha.
  unfold Feeds.parseRssFeeds, Feeds.parseList.
  destruct entries as [|u rest]; [reflexivity|].
  assert (Hne : String.eqb (JS.join (before ++ "," ++ after) (u :: rest)) "" = false).
  { apply String.eqb_neq. inversion Hclean as [|? ? (Hu & _) _]; subst.
    destruct u as [|c u]; [congruence|].
    destruct rest; cbn [JS.join]; discriminate. }
  rewrite Hne.
  pose proof (split_join before after (u :: rest) Hb Ha Hclean ltac:(discriminate)
                ""%string eq_refl) as Hsplit.
  change ("" ++ ?s)%string with s in Hsplit. rewrite Hsplit.
  apply List.forallb_filter_id. apply forallb_forall. intros entry Hin.
  rewrite List.Forall_forall in Hclean. destruct (Hclean entry Hin) as (Hentry & _).
  destruct entry; [congruence | reflexivity].
Qed.

Lemma parseRssFeeds_join_witness :
  Feeds.parseRssFeeds
    (Some (JS.join ("" ++ "," ++ " ")
             ["https://a.example/feed"; "https://b.example/rss"]%string))
  = ["https://a.example/feed"; "https://b.example/rss"]%string.
Proof.
  apply (parseRssFeeds_join ["https://a.example/feed"; "https://b.example/rss"]%string
           "" " ").
  - repeat constructor; discriminate.
  - reflexivity.
  - reflexivity.
Defined.

(** ** Fetching feeds *)









(** ** Delivery without recipients *)

Lemma sendDigestToKindle_no_recipients (env : Email.Env)
    (send : Email.Request -> Cron.result Email.Reply) (epub : Cron.Buffer)
    (filename subject text : string) :
  Email.parseKindleEmails (Email.KINDLE_EMAIL_TO env) = [] ->
  Email.sendDigestToKindle env send epub filename subject text
  = Cron.Throw "No Kindle email addresses configured (KINDLE_EMAIL_TO)".
Proof.
  intros H. unfold Email.sendDigestToKindle. now rewrite H.
Qed.

(** X21: when the recipient variable gives no address, a run that has
    something to send and has built its EPUB fails: it throws "No Kindle
    email addresses configured (KINDLE_EMAIL_TO)", whatever the other
    settings of the email service are, records that message on its row
    with status FAILED, and marks no article as sent. *)
Theorem main_without_recipients :
  forall (w : Cron.World) (userId : string) (epub : Cron.Buffer) (env : Email.Env)
         (send : Email.Request -> Cron.result Email.Reply)
         (subjectOf : Z -> string) (textOf : Z -> string),
    Cron.adminUser w = Some userId ->
    Delivery.nothingToSend w = false ->
    Delivery.epubResult w = Cron.Ok epub ->
    (forall buffer filename articleCount date,
        Cron.sendDigestToKindle w buffer filename articleCount date
        = Email.sendDigestToKindle env send buffer filename (subjectOf date)
            (textOf articleCount)) ->
    Email.parseKindleEmails (Email.KINDLE_EMAIL_TO env) = [] ->
    let outcome := fst (Cron.main w Cron.initialState) in
    let final := snd (Cron.main w Cron.initialState) in
    outcome = Cron.Throw "No Kindle email addresses configured (KINDLE_EMAIL_TO)"
    /\ existsb Delivery.isMarkSent (Cron.trace final) = false
    /\ exists run,
         Cron.digestRun final = Some run
         /\ Cron.status run = Cron.FAILED
         /\ Cron.error run
            = Some "No Kindle email addresses configured (KINDLE_EMAIL_TO)"%string
         /\ Cron.includedArticleIds run = [].
Proof.
  intros w userId epub env send subjectOf textOf Huser Hsend Hepub Himpl Hnone
    outcome final.
  unfold outcome, final. clear outcome final.
  pose proof (main_run w userId Huser) as Hrun. cbv zeta in Hrun. rewrite Hrun.
  clear Hrun. rewrite Hsend, Hepub. unfold Delivery.sendResult.
  rewrite Himpl, sendDigestToKindle_no_recipients by assumption.
  cbn [fst snd Cron.trace Cron.digestRun].
  pose proof (existsb_extractionEvents w (Cron.selectedFeedItems w)
                Delivery.isMarkSent (fun _ => eq_refl) (fun _ => eq_refl)) as Hem.
  split; [reflexivity|]. split.
  - rewrite !existsb_app, Hem. reflexivity.
  - eexists. repeat split.
Qed.

Lemma main_without_recipients_witness :
  fst (Cron.main DeliveryExamples.unconfiguredWorld Cron.initialState)
  = Cron.Throw "No Kindle email addresses configured (KINDLE_EMAIL_TO)".
Proof.
  destruct (main_without_recipients DeliveryExamples.unconfiguredWorld "admin" "epub"
              DeliveryExamples.noRecipients DeliveryExamples.accept
              (fun _ => "Kindle Digest"%string)
              (fun _ => "Your daily digest is attached."%string)
              eq_refl eq_refl eq_refl (fun _ _ _ _ => eq_refl) eq_refl) as [H _].
  exact H.
Defined.

(** ** Word count and reading time *)

Lemma splitWhiteSpace_count (s : string) :
  let count := fun pieces : list string =>
    List.length (List.filter (fun word => (0 <? String.length word)%nat) pieces) in
  count (Extraction.splitWhiteSpace false s) = Extraction.wordStarts false s
  /\ count (Extraction.splitWhiteSpace true s) = Extraction.wordStarts false s
  /\ count (List.tl (Extraction.splitWhiteSpace false s)) = Extraction.wordStarts true s
  /\ Extraction.splitWhiteSpace false s <> [].
Proof.
  cbv zeta. induction s as [|c r IH];
    cbn [Extraction.splitWhiteSpace Extraction.wordStarts].
  - repeat split; discriminate.
  - destruct IH as (H1 & H2 & H3 & H4).
    destruct (JS.isWhiteSpace c).
    + cbn [List.filter String.length Nat.ltb Nat.leb List.tl].
      repeat split; try assumption. discriminate.
    + destruct (Extraction.splitWhiteSpace false r) as [|first others];
        [contradiction|].
      cbn [List.filter String.length Nat.ltb Nat.leb List.tl List.length] in *.
      repeat split; try discriminate; now rewrite H3.
Qed.

Lemma wordStarts_trimStart (s : string) :
  Extraction.wordStarts false (JS.trimStart s) = Extraction.wordStarts false s.
Proof.
  induction s as [|c r IH]; [reflexivity|]. cbn [JS.trimStart].
  destruct (JS.isWhiteSpace c) eqn:Hc; [|reflexivity].
  cbn [Extraction.wordStarts]. now rewrite Hc.
Qed.

Lemma wordStarts_whitespace (ws : string) (inWord : bool) :
  JS.every JS.isWhiteSpace ws = true -> Extraction.wordStarts inWord ws = 0%nat.
Proof.
  revert inWord. induction ws as [|c r IH]; intros inWord; [reflexivity|].
  cbn [JS.every Extraction.wordStarts]. rewrite andb_true_iff. intros [Hc Hr].
  rewrite Hc. now apply IH.
Qed.

Lemma trimEnd_empty (s : string) :
  JS.trimEnd s = ""%string -> JS.every JS.isWhiteSpace s = true.
Proof.
  induction s as [|c r IH]; [reflexivity|]. cbn [JS.trimEnd JS.every].
  destruct (JS.trimEnd r); [|discriminate].
  destruct (JS.isWhiteSpace c); [intros _; now apply IH | discriminate].
Qed.

Lemma wordStarts_trimEnd (s : string) (inWord : bool) :
  Extraction.wordStarts inWord (JS.trimEnd s) = Extraction.wordStarts inWord s.
Proof.
  revert inWord. induction s as [|c r IH]; intros inWord; [reflexivity|].
  cbn [JS.trimEnd]. destruct (JS.trimEnd r) as [|x r'] eqn:E.
  - pose proof (trimEnd_empty r E) as Hr.
    cbn [Extraction.wordStarts].
    destruct (JS.isWhiteSpace c) eqn:Hc.
    + now rewrite (wordStarts_whitespace r false Hr).
    + cbn [Extraction.wordStarts]. rewrite Hc.
      now rewrite (wordStarts_whitespace r true Hr).
  - rewrite <- E in IH |- *. cbn [Extraction.wordStarts]. now rewrite !IH.
Qed.

Lemma countWords_wordStarts (text : string) :
  Extraction.countWords text = Z.of_nat (Extraction.wordStarts false text).
Proof.
  unfold Extraction.countWords.
  destruct (splitWhiteSpace_count (JS.trim text)) as (H & _). cbv zeta in H.
  rewrite H. unfold JS.trim. now rewrite wordStarts_trimEnd, wordStarts_trimStart.
Qed.

Lemma wordStarts_separated (a ws b : string) (inWord : bool) :
  ws <> ""%string ->
  JS.every JS.isWhiteSpace ws = true ->
  Extraction.wordStarts inWord (a ++ ws ++ b)%string
  = (Extraction.wordStarts inWord a + Extraction.wordStarts false b)%nat.
Proof.
  intros Hne Hws. revert inWord. induction a as [|c a IH]; intros inWord.
  - change ("" ++ ws ++ b)%string with (ws ++ b)%string.
    cbn [Extraction.wordStarts Nat.add].
    destruct ws as [|x ws]; [congruence|]. clear Hne.
    cbn [JS.every] in Hws. apply andb_true_iff in Hws. destruct Hws as [Hx Hws].
    rewrite append_String. cbn [Extraction.wordStarts]. rewrite Hx.
    clear Hx. induction ws as [|y ws IH]; [reflexivity|].
    cbn [JS.every] in Hws. apply andb_true_iff in Hws. destruct Hws as [Hy Hws].
    rewrite append_String. cbn [Extraction.wordStarts]. rewrite Hy. now apply IH.
  - rewrite append_String. cbn [Extraction.wordStarts].
    destruct (JS.isWhiteSpace c); rewrite IH; lia.
Qed.

Lemma wordStarts_word (word : string) (inWord : bool) :
  JS.every Extraction.isNotWhiteSpace word = true ->
  Extraction.wordStarts true word = 0%nat.
Proof.
  induction word as [|c r IH]; [reflexivity|].
  cbn [JS.every Extraction.wordStarts]. unfold Extraction.isNotWhiteSpace at 1.
  rewrite andb_true_iff. intros [Hc Hr]. apply negb_true_iff in Hc.
  rewrite Hc. now apply IH.
Qed.

(** X22: [countWords] counts the words of a text, the maximal runs of
    characters that are not whitespace: a text of whitespace only (or the
    empty text) has 0 words, a run of characters without whitespace is 1
    word, and two texts joined by whitespace have the words of both. *)
Theorem countWords_spec :
  (forall ws : string,
      JS.every JS.isWhiteSpace ws = true -> Extraction.countWords ws = 0)
  /\ (forall word : string,
        word <> ""%string ->
        JS.every Extraction.isNotWhiteSpace word = true ->
        Extraction.countWords word = 1)
  /\ (forall a ws b : string,
        ws <> ""%string ->
        JS.every JS.isWhiteSpace ws = true ->
        Extraction.countWords (a ++ ws ++ b)
        = Extraction.countWords a + Extraction.countWords b).
Proof.
  split; [|split].
  - intros ws Hws. rewrite countWords_wordStarts.
    now rewrite wordStarts_whitespace.
  - intros word Hne Hword. rewrite countWords_wordStarts.
    destruct word as [|c r]; [congruence|].
    cbn [JS.every] in Hword. apply andb_true_iff in Hword.
    destruct Hword as [Hc Hr]. unfold Extraction.isNotWhiteSpace in Hc.
    apply negb_true_iff in Hc. cbn [Extraction.wordStarts]. rewrite Hc.
    now rewrite (wordStarts_word r true Hr).
  - intros a ws b Hne Hws. rewrite !countWords_wordStarts.
    rewrite wordStarts_separated by assumption. lia.
Qed.

Lemma ceiling_minutes (n : Z) :
  Qceiling (inject_Z n / inject_Z Extraction.WORDS_PER_MINUTE) = - ((- n) / 200).
Proof.
  change (Qceiling (inject_Z n / inject_Z Extraction.WORDS_PER_MINUTE))
    with (- ((- (n * 1)) / 200)).
  now rewrite Z.mul_1_r.
Qed.

(** X23: the reading time is at least one minute; it is one minute for
    up to 200 words (also for none); for a text with words it is the
    least number of minutes that covers the words at 200 words per
    minute; and a longer text never gets a shorter reading time. *)
Theorem calculateReadingMinutes_spec :
  (forall wordCount : Z,
      let minutes := Extraction.calculateReadingMinutes wordCount in
      1 <= minutes
      /\ (wordCount <= 200 -> minutes = 1)
      /\ (1 <= wordCount -> 200 * (minutes - 1) < wordCount <= 200 * minutes))
  /\ (forall a b : Z,
        a <= b ->
        Extraction.calculateReadingMinutes a <= Extraction.calculateReadingMinutes b)
  /\ (forall text : string,
        1 <= Extraction.calculateReadingMinutes (Extraction.countWords text)).
Proof.
  assert (Hceil : forall n, 200 * (- ((- n) / 200) - 1) < n <= 200 * (- ((- n) / 200))).
  { intros n. pose proof (Z.div_mod (- n) 200 ltac:(lia)) as Hdm.
    pose proof (Z.mod_pos_bound (- n) 200 ltac:(lia)). lia. }
  split; [|split].
  - intros wordCount minutes. unfold minutes, Extraction.calculateReadingMinutes.
    rewrite ceiling_minutes. specialize (Hceil wordCount). lia.
  - intros a b Hab. unfold Extraction.calculateReadingMinutes.
    rewrite !ceiling_minutes.
    pose proof (Hceil a). pose proof (Hceil b). lia.
  - intros text. unfold Extraction.calculateReadingMinutes. lia.
Qed.

(** ** Canonical URLs: what the canonical form is *)










(** ** Batches *)

Section BatchFacts.
Context {A St : Type}.

Lemma batchLoop_chunks (size : nat) (body : St -> list A -> St) (arr : list A) :
  forall (fuel i : nat) (s : St),
    Batches.batchLoop size body fuel i arr s
    = fold_left body (Batches.chunks size fuel (skipn i arr)) s.
Proof.
  induction fuel as [|fuel IH]; intros i s; cbn [Batches.batchLoop Batches.chunks];
    [reflexivity|].
  destruct (i <? List.length arr)%nat eqn:Hi.
  - apply Nat.ltb_lt in Hi.
    destruct (skipn i arr) as [|x rest] eqn:E.
    + apply (f_equal (@List.length A)) in E. rewrite List.length_skipn in E.
      cbn [List.length] in E. lia.
    + cbn [fold_left]. rewrite IH. rewrite <- E, List.skipn_skipn.
      now rewrite (Nat.add_comm size i).
  - apply Nat.ltb_ge in Hi. now rewrite List.skipn_all2.
Qed.

Lemma chunks_concat (size : nat) :
  (0 < size)%nat ->
  forall (fuel : nat) (arr : list A),
    (List.length arr <= fuel)%nat ->
    List.concat (Batches.chunks size fuel arr) = arr
    /\ Forall (fun batch => batch <> [] /\ (List.length batch <= size)%nat)
         (Batches.chunks size fuel arr).
Proof.
  intros Hsize. induction fuel as [|fuel IH]; intros arr Hlen; cbn [Batches.chunks].
  - destruct arr; [split; [reflexivity | constructor] | cbn in Hlen; lia].
  - destruct arr as [|x rest] eqn:E; [split; [reflexivity | constructor]|].
    rewrite <- E in *. assert (Hpos : (0 < List.length arr)%nat) by (subst; cbn; lia).
    destruct (IH (skipn size arr)) as [Hc Hf].
    { rewrite List.length_skipn. lia. }
    cbn [List.concat]. rewrite Hc, List.firstn_skipn. split; [reflexivity|].
    constructor; [|exact Hf]. split.
    + intros Hnil. apply (f_equal (@List.length A)) in Hnil.
      rewrite List.length_firstn in Hnil. cbn [List.length] in Hnil. lia.
    + rewrite List.length_firstn. lia.
Qed.

Lemma fold_left_concat (f : St -> A -> St) (batches : list (list A)) :
  forall s : St,
    fold_left (fun s batch => fold_left f batch s) batches s
    = fold_left f (List.concat batches) s.
Proof.
  induction batches as [|batch rest IH]; intros s; [reflexivity|].
  cbn [fold_left List.concat]. now rewrite IH, List.fold_left_app.
Qed.

End BatchFacts.

Section InsertFacts.
Context {A V : Type} (key : A -> string) (val : A -> V).

Lemma fold_insert_lookup (l : list A) :
  forall m : gmap string V,
    let r := fold_left (fun m x => <[key x := val x]> m) l m in
    (forall k, is_Some (r !! k) <-> In k (List.map key l) \/ is_Some (m !! k))
    /\ (forall k, ~ In k (List.map key l) -> r !! k = m !! k)
    /\ (List.NoDup (List.map key l) ->
        forall x, In x l -> r !! key x = Some (val x)).
Proof.
  induction l as [|y rest IH]; intros m; cbn [fold_left List.map In].
  - split; [intros k; tauto|]. split; [reflexivity | intros _ x []].
  - destruct (IH (<[key y := val y]> m)) as (H1 & H2 & H3). cbv zeta in *.
    split; [|split].
    + intros k. rewrite H1. destruct (String.eqb_spec (key y) k) as [<-|Hne].
      * rewrite lookup_insert_eq. split; [auto | intros _; right; eauto].
      * rewrite lookup_insert_ne by assumption. tauto.
    + intros k Hk. rewrite H2 by tauto.
      apply lookup_insert_ne. tauto.
    + intros Hnd x [<-|Hx].
      * inversion Hnd; subst. rewrite H2 by assumption. apply lookup_insert_eq.
      * inversion Hnd; subst. now apply H3.
Qed.

End InsertFacts.

(** ** Ranking with the model *)

Lemma markBatch_lookup (batch : list Llm.ArticleForRanking) :
  forall (results : gmap string Llm.Ranking) (k : string),
    Ranking.markBatch batch results !! k
    = if existsb (String.eqb k) (List.map Llm.id batch)
      then Some Ranking.fallbackRanking
      else results !! k.
Proof.
  unfold Ranking.markBatch.
  induction batch as [|a rest IH]; intros results k; cbn [fold_left List.map existsb];
    [reflexivity|].
  rewrite IH. destruct (existsb (String.eqb k) (List.map Llm.id rest));
    [now rewrite orb_true_r|]. rewrite orb_false_r.
  destruct (String.eqb_spec k (Llm.id a)) as [->|Hne].
  - apply lookup_insert_eq.
  - apply lookup_insert_ne. congruence.
Qed.

Lemma setRankings_keeps (rankings : list Ranking.RankingEntry) :
  forall (results : gmap string Llm.Ranking) (k : string),
    is_Some (results !! k) ->
    is_Some (fst (Ranking.setRankings rankings results) !! k).
Proof.
  induction rankings as [|[rankingId tier reason|] rest IH]; intros results k Hk;
    cbn [Ranking.setRankings fst]; [assumption | | assumption].
  apply IH. destruct (String.eqb_spec rankingId k) as [->|Hne].
  - rewrite lookup_insert_eq. eauto.
  - now rewrite lookup_insert_ne.
Qed.

Lemma markBatch_keeps (batch : list Llm.ArticleForRanking)
    (results : gmap string Llm.Ranking) (k : string) :
  is_Some (results !! k) -> is_Some (Ranking.markBatch batch results !! k).
Proof.
  intros Hk. rewrite markBatch_lookup. destruct (existsb _ _); eauto.
Qed.

Lemma rankBatch_keeps (complete : list Llm.ArticleForRanking -> Ranking.Completion)
    (results : gmap string Llm.Ranking) (batch : list Llm.ArticleForRanking)
    (k : string) :
  is_Some (results !! k) -> is_Some (Ranking.rankBatch complete results batch !! k).
Proof.
  intros Hk. unfold Ranking.rankBatch.
  destruct (complete batch) as [| |rankings]; [now apply markBatch_keeps | assumption|].
  pose proof (setRankings_keeps rankings results k Hk) as Hs.
  destruct (Ranking.setRankings rankings results) as [results' threw].
  cbn [fst] in Hs. destruct threw; [now apply markBatch_keeps | assumption].
Qed.

Lemma rankBatches_keep (complete : list Llm.ArticleForRanking -> Ranking.Completion)
    (batches : list (list Llm.ArticleForRanking)) :
  forall (results : gmap string Llm.Ranking) (k : string),
    is_Some (results !! k) ->
    is_Some (fold_left (Ranking.rankBatch complete) batches results !! k).
Proof.
  induction batches as [|batch rest IH]; intros results k Hk; cbn [fold_left];
    [assumption|].
  now apply IH, rankBatch_keeps.
Qed.

Lemma existsb_eqb_In (k : string) (l : list string) :
  existsb (String.eqb k) l = true <-> In k l.
Proof. apply includes_In_string. Qed.

Lemma fold_left_ext_In {A St : Type} (f g : St -> A -> St) (l : list A) :
  (forall s x, In x l -> f s x = g s x) ->
  forall s, fold_left f l s = fold_left g l s.
Proof.
  induction l as [|x rest IH]; intros Hfg s; [reflexivity|].
  cbn [fold_left]. rewrite Hfg by now left.
  apply IH. intros s' y Hy. apply Hfg. now right.
Qed.

Lemma canFormat_spec (date : option JS.Date) :
  JS.canFormat date = true <-> date <> Some JS.Invalid.
Proof.
  destruct date as [[t|]|]; cbn; split; try discriminate; try reflexivity.
  intros H. now contradiction H.
Qed.

Lemma forallb_canFormat (articles : list Llm.ArticleForRanking) :
  forallb (fun a => JS.canFormat (Llm.pubDate a)) articles = true
  <-> Forall (fun a => Llm.pubDate a <> Some JS.Invalid) articles.
Proof.
  rewrite forallb_forall, List.Forall_forall.
  split; intros H a Ha; apply canFormat_spec; auto.
Qed.

Lemma rankTurns_throw (complete : list Llm.ArticleForRanking -> Ranking.Completion)
    (batches : list (list Llm.ArticleForRanking)) (message : string) :
  fold_left (Ranking.rankTurn complete) batches (Cron.Throw message)
  = Cron.Throw message.
Proof. induction batches as [|batch rest IH]; [reflexivity | exact IH]. Qed.

(** The loop over the batches: it stops at the first batch whose prompt
    cannot be built. *)
Lemma rankTurns_fold (complete : list Llm.ArticleForRanking -> Ranking.Completion)
    (batches : list (list Llm.ArticleForRanking)) :
  forall results : gmap string Llm.Ranking,
    fold_left (Ranking.rankTurn complete) batches (Cron.Ok results)
    = if forallb (fun a => JS.canFormat (Llm.pubDate a)) (List.concat batches)
      then Cron.Ok (fold_left (Ranking.rankBatch complete) batches results)
      else Cron.Throw Ranking.invalidTime.
Proof.
  induction batches as [|batch rest IH]; intros results; [reflexivity|].
  cbn [fold_left List.concat]. rewrite forallb_app.
  unfold Ranking.rankTurn at 2, Ranking.buildRankingPrompt.
  destruct (forallb _ batch); cbn [andb]; [apply IH | apply rankTurns_throw].
Qed.

(** X26: without a client [rankArticlesBatch] throws, and with one it
    throws when the publish date of an article could not be read (the
    prompt of its batch cannot be built).  Otherwise it returns a map,
    built from the answers for consecutive batches of at most 15 articles
    that together are the input.  Every article of a batch whose call
    fails has an entry in the map.  When every call fails, the map holds
    exactly the ids of the input, each with tier notable and the reason
    "Fallback: LLM ranking failed"; when every call returns without
    content the map is empty. *)
Theorem rankArticlesBatch_spec :
  forall (complete : list Llm.ArticleForRanking -> Ranking.Completion)
         (articles : list Llm.ArticleForRanking),
    let batches := Batches.chunks Ranking.BATCH_SIZE (List.length articles) articles in
    let results := fold_left (Ranking.rankBatch complete) batches ∅ in
    (forall message,
        Ranking.rankArticlesBatch (Cron.Throw message) complete articles
        = Cron.Throw message)
    /\ (Exists (fun a => Llm.pubDate a = Some JS.Invalid) articles ->
        Ranking.rankArticlesBatch (Cron.Ok tt) complete articles
        = Cron.Throw "Invalid time value")
    /\ (Forall (fun a => Llm.pubDate a <> Some JS.Invalid) articles ->
        Ranking.rankArticlesBatch (Cron.Ok tt) complete articles = Cron.Ok results)
    /\ List.concat batches = articles
    /\ Forall (fun batch => batch <> [] /\ (List.length batch <= 15)%nat) batches
    /\ (forall batch article,
          In batch batches -> In article batch -> complete batch = Ranking.Failed ->
          is_Some (results !! Llm.id article))
    /\ ((forall batch, In batch batches -> complete batch = Ranking.Failed) ->
        forall k,
          results !! k
          = if existsb (String.eqb k) (List.map Llm.id articles)
            then Some Ranking.fallbackRanking else None)
    /\ ((forall batch, In batch batches -> complete batch = Ranking.NoContent) ->
        results = ∅).
Proof.
  intros complete articles batches results.
  destruct (chunks_concat (A := Llm.ArticleForRanking) Ranking.BATCH_SIZE
              ltac:(unfold Ranking.BATCH_SIZE; lia) (List.length articles) articles
              (Nat.le_refl _)) as [Hconcat Hsizes].
  fold batches in Hconcat, Hsizes.
  assert (Hrun : Ranking.rankArticlesBatch (Cron.Ok tt) complete articles
                 = if forallb (fun a => JS.canFormat (Llm.pubDate a)) articles
                   then Cron.Ok results
                   else Cron.Throw Ranking.invalidTime).
  { unfold Ranking.rankArticlesBatch. rewrite batchLoop_chunks.
    change (skipn 0 articles) with articles. fold batches.
    rewrite rankTurns_fold, Hconcat. reflexivity. }
  split; [reflexivity|].
  split; [|split; [|split; [exact Hconcat|split; [exact Hsizes|]]]].
  - intros Hinvalid. rewrite Hrun.
    destruct (forallb _ articles) eqn:Hall; [exfalso | reflexivity].
    apply forallb_canFormat in Hall. apply List.Exists_exists in Hinvalid.
    destruct Hinvalid as (a & Ha & Hdate). rewrite List.Forall_forall in Hall.
    now apply (Hall a Ha).
  - intros Hvalid. rewrite Hrun.
    apply forallb_canFormat in Hvalid. now rewrite Hvalid.
  - split; [|split].
    + intros batch article Hbatch Harticle Hfail. unfold results.
      apply List.in_split in Hbatch. destruct Hbatch as (before & after & ->).
      rewrite List.fold_left_app. cbn [fold_left]. apply rankBatches_keep.
      unfold Ranking.rankBatch. rewrite Hfail, markBatch_lookup.
      assert (Hin : existsb (String.eqb (Llm.id article)) (List.map Llm.id batch) = true)
        by (apply existsb_eqb_In; now apply List.in_map).
      rewrite Hin. eauto.
    + intros Hall k. unfold results.
      rewrite (fold_left_ext_In _ (fun results batch => Ranking.markBatch batch results)).
      * unfold Ranking.markBatch. rewrite fold_left_concat, Hconcat.
        fold (Ranking.markBatch articles ∅). rewrite markBatch_lookup.
        destruct (existsb _ _); [reflexivity | apply lookup_empty].
      * intros s batch Hbatch. unfold Ranking.rankBatch. now rewrite (Hall batch Hbatch).
    + intros Hall. unfold results.
      rewrite (fold_left_ext_In _ (fun results _ => results)).
      * clear. generalize (∅ : gmap string Llm.Ranking).
        induction batches as [|batch rest IH]; intros s; [reflexivity | apply IH].
      * intros s batch Hbatch. unfold Ranking.rankBatch. now rewrite (Hall batch Hbatch).
Qed.

(** ** Tier names *)

Lemma toLowerCase_char_idempotent (c : ascii) :
  JS.toLowerCase_char (JS.toLowerCase_char c) = JS.toLowerCase_char c.
Proof.
  assert (Hall : forallb (fun x => Ascii.eqb (JS.toLowerCase_char (JS.toLowerCase_char x))
                                     (JS.toLowerCase_char x)) JS.allChars = true)
    by (vm_compute; reflexivity).
  rewrite forallb_forall in Hall. apply Ascii.eqb_eq, Hall, allChars_complete.
Qed.

Lemma toLowerCase_idempotent (s : string) :
  JS.toLowerCase (JS.toLowerCase s) = JS.toLowerCase s.
Proof.
  unfold JS.toLowerCase. induction s as [|c r IH]; [reflexivity|].
  cbn [JS.map]. now rewrite toLowerCase_char_idempotent, IH.
Qed.

(** X27: [validateTier] ignores the case of its argument and the
    whitespace around it, returns each of the three tiers for its name,
    and returns notable for everything else. *)
Theorem validateTier_spec :
  (forall tier before after : string,
      JS.every JS.isWhiteSpace before = true ->
      JS.every JS.isWhiteSpace after = true ->
      Ranking.validateTier (before ++ tier ++ after) = Ranking.validateTier tier)
  /\ (forall tier : string,
        Ranking.validateTier (JS.toLowerCase tier) = Ranking.validateTier tier)
  /\ (forall tier : Llm.ArticleTier,
        Ranking.validateTier (Ranking.tierName tier) = tier)
  /\ (forall tier : string,
        Ranking.validateTier tier <> Llm.notable ->
        JS.trim (JS.toLowerCase tier)
        = Ranking.tierName (Ranking.validateTier tier)).
Proof.
  split; [|split; [|split]].
  - intros tier before after Hb Ha. unfold Ranking.validateTier.
    unfold JS.toLowerCase. rewrite !map_append.
    fold (JS.toLowerCase before) (JS.toLowerCase tier) (JS.toLowerCase after).
    rewrite (toLowerCase_whitespace before Hb), (toLowerCase_whitespace after Ha).
    now rewrite trim_padded.
  - intros tier. unfold Ranking.validateTier. now rewrite toLowerCase_idempotent.
  - intros []; reflexivity.
  - intros tier. unfold Ranking.validateTier.
    destruct (String.eqb_spec (JS.trim (JS.toLowerCase tier)) "critical") as [->|_];
      [reflexivity|].
    destruct (String.eqb_spec (JS.trim (JS.toLowerCase tier)) "notable") as [->|_];
      [reflexivity|].
    destruct (String.eqb_spec (JS.trim (JS.toLowerCase tier)) "related") as [->|_];
      [reflexivity | congruence].
Qed.

(** ** Summaries with the model *)

Lemma fold_insert_value {A V : Type} (key : A -> string) (val : A -> V) (l : list A) :
  forall (m : gmap string V) (k : string) (v : V),
    fold_left (fun m x => <[key x := val x]> m) l m !! k = Some v ->
    (exists x, In x l /\ key x = k /\ v = val x) \/ m !! k = Some v.
Proof.
  induction l as [|y rest IH]; intros m k v; cbn [fold_left]; [auto|].
  intros H. apply IH in H. destruct H as [(x & Hx & Hk & Hv)|H].
  - left. exists x. split; [now right | auto].
  - destruct (String.eqb_spec (key y) k) as [<-|Hne].
    + rewrite lookup_insert_eq in H. inversion H; subst. left. exists y.
      split; [now left | auto].
    + rewrite lookup_insert_ne in H by assumption. now right.
Qed.

Lemma summarize_nonempty
    (complete : Llm.ArticleForRanking -> string -> Llm.ArticleTier
                -> Summarization.Completion)
    (article : Llm.ArticleForRanking) (fullContent : string) (tier : Llm.ArticleTier) :
  Llm.summary (Summarization.summarize complete article fullContent tier) <> ""%string.
Proof.
  assert (Hdots : forall s, (s ++ "...")%string <> ""%string).
  { intros s E. apply (f_equal String.length) in E. rewrite length_append in E.
    cbn in E. lia. }
  unfold Summarization.summarize.
  destruct (complete article fullContent tier) as [| |parsed one];
    cbn [Llm.summary]; try apply Hdots.
  destruct parsed as [s|]; cbn [Feeds.truthy from_option id]; [|apply Hdots].
  destruct (String.eqb_spec s ""); cbn [from_option id]; [apply Hdots | assumption].
Qed.

Lemma fold_left_filter {A St : Type} (p : A -> bool) (f : St -> A -> St) (l : list A) :
  forall s : St,
    fold_left (fun s x => if p x then f s x else s) l s
    = fold_left f (List.filter p l) s.
Proof.
  induction l as [|x rest IH]; intros s; [reflexivity|].
  cbn [fold_left List.filter]. destruct (p x); cbn [fold_left]; apply IH.
Qed.

Lemma NoDup_map_filter {A B : Type} (f : A -> B) (p : A -> bool) (l : list A) :
  List.NoDup (List.map f l) -> List.NoDup (List.map f (List.filter p l)).
Proof.
  induction l as [|x rest IH]; intros Hnd; [constructor|].
  cbn [List.map] in Hnd. apply List.NoDup_cons_iff in Hnd. destruct Hnd as [Hx Hnd].
  cbn [List.filter]. destruct (p x); [|now apply IH].
  cbn [List.map]. constructor; [|now apply IH].
  intros Hin. apply Hx. apply List.in_map_iff in Hin.
  destruct Hin as (y & Hy & Hin). apply List.filter_In in Hin.
  apply List.in_map_iff. exists y. tauto.
Qed.

(** The summaries that are stored are those of the articles whose prompt
    can be built. *)
Lemma generateSummariesBatch_fold
    (complete : Llm.ArticleForRanking -> string -> Llm.ArticleTier
                -> Summarization.Completion)
    (inputs : list Summarization.SummaryInput) :
  Summarization.generateSummariesBatch (Cron.Ok tt) complete inputs
  = fold_left
      (fun results input =>
         <[Llm.id (Summarization.article input) :=
             Summarization.summarize complete (Summarization.article input)
               (Summarization.fullContent input) (Summarization.tier input)]> results)
      (List.filter
         (fun input => JS.canFormat (Llm.pubDate (Summarization.article input))) inputs)
      ∅.
Proof.
  unfold Summarization.generateSummariesBatch. rewrite batchLoop_chunks.
  unfold Summarization.summarizeBatch.
  rewrite fold_left_concat.
  destruct (chunks_concat (A := Summarization.SummaryInput) Summarization.CONCURRENCY
              ltac:(unfold Summarization.CONCURRENCY; lia) (List.length inputs) inputs
              (Nat.le_refl _)) as [Hconcat _].
  change (skipn 0 inputs) with inputs. rewrite Hconcat.
  rewrite <- fold_left_filter. apply fold_left_ext_In.
  intros results input _.
  unfold Summarization.generateSummary, Summarization.buildSummaryPrompt.
  now destruct (JS.canFormat _).
Qed.

(** X28: [generateSummariesBatch] never throws.  Without a client it
    returns the empty map.  With one, [generateSummary] throws for an
    article whose publish date could not be read (its prompt cannot be
    built), and the map holds exactly the ids of the other articles of the
    input; for pairwise-distinct ids each of them finds the summary that
    [generateSummary] returns for it; no stored summary is the empty
    string; and when the call for such an article fails or returns no
    content, its summary is the excerpt cut to 400 characters (tier
    critical) or 150, followed by "...", with the title as one-liner for
    tier related only. *)
Theorem generateSummariesBatch_spec :
  forall (complete : Llm.ArticleForRanking -> string -> Llm.ArticleTier
                     -> Summarization.Completion)
         (inputs : list Summarization.SummaryInput),
    let results := Summarization.generateSummariesBatch (Cron.Ok tt) complete inputs in
    let idOf := fun input => Llm.id (Summarization.article input) in
    let dateOf := fun input => Llm.pubDate (Summarization.article input) in
    let own := fun input =>
      Summarization.generateSummary (Cron.Ok tt) complete (Summarization.article input)
        (Summarization.fullContent input) (Summarization.tier input) in
    (forall message,
        Summarization.generateSummariesBatch (Cron.Throw message) complete inputs = ∅)
    /\ (forall input,
          dateOf input = Some JS.Invalid -> own input = Cron.Throw "Invalid time value")
    /\ (forall k,
          is_Some (results !! k)
          <-> exists input,
                In input inputs /\ idOf input = k /\ dateOf input <> Some JS.Invalid)
    /\ (List.NoDup (List.map idOf inputs) ->
        forall input,
          In input inputs -> dateOf input <> Some JS.Invalid ->
          Cron.Ok <$> results !! idOf input = Some (own input))
    /\ (forall k response,
          results !! k = Some response -> Llm.summary response <> ""%string)
    /\ (forall input,
          dateOf input <> Some JS.Invalid ->
          complete (Summarization.article input) (Summarization.fullContent input)
            (Summarization.tier input) = Summarization.Failed
          \/ complete (Summarization.article input) (Summarization.fullContent input)
               (Summarization.tier input) = Summarization.NoContent ->
          own input
          = Cron.Ok
              {| Llm.summary :=
                   (JS.slice0 (match Summarization.tier input with
                               | Llm.critical => 400
                               | _ => 150
                               end) (Llm.excerpt (Summarization.article input))
                    ++ "...")%string;
                 Llm.oneLiner :=
                   match Summarization.tier input with
                   | Llm.related => Some (Llm.title (Summarization.article input))
                   | _ => None
                   end |}).
Proof.
  intros complete inputs results idOf dateOf own.
  pose proof (generateSummariesBatch_fold complete inputs) as Hfold.
  fold results in Hfold.
  set (readable := List.filter
         (fun input => JS.canFormat (Llm.pubDate (Summarization.article input))) inputs)
    in Hfold.
  assert (Hreadable : forall input,
             In input readable <-> In input inputs /\ dateOf input <> Some JS.Invalid).
  { intros input. unfold readable. rewrite List.filter_In, canFormat_spec. reflexivity. }
  destruct (fold_insert_lookup (fun input => Llm.id (Summarization.article input))
              (fun input => Summarization.summarize complete (Summarization.article input)
                              (Summarization.fullContent input) (Summarization.tier input))
              readable ∅) as (Hkeys & _ & Hown).
  cbv beta zeta in Hkeys, Hown. rewrite <- Hfold in Hkeys, Hown.
  split; [|split; [|split; [|split; [|split]]]].
  - intros message. unfold Summarization.generateSummariesBatch.
    rewrite batchLoop_chunks.
    generalize (Batches.chunks Summarization.CONCURRENCY (List.length inputs)
                  (skipn 0 inputs)).
    intros batches. generalize (∅ : gmap string Llm.SummaryResponse).
    induction batches as [|batch rest IH]; intros s; [reflexivity|].
    cbn [fold_left]. rewrite <- (IH s) at 2. f_equal.
    unfold Summarization.summarizeBatch. clear.
    induction batch as [|input batch IH]; [reflexivity | exact IH].
  - intros input Hdate. unfold own, Summarization.generateSummary,
      Summarization.buildSummaryPrompt.
    unfold dateOf in Hdate. now rewrite Hdate.
  - intros k. rewrite Hkeys, lookup_empty, List.in_map_iff. split.
    + intros [(input & Hid & Hin)|[? H]]; [|discriminate H].
      apply Hreadable in Hin. exists input. tauto.
    + intros (input & Hin & Hid & Hdate). left. exists input.
      split; [exact Hid | apply Hreadable; tauto].
  - intros Hnd input Hin Hdate.
    assert (Hnd' : List.NoDup
               (List.map (fun input => Llm.id (Summarization.article input)) readable))
      by (apply NoDup_map_filter; exact Hnd).
    unfold idOf. rewrite (Hown Hnd' input) by (apply Hreadable; tauto).
    unfold own, Summarization.generateSummary, Summarization.buildSummaryPrompt.
    apply canFormat_spec in Hdate. unfold dateOf in Hdate. now rewrite Hdate.
  - intros k response Hk. rewrite Hfold in Hk. apply fold_insert_value in Hk.
    destruct Hk as [(input & _ & _ & ->)|Hk]; [apply summarize_nonempty|].
    rewrite lookup_empty in Hk. discriminate.
  - intros input Hdate Hc.
    unfold own, Summarization.generateSummary, Summarization.buildSummaryPrompt,
      Summarization.summarize.
    apply canFormat_spec in Hdate. unfold dateOf in Hdate. rewrite Hdate.
    destruct Hc as [-> | ->]; reflexivity.
Qed.

(** ** The tiered runner *)

Lemma filter_three {A : Type} (p q r : A -> bool) (l : list A) :
  (forall x, (p x = true /\ q x = false /\ r x = false)
             \/ (p x = false /\ q x = true /\ r x = false)
             \/ (p x = false /\ q x = false /\ r x = true)) ->
  Permutation (List.filter p l ++ List.filter q l ++ List.filter r l) l.
Proof.
  intros Hone. induction l as [|x l IH]; [reflexivity|].
  cbn [List.filter].
  destruct (Hone x) as [(-> & -> & ->)|[(-> & -> & ->)|(-> & -> & ->)]].
  - cbn [List.app]. now constructor.
  - cbn [List.app]. symmetry. apply Permutation_cons_app. now symmetry.
  - rewrite List.app_assoc. symmetry. apply Permutation_cons_app.
    rewrite <- List.app_assoc. now symmetry.
Qed.

Lemma orElse_nonempty (value : option string) (fallback : string) :
  fallback <> ""%string -> Cron.orElse value fallback <> ""%string.
Proof.
  intros Hf. unfold Cron.orElse. destruct value as [s|]; [|exact Hf].
  destruct (String.eqb_spec s ""); [exact Hf | assumption].
Qed.

Lemma append_dots_nonempty (s : string) : (s ++ "...")%string <> ""%string.
Proof.
  intros E. apply (f_equal String.length) in E. rewrite length_append in E.
  cbn in E. lia.
Qed.

Section TieredFacts.
Variable llmEnabled : bool.
Variable extractArticle : string -> Cron.result Cron.ExtractedArticle.
Variable rankArticlesBatch :
  list Llm.ArticleForRanking -> Cron.result (gmap string Llm.Ranking).
Variable generateSummariesBatch :
  list Summarization.SummaryInput -> gmap string Llm.SummaryResponse.
Variable savedArticles : list Tiered.SavedArticle.
Variable selectedFeedItems : list ScoredFeedItem.

Local Abbreviation content :=
  (Tiered.extractedContent extractArticle savedArticles selectedFeedItems).
Local Abbreviation has :=
  (Tiered.has extractArticle savedArticles selectedFeedItems).
Local Abbreviation forRanking :=
  (Tiered.articlesForRanking extractArticle savedArticles selectedFeedItems).
Local Abbreviation withTiers :=
  (Tiered.articlesWithTiers llmEnabled extractArticle rankArticlesBatch savedArticles
     selectedFeedItems).
Local Abbreviation tiered :=
  (Tiered.tieredArticles llmEnabled extractArticle rankArticlesBatch
     generateSummariesBatch savedArticles selectedFeedItems).

Lemma tiered_ids :
  List.map Tiered.tieredId tiered = List.map Llm.id forRanking.
Proof.
  unfold Tiered.tieredArticles, Tiered.articlesWithTiers.
  rewrite !List.map_map. reflexivity.
Qed.

Lemma forRanking_ids :
  List.map Llm.id forRanking
  = List.map Tiered.savedId savedArticles
    ++ List.map (fun scored => Rss.link (item scored))
         (List.filter (fun scored => has (Rss.link (item scored))) selectedFeedItems).
Proof.
  unfold Tiered.articlesForRanking. rewrite List.map_app, !List.map_map. reflexivity.
Qed.

Lemma extractedContent_keys (k : string) :
  is_Some (content !! k)
  <-> In k (List.map Tiered.savedId savedArticles)
      \/ exists scored extracted,
           In scored selectedFeedItems /\ Rss.link (item scored) = k
           /\ extractArticle k = Cron.Ok extracted.
Proof.
  unfold Tiered.extractedContent.
  destruct (fold_insert_lookup Tiered.savedId
              (fun article =>
                 {| Tiered.html := Tiered.savedContentHtml article;
                    Tiered.text := Tiered.savedContentText article;
                    Tiered.readingMinutes := Tiered.savedReadingMinutes article;
                    Tiered.author := Tiered.savedAuthor article |})
              savedArticles ∅) as (Hsaved & _).
  cbv beta zeta in Hsaved.
  set (base := fold_left _ savedArticles ∅) in *.
  assert (Hbase : is_Some (base !! k) <-> In k (List.map Tiered.savedId savedArticles)).
  { rewrite Hsaved, lookup_empty. split; [intros [H|[? H]]; [exact H | discriminate H] | auto]. }
  rewrite <- Hbase. clear Hsaved Hbase. generalize base. clear base.
  induction selectedFeedItems as [|scored rest IH]; intros base; cbn [fold_left].
  - split; [auto | intros [H|(? & ? & [] & _)]; exact H].
  - rewrite IH. clear IH. cbn [In].
    destruct (extractArticle (Rss.link (item scored))) as [extracted|message] eqn:E.
    + destruct (String.eqb_spec (Rss.link (item scored)) k) as [Hk|Hne].
      * rewrite <- Hk, lookup_insert_eq. split; [|intros _; left; eauto].
        intros _. right. exists scored, extracted. auto.
      * rewrite lookup_insert_ne by assumption. split.
        -- intros [H|(s & x & Hs & Hl & Hx)]; [auto|]. right. exists s, x. auto.
        -- intros [H|(s & x & [<-|Hs] & Hl & Hx)]; [auto | contradiction|].
           right. exists s, x. auto.
    + split.
      * intros [H|(s & x & Hs & Hl & Hx)]; [auto|]. right. exists s, x. auto.
      * intros [H|(s & x & [<-|Hs] & Hl & Hx)]; [auto| |].
        -- rewrite Hl in E. congruence.
        -- right. exists s, x. auto.
Qed.

End TieredFacts.

Lemma In_omap {A B : Type} (f : A -> option B) (l : list A) (y : B) :
  In y (omap f l) <-> exists x, In x l /\ f x = Some y.
Proof.
  induction l as [|x rest IH]; cbn [omap list_omap In].
  - split; [intros [] | intros (? & [] & _)].
  - destruct (f x) as [z|] eqn:E; cbn [In]; rewrite IH; split.
    + intros [<-|(x' & Hx' & Hf)]; [exists x; auto | exists x'; auto].
    + intros (x' & [<-|Hx'] & Hf); [left; congruence | right; eauto].
    + intros (x' & Hx' & Hf). eauto.
    + intros (x' & [<-|Hx'] & Hf); [congruence | eauto].
Qed.

Lemma omap_filter_map {A B C : Type} (f : A -> option B) (p : A -> bool)
    (g : B -> C) (h : A -> C) (l : list A) :
  (forall x, p x = true <-> is_Some (f x)) ->
  (forall x y, f x = Some y -> g y = h x) ->
  List.map g (omap f l) = List.map h (List.filter p l).
Proof.
  intros Hp Hg. induction l as [|x rest IH]; [reflexivity|].
  cbn [omap list_omap List.filter]. destruct (f x) as [y|] eqn:E.
  - assert (Hx : p x = true) by (apply Hp; eauto). rewrite Hx.
    cbn [List.map]. now rewrite (Hg x y E), IH.
  - assert (Hx : p x = false).
    { destruct (p x) eqn:Hpx; [|reflexivity]. apply Hp in Hpx.
      destruct Hpx as [? Hpx]. congruence. }
    now rewrite Hx.
Qed.

(** X29: the sections of the tiered digest, whatever the model answers.
    The tiered articles are the saved articles followed by the selected
    feed items that have content, in that order; a feed item has content
    exactly when its extraction succeeded or its link is the id of a saved
    article.  Every tiered article is in exactly one of the three
    sections; none has an empty summary.  The articles of the second EPUB
    are exactly the critical articles that have content, in their order,
    each with the title, author, site name, URL and content of the tiered
    article and its reading time, or 5 minutes when that is zero.  The ids
    that step 12 marks as sent and records are the ids of all saved
    articles. *)
Theorem tiered_sections :
  forall (llmEnabled : bool)
         (extractArticle : string -> Cron.result Cron.ExtractedArticle)
         (rankArticlesBatch :
            list Llm.ArticleForRanking -> Cron.result (gmap string Llm.Ranking))
         (generateSummariesBatch :
            list Summarization.SummaryInput -> gmap string Llm.SummaryResponse)
         (savedArticles : list Tiered.SavedArticle)
         (selectedFeedItems : list ScoredFeedItem),
    let has := Tiered.has extractArticle savedArticles selectedFeedItems in
    let tiered :=
      Tiered.tieredArticles llmEnabled extractArticle rankArticlesBatch
        generateSummariesBatch savedArticles selectedFeedItems in
    let critical :=
      Tiered.criticalArticles llmEnabled extractArticle rankArticlesBatch
        generateSummariesBatch savedArticles selectedFeedItems in
    let notable :=
      Tiered.notableArticles llmEnabled extractArticle rankArticlesBatch
        generateSummariesBatch savedArticles selectedFeedItems in
    let related :=
      Tiered.relatedArticles llmEnabled extractArticle rankArticlesBatch
        generateSummariesBatch savedArticles selectedFeedItems in
    let full :=
      Tiered.fullArticlesForEpub llmEnabled extractArticle rankArticlesBatch
        generateSummariesBatch savedArticles selectedFeedItems in
    let inFull := fun a : Tiered.TieredDigestArticle =>
      match Tiered.tieredTier a, Tiered.tieredContentHtml a with
      | Llm.critical, Some contentHtml => negb (String.eqb contentHtml "")
      | _, _ => false
      end in
    List.map Tiered.tieredId tiered
    = List.map Tiered.savedId savedArticles
      ++ List.map (fun scored => Rss.link (item scored))
           (List.filter (fun scored => has (Rss.link (item scored))) selectedFeedItems)
    /\ (forall scored,
          In scored selectedFeedItems ->
          has (Rss.link (item scored)) = true
          <-> (exists extracted,
                 extractArticle (Rss.link (item scored)) = Cron.Ok extracted)
              \/ In (Rss.link (item scored)) (List.map Tiered.savedId savedArticles))
    /\ Permutation (critical ++ notable ++ related) tiered
    /\ (forall a, In a critical <-> In a tiered /\ Tiered.tieredTier a = Llm.critical)
    /\ (forall a, In a notable <-> In a tiered /\ Tiered.tieredTier a = Llm.notable)
    /\ (forall a, In a related <-> In a tiered /\ Tiered.tieredTier a = Llm.related)
    /\ Forall (fun a => Tiered.tieredSummary a <> ""%string) tiered
    /\ (forall e,
          In e full
          <-> exists a contentHtml,
                In a tiered
                /\ Tiered.tieredTier a = Llm.critical
                /\ Tiered.tieredContentHtml a = Some contentHtml
                /\ contentHtml <> ""%string
                /\ e = {| Cron.epubTitle := Tiered.tieredTitle a;
                          Cron.epubAuthor := Tiered.tieredAuthor a;
                          Cron.epubSiteName := Some (Tiered.tieredSiteName a);
                          Cron.epubUrl := Tiered.tieredUrl a;
                          Cron.epubContentHtml := contentHtml;
                          Cron.epubReadingMinutes :=
                            match Tiered.tieredReadingMinutes a with
                            | Some minutes => if minutes =? 0 then 5 else minutes
                            | None => 5
                            end |})
    /\ List.map Cron.epubUrl full
       = List.map Tiered.tieredUrl (List.filter inFull tiered)
    /\ Forall (fun a => Cron.epubContentHtml a <> ""%string
                        /\ Cron.epubReadingMinutes a <> 0) full
    /\ Tiered.includedArticleIds llmEnabled extractArticle rankArticlesBatch
         generateSummariesBatch savedArticles selectedFeedItems
       = List.map Tiered.savedId savedArticles.
Proof.
  intros llmEnabled extractArticle rankArticlesBatch generateSummariesBatch
    savedArticles selectedFeedItems has tiered critical notable related full inFull.
  assert (Hids : List.map Tiered.tieredId tiered
                 = List.map Tiered.savedId savedArticles
                   ++ List.map (fun scored => Rss.link (item scored))
                        (List.filter (fun scored => has (Rss.link (item scored)))
                           selectedFeedItems)).
  { unfold tiered. rewrite tiered_ids. apply forRanking_ids. }
  assert (Hsection : forall tier a,
             In a (List.filter (Tiered.hasTier tier) tiered)
             <-> In a tiered /\ Tiered.tieredTier a = tier).
  { intros tier a. rewrite List.filter_In. unfold Tiered.hasTier.
    destruct tier, (Tiered.tieredTier a); split; intros [H1 H2]; split;
      auto; discriminate. }
  set (entry := fun a =>
         match Feeds.truthy (Tiered.tieredContentHtml a) with
         | Some contentHtml =>
             Some {| Cron.epubTitle := Tiered.tieredTitle a;
                     Cron.epubAuthor := Tiered.tieredAuthor a;
                     Cron.epubSiteName := Some (Tiered.tieredSiteName a);
                     Cron.epubUrl := Tiered.tieredUrl a;
                     Cron.epubContentHtml := contentHtml;
                     Cron.epubReadingMinutes :=
                       match Tiered.tieredReadingMinutes a with
                       | Some minutes => if minutes =? 0 then 5 else minutes
                       | None => 5
                       end |}
         | None => None
         end).
  assert (Hfull : full = omap entry critical) by reflexivity.
  assert (Hentry : forall a e,
             entry a = Some e
             <-> exists contentHtml,
                   Tiered.tieredContentHtml a = Some contentHtml
                   /\ contentHtml <> ""%string
                   /\ e = {| Cron.epubTitle := Tiered.tieredTitle a;
                             Cron.epubAuthor := Tiered.tieredAuthor a;
                             Cron.epubSiteName := Some (Tiered.tieredSiteName a);
                             Cron.epubUrl := Tiered.tieredUrl a;
                             Cron.epubContentHtml := contentHtml;
                             Cron.epubReadingMinutes :=
                               match Tiered.tieredReadingMinutes a with
                               | Some minutes => if minutes =? 0 then 5 else minutes
                               | None => 5
                               end |}).
  { intros a e. unfold entry.
    destruct (Tiered.tieredContentHtml a) as [c|]; cbn [Feeds.truthy].
    - destruct (String.eqb_spec c "") as [->|Hne].
      + split; [discriminate|]. intros (c' & [= <-] & Hc & _). now contradiction Hc.
      + split.
        * intros [= <-]. exists c. auto.
        * intros (c' & [= <-] & _ & ->). reflexivity.
    - split; [discriminate|]. intros (c' & Hc & _). discriminate. }
  split; [exact Hids|].
  split; [|split; [|split; [|split; [|split; [|split; [|split; [|split; [|split]]]]]]]].
  - intros scored Hin. unfold has, Tiered.has.
    pose proof (extractedContent_keys extractArticle savedArticles selectedFeedItems
                  (Rss.link (item scored))) as Hkeys.
    destruct (Tiered.extractedContent _ _ _ !! _) as [c|].
    + split; [intros _|reflexivity].
      destruct Hkeys as [Hkeys _]. destruct Hkeys as [H|(s & x & _ & _ & Hx)]; eauto.
    + split; [discriminate|]. intros H. exfalso.
      assert (Hsome : is_Some (@None Tiered.ExtractedContent)).
      { apply Hkeys. destruct H as [[x Hx]|H]; [right; exists scored, x; auto | now left]. }
      destruct Hsome as [? Hsome]. discriminate Hsome.
  - apply filter_three. intros a. unfold Tiered.hasTier.
    destruct (Tiered.tieredTier a); auto.
  - apply Hsection.
  - apply Hsection.
  - apply Hsection.
  - unfold tiered, Tiered.tieredArticles. apply List.Forall_forall.
    intros a Ha. apply List.in_map_iff in Ha. destruct Ha as (r & <- & _).
    cbn [Tiered.tieredSummary]. apply orElse_nonempty, append_dots_nonempty.
  - intros e. rewrite Hfull, In_omap. split.
    + intros (a & Ha & He). apply (Hsection Llm.critical) in Ha.
      apply Hentry in He. destruct He as (c & Hc & Hne & ->).
      exists a, c. tauto.
    + intros (a & c & Ha & Htier & Hc & Hne & ->). exists a.
      split; [apply (Hsection Llm.critical); auto|].
      apply Hentry. exists c. auto.
  - rewrite Hfull. unfold critical, Tiered.criticalArticles. fold tiered.
    rewrite (omap_filter_map entry
               (fun a => match Tiered.tieredContentHtml a with
                         | Some contentHtml => negb (String.eqb contentHtml "")
                         | None => false
                         end) Cron.epubUrl Tiered.tieredUrl).
    + rewrite filter_filter. f_equal. apply List.filter_ext. intros a.
      unfold inFull, Tiered.hasTier.
      destruct (Tiered.tieredTier a), (Tiered.tieredContentHtml a) as [c|];
        rewrite ?andb_true_r, ?andb_false_r; reflexivity.
    + intros a. unfold entry.
      destruct (Tiered.tieredContentHtml a) as [c|]; cbn [Feeds.truthy].
      * destruct (String.eqb c ""); cbn [negb].
        -- split; [discriminate | intros [? H]; discriminate H].
        -- split; [eauto | reflexivity].
      * split; [discriminate | intros [? H]; discriminate H].
    + intros a e He. apply Hentry in He. destruct He as (c & _ & _ & ->). reflexivity.
  - apply List.Forall_forall. intros e He. rewrite Hfull in He.
    apply In_omap in He. destruct He as (a & _ & He).
    apply Hentry in He. destruct He as (c & _ & Hne & ->).
    cbn [Cron.epubContentHtml Cron.epubReadingMinutes].
    split; [assumption|].
    destruct (Tiered.tieredReadingMinutes a) as [minutes|]; [|discriminate].
    destruct (Z.eqb_spec minutes 0); [discriminate | assumption].
  - unfold Tiered.includedArticleIds. fold tiered. f_equal.
    apply List.forallb_filter_id. apply forallb_forall. intros a Ha.
    apply existsb_exists.
    assert (Hin : In (Tiered.savedId a) (List.map Tiered.tieredId tiered)).
    { rewrite Hids. apply List.in_or_app. left. now apply List.in_map. }
    apply List.in_map_iff in Hin. destruct Hin as (t & Ht & Hin).
    exists t. split; [assumption|]. rewrite Ht. apply String.eqb_refl.
Qed.

(** ** The tiered runner without the model *)

Lemma applyFallbackRanking_first (articles : list Llm.ArticleForRanking)
    (first : Llm.ArticleForRanking) (others : list Llm.ArticleForRanking) :
  List.NoDup (List.map Llm.id articles) ->
  Llm.sortedArticles articles = first :: others ->
  exists ranking,
    Llm.applyFallbackRanking articles !! Llm.id first = Some ranking
    /\ Llm.tier ranking = Llm.critical.
Proof.
  intros Hnd Hsorted.
  assert (Hperm : Permutation (Llm.sortedArticles articles) articles) by apply sort_perm.
  assert (Hnd' : List.NoDup (List.map Llm.id (first :: others))).
  { rewrite <- Hsorted. eapply Permutation_NoDup; [|exact Hnd].
    symmetry. now apply Permutation_map. }
  unfold Llm.applyFallbackRanking.
  destruct (List.length articles =? 0)%nat eqn:Hempty.
  { apply Nat.eqb_eq, List.length_zero_iff_nil in Hempty. subst articles.
    discriminate Hsorted. }
  cbv zeta. rewrite Hsorted. cbn [Llm.forEach].
  set (criticalCount := Z.max 1 _). set (notableCount := Z.max 2 _).
  rewrite (forEach_lookup_other
             (fun index =>
                {| Llm.tier := Llm.tierAt criticalCount notableCount index;
                   Llm.tierReason := "Keyword-based fallback ranking" |})).
  - rewrite lookup_insert_eq. eexists. split; [reflexivity|].
    cbn [Llm.tier]. unfold Llm.tierAt.
    assert (H : (Z.of_nat 0 <? criticalCount) = true)
      by (apply Z.ltb_lt; unfold criticalCount; lia).
    now rewrite H.
  - cbn [List.map] in Hnd'. now inversion Hnd'.
Qed.

Lemma applyFallbackRanking_reason (articles : list Llm.ArticleForRanking) (k : string)
    (ranking : Llm.Ranking) :
  Llm.applyFallbackRanking articles !! k = Some ranking ->
  Llm.tierReason ranking = "Keyword-based fallback ranking"%string.
Proof.
  unfold Llm.applyFallbackRanking.
  destruct (List.length articles =? 0)%nat; [rewrite lookup_empty; discriminate|].
  cbv zeta. set (criticalCount := Z.max 1 _). set (notableCount := Z.max 2 _).
  generalize (Llm.sortedArticles articles) 0%nat.
  assert (Hgen : forall (arr : list Llm.ArticleForRanking) (index : nat)
                        (results : gmap string Llm.Ranking),
             (forall r, results !! k = Some r ->
                        Llm.tierReason r = "Keyword-based fallback ranking"%string) ->
             Llm.forEach
               (fun (results : gmap string Llm.Ranking) article index =>
                  <[Llm.id article :=
                      {| Llm.tier := Llm.tierAt criticalCount notableCount index;
                         Llm.tierReason := "Keyword-based fallback ranking" |}]> results)
               arr index results !! k = Some ranking ->
             Llm.tierReason ranking = "Keyword-based fallback ranking"%string).
  { induction arr as [|x rest IH]; intros index results Hres; cbn [Llm.forEach].
    - apply Hres.
    - apply IH. intros r. destruct (String.eqb_spec (Llm.id x) k) as [<-|Hne].
      + rewrite lookup_insert_eq. now intros [= <-].
      + rewrite lookup_insert_ne by assumption. apply Hres. }
  intros arr index. apply Hgen. intros r. rewrite lookup_empty. discriminate.
Qed.

Lemma sorted_first_manual (first : Llm.ArticleForRanking)
    (others : list Llm.ArticleForRanking) (a : Llm.ArticleForRanking) :
  StronglySorted Llm.precedes (first :: others) ->
  In a (first :: others) -> Llm.isManualSave a = true ->
  Llm.isManualSave first = true.
Proof.
  intros Hsorted [<-|Ha] Hsave; [assumption|].
  apply StronglySorted_inv in Hsorted. destruct Hsorted as [_ Hall].
  rewrite List.Forall_forall in Hall. destruct (Hall a Ha) as [H _]. auto.
Qed.

Lemma nonempty_In {A : Type} (l : list A) : l <> [] -> exists x, In x l.
Proof. destruct l as [|x l]; [congruence|]. exists x. now left. Qed.

(** X30: the tiered digest without the model (fallback ranking and
    fallback summaries), for articles with pairwise-distinct ids.  A
    digest with an article has a critical article, and when a saved
    article is pending a saved article is critical.  Every article gets
    its tier from the fallback ranking (never the default).  The summary
    of every article is its excerpt cut to 400 characters (tier critical)
    or 150, followed by "...", and its one-liner is its title. *)
Theorem tiered_fallback :
  forall (extractArticle : string -> Cron.result Cron.ExtractedArticle)
         (rankArticlesBatch :
            list Llm.ArticleForRanking -> Cron.result (gmap string Llm.Ranking))
         (generateSummariesBatch :
            list Summarization.SummaryInput -> gmap string Llm.SummaryResponse)
         (savedArticles : list Tiered.SavedArticle)
         (selectedFeedItems : list ScoredFeedItem),
    let forRanking :=
      Tiered.articlesForRanking extractArticle savedArticles selectedFeedItems in
    let withTiers :=
      Tiered.articlesWithTiers false extractArticle rankArticlesBatch savedArticles
        selectedFeedItems in
    let tiered :=
      Tiered.tieredArticles false extractArticle rankArticlesBatch
        generateSummariesBatch savedArticles selectedFeedItems in
    let critical :=
      Tiered.criticalArticles false extractArticle rankArticlesBatch
        generateSummariesBatch savedArticles selectedFeedItems in
    List.NoDup (List.map Llm.id forRanking) ->
    (forRanking <> [] -> critical <> [])
    /\ (savedArticles <> [] ->
        exists a, In a critical
                  /\ In (Tiered.tieredId a) (List.map Tiered.savedId savedArticles))
    /\ (forall article,
          In article withTiers ->
          exists ranking,
            Llm.applyFallbackRanking forRanking !! Llm.id (Tiered.ranked article)
            = Some ranking
            /\ Tiered.rankedTier article = Llm.tier ranking
            /\ Tiered.rankedReason article = "Keyword-based fallback ranking"%string)
    /\ List.map Tiered.tieredSummary tiered
       = List.map
           (fun article =>
              (JS.slice0 (match Tiered.rankedTier article with
                          | Llm.critical => 400
                          | _ => 150
                          end) (Llm.excerpt (Tiered.ranked article)) ++ "...")%string)
           withTiers
    /\ List.map Tiered.tieredOneLiner tiered
       = List.map (fun article => Llm.title (Tiered.ranked article)) withTiers.
Proof.
  intros extractArticle rankArticlesBatch generateSummariesBatch savedArticles
    selectedFeedItems forRanking withTiers tiered critical Hnd.
  assert (Hperm : Permutation (Llm.sortedArticles forRanking) forRanking)
    by apply sort_perm.
  assert (Hsorted : StronglySorted Llm.precedes (Llm.sortedArticles forRanking))
    by apply sortedArticles_sorted.
  (* the article that leads the fallback order is critical *)
  assert (Hlead : forall first others,
             Llm.sortedArticles forRanking = first :: others ->
             exists a, In a critical /\ Tiered.tieredId a = Llm.id first).
  { intros first others Hs.
    destruct (applyFallbackRanking_first forRanking first others Hnd Hs)
      as (ranking & Hlookup & Htier).
    assert (Hin : In first forRanking).
    { apply (Permutation_in _ Hperm). rewrite Hs. now left. }
    unfold critical, Tiered.criticalArticles, Tiered.tieredArticles,
      Tiered.articlesWithTiers. fold forRanking.
    eexists. split.
    - apply List.filter_In. split.
      + apply List.in_map, List.in_map. exact Hin.
      + unfold Tiered.hasTier. cbn [Tiered.tieredTier Tiered.rankedTier].
        unfold Tiered.rankings. fold forRanking. rewrite Hlookup, Htier. reflexivity.
    - reflexivity. }
  split; [|split; [|split; [|split]]].
  - intros Hne. destruct (Llm.sortedArticles forRanking) as [|first others] eqn:Hs.
    + apply Permutation_nil in Hperm. congruence.
    + destruct (Hlead first others eq_refl) as (a & Ha & _). intros E.
      rewrite E in Ha. destruct Ha.
  - intros Hne. destruct (nonempty_In savedArticles Hne) as [pending Hpending].
    assert (Hex : exists a, In a forRanking /\ Llm.isManualSave a = true).
    { eexists. split.
      - unfold forRanking, Tiered.articlesForRanking. apply List.in_or_app. left.
        apply List.in_map. exact Hpending.
      - reflexivity. }
    destruct Hex as (a & Ha & Hsave).
    destruct (Llm.sortedArticles forRanking) as [|first others] eqn:Hs.
    + apply Permutation_nil in Hperm. rewrite Hperm in Ha. destruct Ha.
    + assert (Hfirst : Llm.isManualSave first = true).
      { apply (sorted_first_manual first others a Hsorted); [|assumption].
        apply (Permutation_in _ (Permutation_sym Hperm)). exact Ha. }
      destruct (Hlead first others eq_refl) as (t & Ht & Hid).
      exists t. split; [assumption|]. rewrite Hid.
      assert (Hin : In first forRanking).
      { apply (Permutation_in _ Hperm). now left. }
      unfold forRanking, Tiered.articlesForRanking in Hin.
      apply List.in_app_or in Hin. destruct Hin as [Hin|Hin].
      * apply List.in_map_iff in Hin. destruct Hin as (x & <- & Hx).
        cbn [Llm.id]. now apply List.in_map.
      * apply List.in_map_iff in Hin. destruct Hin as (x & <- & _).
        cbn [Llm.isManualSave] in Hfirst. discriminate.
  - intros article Hin. unfold withTiers, Tiered.articlesWithTiers in Hin.
    fold forRanking in Hin. apply List.in_map_iff in Hin.
    destruct Hin as (a & <- & Ha). cbn [Tiered.ranked Tiered.rankedTier Tiered.rankedReason].
    unfold Tiered.rankings. fold forRanking.
    assert (Hsome : is_Some (Llm.applyFallbackRanking forRanking !! Llm.id a)).
    { unfold Llm.applyFallbackRanking.
      destruct (List.length forRanking =? 0)%nat eqn:Hempty.
      - apply Nat.eqb_eq, List.length_zero_iff_nil in Hempty.
        rewrite Hempty in Ha. destruct Ha.
      - cbv zeta. set (criticalCount := Z.max 1 _). set (notableCount := Z.max 2 _).
        apply (forEach_lookup_some
                 (fun index =>
                    {| Llm.tier := Llm.tierAt criticalCount notableCount index;
                       Llm.tierReason := "Keyword-based fallback ranking" |})).
        left. apply List.in_map.
        apply (Permutation_in _ (Permutation_sym Hperm)). exact Ha. }
    destruct Hsome as [ranking Hlookup]. exists ranking. rewrite Hlookup.
    cbn [option_map]. split; [reflexivity|]. split; [reflexivity|].
    rewrite (applyFallbackRanking_reason _ _ _ Hlookup). reflexivity.
  - unfold tiered, Tiered.tieredArticles. fold withTiers. rewrite List.map_map.
    apply List.map_ext_in. intros article Hin. cbn [Tiered.tieredSummary].
    unfold Tiered.summaries, Tiered.summaryInputs. fold withTiers.
    rewrite List.map_map. cbn [Summarization.article Summarization.tier].
    destruct (generateFallbackSummaries_lookup
                (List.map (fun r => (Tiered.ranked r, Tiered.rankedTier r)) withTiers)
                (Tiered.ranked article) (Tiered.rankedTier article)) as [_ Hown].
    { apply List.in_map_iff. exists article. auto. }
    rewrite Hown.
    + cbn [option_map Llm.fallbackSummary Llm.summary]. unfold Cron.orElse.
      destruct (String.eqb_spec
                  (JS.slice0 (match Tiered.rankedTier article with
                              | Llm.critical => 400
                              | _ => 150
                              end) (Llm.excerpt (Tiered.ranked article)) ++ "...")%string
                  ""%string) as [E|_]; [|reflexivity].
      now apply append_dots_nonempty in E.
    + rewrite List.map_map. cbn [fst]. unfold withTiers, Tiered.articlesWithTiers.
      rewrite List.map_map. cbn [Tiered.ranked]. exact Hnd.
  - unfold tiered, Tiered.tieredArticles. fold withTiers. rewrite List.map_map.
    apply List.map_ext_in. intros article Hin. cbn [Tiered.tieredOneLiner].
    unfold Tiered.summaries, Tiered.summaryInputs. fold withTiers.
    rewrite List.map_map. cbn [Summarization.article Summarization.tier].
    destruct (generateFallbackSummaries_lookup
                (List.map (fun r => (Tiered.ranked r, Tiered.rankedTier r)) withTiers)
                (Tiered.ranked article) (Tiered.rankedTier article)) as [_ Hown].
    { apply List.in_map_iff. exists article. auto. }
    rewrite Hown.
    + cbn [Llm.fallbackSummary Llm.oneLiner]. unfold Cron.orElse.
      destruct (String.eqb_spec (Llm.title (Tiered.ranked article)) ""%string) as [E|_];
        [now rewrite E | reflexivity].
    + rewrite List.map_map. cbn [fst]. unfold withTiers, Tiered.articlesWithTiers.
      rewrite List.map_map. cbn [Tiered.ranked]. exact Hnd.
Qed.

Lemma tiered_fallback_witness :
  exists a,
    In a (Tiered.criticalArticles false TieredExamples.offline TieredExamples.noRanking
            TieredExamples.noSummaries [TieredExamples.saved] [])
    /\ In (Tiered.tieredId a) (List.map Tiered.savedId [TieredExamples.saved]).
Proof.
  destruct (tiered_fallback TieredExamples.offline TieredExamples.noRanking
              TieredExamples.noSummaries [TieredExamples.saved] [])
    as (_ & H & _).
  - repeat constructor. intros [].
  - apply H. discriminate.
Defined.
